(** * CodeScope: query interpretation, ranking and workspace indexing

    A shallow embedding of the core of the CodeScope extension:
    - [src/core/searchEngine.ts]  (class SearchEngine),
    - the query parser            (class QueryParser),
    - [src/utils/indexer.ts]      (class CodeIndexer),
    - the earlier, additive ranking engine (module [Legacy]),
    - the TypeScript parser       (module [TypeScriptParser]),
    over the data model of [src/types/index.ts].

    Modelling conventions.
    - A JavaScript string is a [string]: a sequence of code units below
      256.  On these, white space ([trim], [/\s/]) is TAB, LF, VT, FF, CR,
      SPACE and NO-BREAK SPACE (160), the line terminators are LF and CR,
      and [toLowerCase] adds 32 to the capitals A-Z (65-90) and to the
      capitals 192-222 other than the multiplication sign (215).  Code
      units from 256 on are not represented.
    - Scores are JavaScript numbers in the source.  They are embedded as
      exact rationals ([Q]); every constant of the source (1.5, 1.2, 0.8,
      0.6, 0.3, 0.2, 0.1) is a rational, and equalities between scores are
      stated up to [Qeq] unless the source returns a literal.
    - Counts, sizes, time stamps and array bounds are integers ([nat] for
      lengths, [Z] where the source accepts any number).
    - Code that can throw lives in a small state-and-exception monad; a
      [try]/[catch] block is the combinator [try_catch]. *)

From Stdlib Require Import List String Ascii Bool Arith ZArith QArith Qminmax.
From Stdlib Require Import Lia Lqa Permutation Sorted DecimalString.
From Stdlib Require DecimalFacts DecimalNat DecimalPos DecimalZ.
Import ListNotations.

Local Open Scope string_scope.
Local Open Scope list_scope.

(* ================================================================== *)
(** ** JavaScript string primitives *)
(* ================================================================== *)

(** [s.startsWith(k)] *)
Definition startsWith (s k : string) : bool := String.prefix k s.

(** [s.endsWith(k)]: some suffix of [s] is [k]. *)
Fixpoint endsWith (s k : string) : bool :=
  String.eqb s k ||
  match s with
  | EmptyString => false
  | String _ r => endsWith r k
  end.

(** [s.includes(k)]: [k] is a prefix of some suffix of [s]. *)
Fixpoint includes (s k : string) : bool :=
  String.prefix k s ||
  match s with
  | EmptyString => false
  | String _ r => includes r k
  end.

(** [toLowerCase] on one code unit below 256. *)
Definition lowerChar (c : ascii) : ascii :=
  let n := nat_of_ascii c in
  if ((65 <=? n)%nat && (n <=? 90)%nat)
     || ((192 <=? n)%nat && (n <=? 222)%nat && negb (n =? 215)%nat)
  then ascii_of_nat (n + 32) else c.

(** [s.toLowerCase()] *)
Fixpoint toLowerCase (s : string) : string :=
  match s with
  | EmptyString => EmptyString
  | String c r => String (lowerChar c) (toLowerCase r)
  end.

(** White space of [/\s/] and of [trim] among the code units below 256:
    TAB, LF, VT, FF, CR, SPACE and NO-BREAK SPACE (160). *)
Definition isSpace (c : ascii) : bool :=
  let n := nat_of_ascii c in
  ((9 <=? n)%nat && (n <=? 13)%nat) || (n =? 32)%nat || (n =? 160)%nat.

(** The text consists of white space only (the empty text does). *)
Fixpoint allSpace (s : string) : bool :=
  match s with
  | EmptyString => true
  | String c r => isSpace c && allSpace r
  end.

Fixpoint trimStart (s : string) : string :=
  match s with
  | EmptyString => EmptyString
  | String c r => if isSpace c then trimStart r else s
  end.

(** Drops trailing white space: a character is kept when it is not white
    space or when something is kept after it. *)
Fixpoint trimEnd (s : string) : string :=
  match s with
  | EmptyString => EmptyString
  | String c r =>
      match trimEnd r with
      | EmptyString => if isSpace c then EmptyString else String c EmptyString
      | r' => String c r'
      end
  end.

(** [s.trim()] *)
Definition trim (s : string) : string := trimEnd (trimStart s).

(** [s.split(/\s+/)]: the pieces between maximal runs of white space.
    [cur] is the piece being read, [inSep] tells that the
    previous character was white space. *)
Fixpoint splitWs (s : string) (cur : string) (inSep : bool) : list string :=
  match s with
  | EmptyString => [cur]
  | String c r =>
      if isSpace c then
        if inSep then splitWs r cur true
        else cur :: splitWs r EmptyString true
      else splitWs r (cur ++ String c EmptyString) false
  end.

Definition split_whitespace (s : string) : list string :=
  splitWs s EmptyString false.

(** [s.split('\n')[0]]: the text before the first line feed. *)
Fixpoint firstLine (s : string) : string :=
  match s with
  | EmptyString => EmptyString
  | String c r =>
      if Ascii.eqb c "010"%char then EmptyString else String c (firstLine r)
  end.

(** [parts.join(sep)] *)
Fixpoint join (sep : string) (parts : list string) : string :=
  match parts with
  | [] => EmptyString
  | [p] => p
  | p :: rest => p ++ sep ++ join sep rest
  end.

(** [s.replace(/c/g, by)] for a one-character pattern. *)
Fixpoint replaceAll (c : ascii) (by_ : string) (s : string) : string :=
  match s with
  | EmptyString => EmptyString
  | String d r =>
      if Ascii.eqb d c then by_ ++ replaceAll c by_ r
      else String d (replaceAll c by_ r)
  end.

(** [arr.includes(x)] on an array of strings. *)
Definition str_mem (x : string) (l : list string) : bool :=
  existsb (String.eqb x) l.

(** [[...new Set(l)]]: a Set keeps the first occurrence of each value, in
    insertion order.  [seen] holds the values already inserted. *)
Fixpoint uniq_from (seen : list string) (l : list string) : list string :=
  match l with
  | [] => []
  | x :: r =>
      if str_mem x seen then uniq_from seen r
      else x :: uniq_from (x :: seen) r
  end.

Definition uniq (l : list string) : list string := uniq_from [] l.

(** Template-literal rendering of a non-negative integer. *)
Definition string_of_nat (n : nat) : string :=
  NilZero.string_of_uint (Nat.to_uint n).

(** Template-literal rendering of an integer. *)
Definition string_of_Z (z : Z) : string :=
  NilZero.string_of_int (Z.to_int z).

(* ================================================================== *)
(** ** Data model ([src/types/index.ts]) *)
(* ================================================================== *)

Inductive ElementType :=
| FUNCTION | CLASS | METHOD | PROPERTY | VARIABLE
| INTERFACE | TYPE | ENUM | NAMESPACE.

Inductive QueryIntent :=
| FIND_FUNCTIONS | FIND_CLASSES | FIND_METHODS | FIND_VARIABLES
| FIND_INTERFACES | FIND_TYPES | FIND_ALL.

Inductive Language := TYPESCRIPT | JAVASCRIPT | PYTHON.

(** The string value of each [Language] member. *)
Definition Language_value (l : Language) : string :=
  match l with
  | TYPESCRIPT => "typescript"
  | JAVASCRIPT => "javascript"
  | PYTHON => "python"
  end.

Definition ElementType_eq_dec (a b : ElementType) : {a = b} + {a <> b}.
Proof. decide equality. Defined.

Definition QueryIntent_eq_dec (a b : QueryIntent) : {a = b} + {a <> b}.
Proof. decide equality. Defined.

Definition ElementType_eqb (a b : ElementType) : bool :=
  if ElementType_eq_dec a b then true else false.

Definition QueryIntent_eqb (a b : QueryIntent) : bool :=
  if QueryIntent_eq_dec a b then true else false.

(** [types.includes(t)] *)
Definition type_mem (t : ElementType) (l : list ElementType) : bool :=
  existsb (ElementType_eqb t) l.

(** [interface Parameter] ([Parameter] is a reserved word here). *)
Record Param := mkParam {
  param_name : string;
  param_type : option string;
  param_optional : option bool;
  param_defaultValue : option string
}.

Record CodeElement := mkCodeElement {
  name : string;
  type : ElementType;
  signature : option string;
  description : option string;
  filePath : string;
  startLine : Z;
  endLine : Z;
  startColumn : Z;
  endColumn : Z;
  parameters : option (list Param);
  returnType : option string;
  modifiers : option (list string);
  context : option string
}.

Record SearchQuery := mkSearchQuery {
  text : string;
  intent : QueryIntent;
  keywords : list string;
  elementTypes : list ElementType;
  language : option string
}.

Record SearchResult := mkSearchResult {
  element : CodeElement;
  score : Q;
  snippet : string;
  matchedKeywords : list string;
  relevanceReason : string
}.

(** Every field of [SearchOptions] is optional; [None] is [undefined]. *)
Record SearchOptions := mkSearchOptions {
  maxResults : option Z;
  threshold : option Q;
  includeSnippets : option bool;
  caseSensitive : option bool;
  languages : option (list Language);
  filePatterns : option (list string)
}.

(** [x || ''] on an optional string. *)
Definition orEmpty (o : option string) : string :=
  match o with
  | Some s => s
  | None => EmptyString
  end.

(** Destructuring default: [{ field = d } = options]. *)
Definition withDefault {A : Type} (d : A) (o : option A) : A :=
  match o with
  | Some a => a
  | None => d
  end.

(* ================================================================== *)
(** ** SearchEngine: scoring ([src/core/searchEngine.ts]) *)
(* ================================================================== *)

Local Open Scope Q_scope.

(** [const normalize = (text) => caseSensitive ? text : text.toLowerCase()] *)
Definition normalize (caseSensitive : bool) (text : string) : string :=
  if caseSensitive then text else toLowerCase text.

(** [getNameMatchScore] *)
Definition getNameMatchScore (elementName keyword : string) : Q :=
  if String.eqb elementName keyword then 1.5
  else if startsWith elementName keyword then 1.2
  else if endsWith elementName keyword then 0.8
  else if includes elementName keyword then 0.6
  else 0.

(** One iteration of the keyword loop of [calculateScore]; the loop state
    is the pair [(baseScore, matchedKeywordsCount)]. *)
Definition scoreStep (caseSensitive : bool)
    (elementName elementSignature elementDescription : string)
    (st : Q * nat) (keyword : string) : Q * nat :=
  let normalizedKeyword := normalize caseSensitive keyword in
  let '(baseScore, matchedKeywordsCount) := st in
  if includes elementName normalizedKeyword then
    (baseScore + 1.5 * getNameMatchScore elementName normalizedKeyword,
     S matchedKeywordsCount)
  else if includes elementSignature normalizedKeyword then
    (baseScore + 0.6, S matchedKeywordsCount)
  else if includes elementDescription normalizedKeyword then
    (baseScore + 0.3, S matchedKeywordsCount)
  else (baseScore, matchedKeywordsCount).

(** The whole keyword loop, started at [(0, 0)]. *)
Definition scoreLoop (caseSensitive : bool) (e : CodeElement)
    (kws : list string) : Q * nat :=
  fold_left
    (scoreStep caseSensitive
       (normalize caseSensitive (name e))
       (normalize caseSensitive (orEmpty (signature e)))
       (normalize caseSensitive (orEmpty (description e))))
    kws (0, 0%nat).

Definition Q_of_nat (n : nat) : Q := inject_Z (Z.of_nat n).

(** [a < b] on scores. *)
Definition Qlt_bool (a b : Q) : bool := negb (Qle_bool b a).

(** The bonus added after the completeness multiplier. *)
Definition addTypeBonus (e : CodeElement) (query : SearchQuery)
    (finalScore : Q) : Q :=
  if QueryIntent_eqb (intent query) FIND_FUNCTIONS
     && ElementType_eqb (type e) FUNCTION
  then finalScore + 0.2
  else if type_mem (type e) (elementTypes query) then finalScore + 0.1
  else finalScore.

(** [calculateScore] *)
Definition calculateScore (e : CodeElement) (query : SearchQuery)
    (caseSensitive : bool) : Q :=
  let kws := uniq (keywords query) in
  if (List.length kws =? 0)%nat then 0
  else
    let '(baseScore, matchedKeywordsCount) :=
      scoreLoop caseSensitive e kws in
    if (matchedKeywordsCount =? 0)%nat then 0
    else
      let completenessFactor :=
        Q_of_nat matchedKeywordsCount / Q_of_nat (List.length kws) in
      if (1 <? List.length kws)%nat
         && Qlt_bool completenessFactor 0.5
      then 0
      else
        let finalScore :=
          baseScore * (completenessFactor * completenessFactor) in
        let finalScore := addTypeBonus e query finalScore in
        let maxPossibleScore := Q_of_nat (List.length kws) * 1.5 * 1.5 + 0.2 in
        Qmin (finalScore / maxPossibleScore) 1.0.

(* ================================================================== *)
(** ** Host services *)
(* ================================================================== *)

(** What a throwing host call answers: a value, or the error it throws. *)
Inductive result (A : Type) :=
| Ok (a : A)
| Err (error : string).
Arguments Ok {A} a.
Arguments Err {A} error.

(** The services of the JavaScript host the source calls and does not
    define: [new RegExp(source).test(input)], which throws a SyntaxError
    on a malformed source, and the pure functions of the [path] module. *)
Record Host := mkHost {
  regexpTest : string -> string -> result bool;
  path_join : string -> string -> string;
  path_basename : string -> string;
  path_extname : string -> string
}.

(** [arr.some(p)] for a callback that may throw: the callbacks run in
    order and stop at the first [true] or at the first throw. *)
Fixpoint someR {A : Type} (p : A -> result bool) (l : list A) : result bool :=
  match l with
  | [] => Ok false
  | x :: r =>
      match p x with
      | Err e => Err e
      | Ok true => Ok true
      | Ok false => someR p r
      end
  end.

(** [arr.filter(p)] for a callback that may throw. *)
Fixpoint filterR {A : Type} (p : A -> result bool) (l : list A)
  : result (list A) :=
  match l with
  | [] => Ok []
  | x :: r =>
      match p x with
      | Err e => Err e
      | Ok b =>
          match filterR p r with
          | Err e => Err e
          | Ok r' => Ok (if b then x :: r' else r')
          end
      end
  end.

(* ================================================================== *)
(** ** SearchEngine: results, filtering, ordering *)
(* ================================================================== *)

(** [getMatchedKeywords]; note that it walks [query.keywords] as given,
    duplicates included. *)
Definition getMatchedKeywords (e : CodeElement) (kws : list string)
    (caseSensitive : bool) : list string :=
  let searchableText :=
    join " "
      (name e :: orEmpty (description e) :: orEmpty (signature e)
       :: match parameters e with
          | Some ps => map param_name ps
          | None => []
          end) in
  let normalizedSearchable := normalize caseSensitive searchableText in
  filter
    (fun keyword =>
       includes normalizedSearchable (normalize caseSensitive keyword))
    kws.

(** [getRelevanceReason] *)
Definition getRelevanceReason (e : CodeElement) (query : SearchQuery)
    (matched : list string) : string :=
  if (List.length matched =? 0)%nat then "General relevance match"
  else
    let totalKeywords := List.length (uniq (keywords query)) in
    ("Matches " ++ string_of_nat (List.length matched) ++ " of "
       ++ string_of_nat totalKeywords ++ " keywords: "
       ++ join ", " matched)%string.

(** A string is truthy when it is present and not empty. *)
Definition truthy (o : option string) : bool :=
  match o with
  | Some (String _ _) => true
  | _ => false
  end.

(** [generateSnippet] *)
Definition generateSnippet (e : CodeElement) : string :=
  let lines :=
    (if truthy (description e)
     then [("// " ++ firstLine (orEmpty (description e)))%string]
     else [])
      ++ [if truthy (signature e) then orEmpty (signature e) else name e] in
  join (String "010"%char EmptyString) lines.

(** [matchesPattern] *)
Definition matchesPattern (H : Host) (path pattern : string) : result bool :=
  let regexPattern :=
    replaceAll "?"%char "."
      (replaceAll "*"%char ".*"
         (replaceAll "."%char "\." pattern)) in
  regexpTest H ("^" ++ regexPattern ++ "$")%string path.

(** The body of the scoring loop of [search]: one [SearchResult] for each
    element whose score reaches the threshold, in the order of the
    elements. *)
Fixpoint collectResults (query : SearchQuery) (thresholdV : Q)
    (includeSnippetsV caseSensitiveV : bool) (els : list CodeElement)
  : list SearchResult :=
  match els with
  | [] => []
  | e :: rest =>
      let scoreV := calculateScore e query caseSensitiveV in
      let tail := collectResults query thresholdV includeSnippetsV
                    caseSensitiveV rest in
      if Qle_bool thresholdV scoreV then
        let snippetV := if includeSnippetsV then generateSnippet e
                        else EmptyString in
        let matchedV := getMatchedKeywords e (keywords query)
                          caseSensitiveV in
        mkSearchResult e scoreV snippetV matchedV
          (getRelevanceReason e query matchedV) :: tail
      else tail
  end.

(** [Array.prototype.sort(cmp)] is a stable sort.  It is modelled by the
    insertion of each element, last one first, in front of the first
    element it does not have to follow ([cmp x y <= 0]). *)
Fixpoint insertBy {A : Type} (cmp : A -> A -> Q) (x : A) (l : list A)
  : list A :=
  match l with
  | [] => [x]
  | y :: r =>
      if Qle_bool (cmp x y) 0 then x :: y :: r
      else y :: insertBy cmp x r
  end.

Definition sortBy {A : Type} (cmp : A -> A -> Q) (l : list A) : list A :=
  fold_right (insertBy cmp) [] l.

(** [arr.slice(0, end)]: a negative [end] counts from the end of the
    array. *)
Definition slice0 {A : Type} (l : list A) (end_ : Z) : list A :=
  let len := Z.of_nat (List.length l) in
  let final :=
    if (end_ <? 0)%Z then Z.max (len + end_) 0 else Z.min end_ len in
  firstn (Z.to_nat final) l.

(** The comparator of [search]: [(a, b) => b.score - a.score]. *)
Definition byScoreDesc (a b : SearchResult) : Q := score b - score a.

(** [a] may stand before [b] in a list of descending score. *)
Definition scoreDesc (a b : SearchResult) : Prop := score b <= score a.

(** The three filters at the head of [search]: the value of
    [filteredElements] when the scoring loop starts.  [Err] when a file
    pattern makes the host's RegExp constructor throw. *)
Definition filterElements (H : Host) (elements : list CodeElement)
    (query : SearchQuery) (languagesV : list Language)
    (filePatternsV : list string) : result (list CodeElement) :=
  let filtered1 :=
    if (0 <? List.length (elementTypes query))%nat
    then filter (fun e => type_mem (type e) (elementTypes query)) elements
    else elements in
  let filtered2 :=
    if (0 <? List.length languagesV)%nat
    then filter
           (fun e =>
              existsb
                (fun lang =>
                   endsWith (filePath e) ("." ++ Language_value lang)%string)
                languagesV)
           filtered1
    else filtered1 in
  if (0 <? List.length filePatternsV)%nat
  then filterR
         (fun e =>
            someR (fun pattern => matchesPattern H (filePath e) pattern)
              filePatternsV)
         filtered2
  else Ok filtered2.

(** [search]; [elements] is the field [this.elements]. *)
Definition search (H : Host) (elements : list CodeElement)
    (query : SearchQuery) (options : SearchOptions)
  : result (list SearchResult) :=
  let maxResultsV := withDefault 50%Z (maxResults options) in
  let thresholdV := withDefault 0.2 (threshold options) in
  let includeSnippetsV := withDefault true (includeSnippets options) in
  let caseSensitiveV := withDefault false (caseSensitive options) in
  let languagesV := withDefault [] (languages options) in
  let filePatternsV := withDefault [] (filePatterns options) in
  match filterElements H elements query languagesV filePatternsV with
  | Err e => Err e
  | Ok filteredElements =>
      let results := collectResults query thresholdV includeSnippetsV
                       caseSensitiveV filteredElements in
      Ok (slice0 (sortBy byScoreDesc results) maxResultsV)
  end.

(** [l1] is [l2] with some elements left out, the others in their
    order. *)
Inductive Subseq {A : Type} : list A -> list A -> Prop :=
| Subseq_nil : Subseq [] []
| Subseq_skip (x : A) (l1 l2 : list A) :
    Subseq l1 l2 -> Subseq l1 (x :: l2)
| Subseq_keep (x : A) (l1 l2 : list A) :
    Subseq l1 l2 -> Subseq (x :: l1) (x :: l2).

(* ================================================================== *)
(** ** QueryParser *)
(* ================================================================== *)

Definition FUNCTION_KEYWORDS : list string :=
  ["function"; "functions"; "method"; "methods"; "procedure"; "procedures";
   "routine"; "routines"; "func"; "def"; "lambda"].

Definition CLASS_KEYWORDS : list string :=
  ["class"; "classes"; "object"; "objects"; "type"; "types";
   "struct"; "structs"; "interface"; "interfaces"].

Definition VARIABLE_KEYWORDS : list string :=
  ["variable"; "variables"; "var"; "vars"; "field"; "fields";
   "property"; "properties"; "constant"; "constants"; "const"].

Definition ACTION_KEYWORDS : list string :=
  ["handle"; "handles"; "handling"; "process"; "processes"; "processing";
   "manage"; "manages"; "managing"; "deal"; "deals"; "dealing";
   "send"; "sends"; "sending"; "receive"; "receives"; "receiving";
   "create"; "creates"; "creating"; "delete"; "deletes"; "deleting";
   "update"; "updates"; "updating"; "get"; "gets"; "getting";
   "set"; "sets"; "setting"; "validate"; "validates"; "validating";
   "authenticate"; "authenticates"; "authenticating"; "authorize";
   "authorizes"; "authorizing"; "connect"; "connects"; "connecting";
   "parse"; "parses"; "parsing"; "format"; "formats"; "formatting";
   "calculate"; "calculates"; "calculating"; "compute"; "computes";
   "computing"; "render"; "renders"; "rendering"; "display";
   "displays"; "displaying"; "show"; "shows"; "showing"].

Definition DOMAIN_KEYWORDS : list string :=
  ["database"; "db"; "sql"; "query"; "queries"; "table"; "tables";
   "authentication"; "auth"; "login"; "logout"; "password"; "token";
   "user"; "users"; "session"; "sessions"; "permission"; "permissions";
   "email"; "mail"; "message"; "messages"; "notification"; "notifications";
   "file"; "files"; "upload"; "download"; "storage"; "cache"; "caching";
   "api"; "endpoint"; "endpoints"; "request"; "requests"; "response";
   "responses"; "http"; "https"; "server"; "client"; "network";
   "validation"; "validator"; "error"; "errors"; "exception"; "exceptions";
   "config"; "configuration"; "settings"; "preferences"; "options";
   "log"; "logs"; "logging"; "debug"; "debugging"; "test"; "tests";
   "testing"; "mock"; "mocks"; "mocking"; "util"; "utils"; "utility";
   "helper"; "helpers"; "service"; "services"; "controller"; "controllers";
   "model"; "models"; "view"; "views"; "component"; "components"].

Definition stopWords : list string :=
  ["that"; "with"; "for"; "and"; "or"; "in"; "on"; "at"; "to"; "from";
   "the"; "a"; "an"; "is"; "are"; "was"; "were"; "be"; "been"; "being";
   "have"; "has"; "had"; "do"; "does"; "did"; "will"; "would"; "could";
   "should"; "may"; "might"; "must"; "can"; "all"; "any"; "some"; "this";
   "these"; "those"; "my"; "your"; "his"; "her"; "its"; "our"; "their"].

Definition isStopWord (word : string) : bool := str_mem word stopWords.

Definition normalizeQuery (query : string) : string :=
  trim (toLowerCase query).

Definition tokenize (query : string) : list string :=
  filter (fun word => (0 <? String.length word)%nat)
    (split_whitespace query).

Definition determineIntent (words : list string) : QueryIntent :=
  let hasFunction := existsb (fun word => str_mem word FUNCTION_KEYWORDS) words in
  let hasClass := existsb (fun word => str_mem word CLASS_KEYWORDS) words in
  let hasVariable := existsb (fun word => str_mem word VARIABLE_KEYWORDS) words in
  if hasFunction && negb hasClass && negb hasVariable then FIND_FUNCTIONS
  else if hasClass && negb hasFunction && negb hasVariable then FIND_CLASSES
  else if hasVariable && negb hasFunction && negb hasClass then FIND_VARIABLES
  else if existsb
            (fun word => String.eqb word "interface"
                         || String.eqb word "interfaces") words
  then FIND_INTERFACES
  else if existsb
            (fun word => String.eqb word "type" || String.eqb word "types")
            words
  then FIND_TYPES
  else FIND_ALL.

(** [extractElementTypes]; the [words] argument is not used by the
    source either. *)
Definition extractElementTypes (words : list string) (i : QueryIntent)
  : list ElementType :=
  match i with
  | FIND_FUNCTIONS => [FUNCTION; METHOD]
  | FIND_CLASSES => [CLASS]
  | FIND_VARIABLES => [VARIABLE; PROPERTY]
  | FIND_INTERFACES => [INTERFACE]
  | FIND_TYPES => [TYPE; INTERFACE]
  | _ => [FUNCTION; CLASS; METHOD; VARIABLE; PROPERTY; INTERFACE; TYPE]
  end.

(** What one word pushes on [keywords] in [extractKeywords]. *)
Definition keywordPushes (word : string) : list string :=
  (if str_mem word ACTION_KEYWORDS then [word] else [])
    ++ (if str_mem word DOMAIN_KEYWORDS then [word] else [])
    ++ (if negb (str_mem word FUNCTION_KEYWORDS)
           && negb (str_mem word CLASS_KEYWORDS)
           && negb (str_mem word VARIABLE_KEYWORDS)
           && negb (isStopWord word)
        then [word] else []).

Definition extractKeywords (words : list string) : list string :=
  uniq (flat_map keywordPushes words).

(** [parse] *)
Definition parse (queryText : string) : SearchQuery :=
  let normalizedQuery := normalizeQuery queryText in
  let words := tokenize normalizedQuery in
  let intentV := determineIntent words in
  let elementTypesV := extractElementTypes words intentV in
  let keywordsV := extractKeywords words in
  mkSearchQuery queryText intentV keywordsV elementTypesV None.

(* ================================================================== *)
(** ** A state-and-exception monad for the indexer *)
(* ================================================================== *)

(** How a call ends: it returns a value or it throws. *)
Inductive Outcome (A : Type) :=
| Returned (a : A)
| Thrown (error : string).
Arguments Returned {A} a.
Arguments Thrown {A} error.

Definition M (S A : Type) : Type := S -> Outcome A * S.

Definition ret {S A : Type} (a : A) : M S A := fun s => (Returned a, s).

Definition bind {S A B : Type} (m : M S A) (k : A -> M S B) : M S B :=
  fun s =>
    match m s with
    | (Returned a, s') => k a s'
    | (Thrown e, s') => (Thrown e, s')
    end.

Definition throw {S A : Type} (e : string) : M S A := fun s => (Thrown e, s).

(** [try { body } catch (error) { handler }]: the state reached when the
    body throws is kept, as the heap of a JavaScript program is. *)
Definition try_catch {S A : Type} (body : M S A) (handler : string -> M S A)
  : M S A :=
  fun s =>
    match body s with
    | (Returned a, s') => (Returned a, s')
    | (Thrown e, s') => handler e s'
    end.

Definition gets {S A : Type} (f : S -> A) : M S A := fun s => (Returned (f s), s).

Definition modify {S : Type} (f : S -> S) : M S unit :=
  fun s => (Returned tt, f s).

(** A host call that answers a [result]. *)
Definition liftR {S A : Type} (r : result A) : M S A :=
  match r with
  | Ok a => ret a
  | Err e => throw e
  end.

Declare Scope monad_scope.
Delimit Scope monad_scope with monad.
Notation "x <- m ;; k" := (bind m (fun x => k))
  (at level 61, m at next level, right associativity) : monad_scope.
Notation "m ;;; k" := (bind m (fun _ => k))
  (at level 61, right associativity) : monad_scope.

(** [for (const x of l) { body x }] *)
Fixpoint forEachM {S A : Type} (body : A -> M S unit) (l : list A)
  : M S unit :=
  match l with
  | [] => ret tt
  | x :: r => bind (body x) (fun _ => forEachM body r)
  end.

(* ================================================================== *)
(** ** JavaScript [Map] with string keys *)
(* ================================================================== *)

(** A [Map] iterates in insertion order and [set] on a present key keeps
    the key's position: an association list without repeated keys. *)
Module JsMap.

Definition t (V : Type) : Type := list (string * V).

Definition empty {V : Type} : t V := [].

Fixpoint get {V : Type} (k : string) (m : t V) : option V :=
  match m with
  | [] => None
  | (k', v) :: r => if String.eqb k' k then Some v else get k r
  end.

Fixpoint set {V : Type} (k : string) (v : V) (m : t V) : t V :=
  match m with
  | [] => [(k, v)]
  | (k', v') :: r =>
      if String.eqb k' k then (k, v) :: r else (k', v') :: set k v r
  end.

Fixpoint delete {V : Type} (k : string) (m : t V) : t V :=
  match m with
  | [] => []
  | (k', v') :: r =>
      if String.eqb k' k then r else (k', v') :: delete k r
  end.

Definition keys {V : Type} (m : t V) : list string := map fst m.

Definition values {V : Type} (m : t V) : list V := map snd m.

Definition size {V : Type} (m : t V) : nat := List.length m.

(** The entries of a map with [g] applied to every value. *)
Definition mapValues {V W : Type} (g : V -> W) (m : t V) : t W :=
  map (fun kv => (fst kv, g (snd kv))) m.

End JsMap.

(* ================================================================== *)
(** ** CodeIndexer: data *)
(* ================================================================== *)

Record FileIndex := mkFileIndex {
  fi_filePath : string;
  fi_language : string;
  fi_elements : list CodeElement;
  fi_lastModified : Z;
  fi_hash : string
}.

Record ParseError := mkParseError {
  pe_message : string;
  pe_line : Z;
  pe_column : Z;
  pe_severity : string
}.

Record ParsedFile := mkParsedFile {
  pf_filePath : string;
  pf_language : string;
  pf_elements : list CodeElement;
  pf_imports : list string;
  pf_exports : list string;
  pf_errors : list ParseError
}.

Record WorkspaceIndex := mkWorkspaceIndex {
  wi_files : JsMap.t FileIndex;
  wi_elements : JsMap.t (list CodeElement);
  wi_lastUpdated : Z
}.

Record IndexerConfig := mkIndexerConfig {
  maxFileSize : Z;
  excludePatterns : list string;
  includePatterns : list string;
  watchFiles : bool;
  cacheSize : Z
}.

(** [fs.Stats], as far as the indexer reads it; [mtime] is
    [stats.mtime.getTime()]. *)
Record Stats := mkStats {
  size : Z;
  mtime : Z
}.

(** What directory discovery sees at a path.  [statSync] of the path
    either throws ([FsStatError]) or tells a directory, a regular file or
    something else; [readdirSync] of a directory lists its entries, each
    with what is seen there ([FsDir]), or throws ([FsDirError]). *)
Inductive FsNode :=
| FsFile
| FsOther
| FsStatError (error : string)
| FsDir (items : FsItems)
| FsDirError (error : string)
with FsItems :=
| FsNil
| FsCons (item : string) (node : FsNode) (rest : FsItems).

(** The world outside the indexer during one call: the directory tree
    under the workspace root, what [statSync], [readFileSync] and
    [TypeScriptParser.parseFile] answer for a path, and the clock.
    Nothing relates the tree to the per-path answers: a file may change
    or vanish between discovery and indexing. *)
Record World := mkWorld {
  rootNode : FsNode;
  statSync : string -> result Stats;
  readFileSync : string -> result string;
  parseFile : string -> result ParsedFile;
  now : Z
}.

(** The state of a [CodeIndexer], with what a test observes of it: the
    lines written to the console and the number of calls of the parser. *)
Record Indexer := mkIndexer {
  index : WorkspaceIndex;
  fileWatcher : bool;
  console : list string;
  parseCalls : nat
}.

(** [new CodeIndexer(config)] at time [t]. *)
Definition newIndexer (t : Z) : Indexer :=
  mkIndexer (mkWorkspaceIndex JsMap.empty JsMap.empty t) false [] 0.

Definition logLine (line : string) : M Indexer unit :=
  modify (fun s =>
    mkIndexer (index s) (fileWatcher s) (console s ++ [line]) (parseCalls s)).

Definition setIndex (f : WorkspaceIndex -> WorkspaceIndex) : M Indexer unit :=
  modify (fun s =>
    mkIndexer (f (index s)) (fileWatcher s) (console s) (parseCalls s)).

(** [await this.parser.parseFile(filePath)]: counted, and it may reject. *)
Definition callParser (w : World) (filePath : string) : M Indexer ParsedFile :=
  bind
    (modify (fun s =>
       mkIndexer (index s) (fileWatcher s) (console s) (S (parseCalls s))))
    (fun _ => liftR (parseFile w filePath)).

(* ================================================================== *)
(** ** CodeIndexer: operations ([src/utils/indexer.ts]) *)
(* ================================================================== *)

Local Open Scope monad_scope.

(** [calculateFileHash] *)
Definition calculateFileHash (w : World) (filePath : string)
  : M Indexer string :=
  content <- liftR (readFileSync w filePath) ;;
  stats <- liftR (statSync w filePath) ;;
  ret (string_of_Z (mtime stats) ++ "-"
         ++ string_of_nat (String.length content))%string.

(** [existingIndex && existingIndex.hash === fileHash] *)
Definition sameHash (existingIndex : option FileIndex) (fileHash : string)
  : bool :=
  match existingIndex with
  | Some fi => String.eqb (fi_hash fi) fileHash
  | None => false
  end.

(** [indexFile] *)
Definition indexFile (cfg : IndexerConfig) (w : World) (filePath : string)
  : M Indexer unit :=
  try_catch
    (stats <- liftR (statSync w filePath) ;;
     if (maxFileSize cfg <? size stats)%Z then
       logLine ("Skipping large file: " ++ filePath)%string
     else
       existingIndex <- gets (fun s => JsMap.get filePath (wi_files (index s))) ;;
       fileHash <- calculateFileHash w filePath ;;
       if sameHash existingIndex fileHash then ret tt
       else
         parsedFile <- callParser w filePath ;;
         let fileIndex :=
           mkFileIndex filePath (pf_language parsedFile)
             (pf_elements parsedFile) (mtime stats) fileHash in
         setIndex (fun i =>
           mkWorkspaceIndex
             (JsMap.set filePath fileIndex (wi_files i))
             (JsMap.set filePath (pf_elements parsedFile) (wi_elements i))
             (wi_lastUpdated i)))
    (fun error =>
       logLine ("Error indexing file " ++ filePath ++ ": " ++ error)%string).

(** [removeFile] *)
Definition removeFile (filePath : string) : M Indexer unit :=
  setIndex (fun i =>
    mkWorkspaceIndex
      (JsMap.delete filePath (wi_files i))
      (JsMap.delete filePath (wi_elements i))
      (wi_lastUpdated i)).

(** [getAllElements] *)
Definition getAllElements (s : Indexer) : list CodeElement :=
  fold_left (fun allElements els => allElements ++ els)
    (JsMap.values (wi_elements (index s))) [].

(** [getElementsForFile] *)
Definition getElementsForFile (s : Indexer) (filePath : string)
  : list CodeElement :=
  match JsMap.get filePath (wi_elements (index s)) with
  | Some els => els
  | None => []
  end.

Record Statistics := mkStatistics {
  totalFiles : nat;
  totalElements : nat;
  elementsByLanguage : JsMap.t nat;
  st_lastUpdated : Z
}.

(** One iteration of the loop of [getStatistics]; the loop state is
    [(totalElements, elementsByLanguage)]. *)
Definition statisticsStep (acc : nat * JsMap.t nat) (fileIndex : FileIndex)
  : nat * JsMap.t nat :=
  let '(total, byLanguage) := acc in
  let count := List.length (fi_elements fileIndex) in
  (total + count,
   JsMap.set (fi_language fileIndex)
     (match JsMap.get (fi_language fileIndex) byLanguage with
      | Some n => n
      | None => 0
      end + count)
     byLanguage)%nat.

(** [getStatistics] *)
Definition getStatistics (s : Indexer) : Statistics :=
  let '(total, byLanguage) :=
    fold_left statisticsStep (JsMap.values (wi_files (index s)))
      (0%nat, JsMap.empty) in
  mkStatistics (JsMap.size (wi_files (index s))) total byLanguage
    (wi_lastUpdated (index s)).

(** The local state of [findCodeFiles]: the array [files] and the
    console. *)
Record Discovery := mkDiscovery {
  found : list string;
  dconsole : list string
}.

Definition pushFile (p : string) : M Discovery unit :=
  modify (fun d => mkDiscovery (found d ++ [p]) (dconsole d)).

Definition logDiscovery (line : string) : M Discovery unit :=
  modify (fun d => mkDiscovery (found d) (dconsole d ++ [line])).

Definition supportedExtensions : list string :=
  [".ts"; ".tsx"; ".js"; ".jsx"; ".py"].

Definition defaultExcludedDirectories : list string :=
  ["node_modules"; ".git"; ".vscode"; "dist"; "build"; "out"; "coverage";
   ".nyc_output"].

Definition defaultExcludedFiles : list string :=
  ["*.min.js"; "*.d.ts"; "*.test.ts"; "*.spec.ts"; "*.test.js"; "*.spec.js"].

(** [shouldExcludeDirectory] *)
Definition shouldExcludeDirectory (H : Host) (cfg : IndexerConfig)
    (dirPath : string) : result bool :=
  let dirName := path_basename H dirPath in
  someR
    (fun pattern =>
       if includes pattern "*"
       then regexpTest H (replaceAll "*"%char ".*" pattern) dirPath
       else Ok (String.eqb dirName pattern || includes dirPath pattern))
    (defaultExcludedDirectories ++ excludePatterns cfg).

(** [shouldExcludeFile] *)
Definition shouldExcludeFile (H : Host) (cfg : IndexerConfig)
    (filePath : string) : result bool :=
  let fileName := path_basename H filePath in
  someR
    (fun pattern =>
       if includes pattern "*"
       then regexpTest H (replaceAll "*"%char ".*" pattern) fileName
       else Ok (String.eqb fileName pattern))
    (defaultExcludedFiles ++ excludePatterns cfg).

(** The closure [traverse] of [findCodeFiles], at directory [dir] where
    discovery sees [node], and its loop over the entries of a listing.
    [readdirSync] throws at anything that is not a listable directory. *)
Fixpoint traverse (H : Host) (cfg : IndexerConfig) (dir : string)
    (node : FsNode) {struct node} : M Discovery unit :=
  try_catch
    (match node with
     | FsDir items => traverseItems H cfg dir items
     | FsDirError e => throw e
     | FsStatError e => throw e
     | FsFile | FsOther => throw "ENOTDIR: not a directory"
     end)
    (fun error =>
       logDiscovery
         ("Error traversing directory " ++ dir ++ ": " ++ error)%string)
with traverseItems (H : Host) (cfg : IndexerConfig) (dir : string)
    (items : FsItems) {struct items} : M Discovery unit :=
  match items with
  | FsNil => ret tt
  | FsCons item node rest =>
      let itemPath := path_join H dir item in
      (match node with
       | FsStatError e => throw e
       | FsDir _ | FsDirError _ =>
           excluded <- liftR (shouldExcludeDirectory H cfg itemPath) ;;
           if excluded then ret tt else traverse H cfg itemPath node
       | FsFile =>
           let ext := toLowerCase (path_extname H item) in
           if str_mem ext supportedExtensions then
             excluded <- liftR (shouldExcludeFile H cfg itemPath) ;;
             if excluded then ret tt else pushFile itemPath
           else ret tt
       | FsOther => ret tt
       end) ;;;
      traverseItems H cfg dir rest
  end.

(** [findCodeFiles] *)
Definition findCodeFiles (H : Host) (cfg : IndexerConfig) (w : World)
    (rootPath : string) : M Indexer (list string) :=
  fun s =>
    let '(out, d) :=
      traverse H cfg rootPath (rootNode w) (mkDiscovery [] (console s)) in
    let s' := mkIndexer (index s) (fileWatcher s) (dconsole d)
                (parseCalls s) in
    match out with
    | Returned _ => (Returned (found d), s')
    | Thrown e => (Thrown e, s')
    end.

(** [setupFileWatcher]: afterwards a watcher of the editor is installed.
    The editor's calls are taken not to throw. *)
Definition setupFileWatcher : M Indexer unit :=
  modify (fun s => mkIndexer (index s) true (console s) (parseCalls s)).

(** [indexWorkspace]; [rootPath] is [workspaceFolder.uri.fsPath]. *)
Definition indexWorkspace (H : Host) (cfg : IndexerConfig) (w : World)
    (rootPath : string) : M Indexer unit :=
  files <- findCodeFiles H cfg w rootPath ;;
  forEachM (indexFile cfg w) files ;;;
  (if watchFiles cfg then setupFileWatcher else ret tt) ;;;
  setIndex (fun i =>
    mkWorkspaceIndex (wi_files i) (wi_elements i) (now w)).

Local Close Scope monad_scope.

(* ================================================================== *)
(** ** The scoring rule as the specification words it *)
(* ================================================================== *)

Local Open Scope Q_scope.

(** nameMatchScore: 1.5 for an exact match, 1.2 for a prefix match, 0.8
    for a suffix match, 0.6 for plain containment. *)
Definition spec_nameMatchScore (elementName keyword : string) : Q :=
  if String.eqb elementName keyword then 1.5
  else if startsWith elementName keyword then 1.2
  else if endsWith elementName keyword then 0.8
  else 0.6.

(** The contribution of one keyword: that of the first field, in the
    order name, signature, description, that contains it. *)
Definition spec_contribution (caseSensitive : bool) (e : CodeElement)
    (keyword : string) : Q :=
  let k := normalize caseSensitive keyword in
  if includes (normalize caseSensitive (name e)) k then
    1.5 * spec_nameMatchScore (normalize caseSensitive (name e)) k
  else if includes (normalize caseSensitive (orEmpty (signature e))) k then
    0.6
  else if includes (normalize caseSensitive (orEmpty (description e))) k then
    0.3
  else 0.

(** A keyword is found when one of the three fields contains it. *)
Definition spec_found (caseSensitive : bool) (e : CodeElement)
    (keyword : string) : bool :=
  let k := normalize caseSensitive keyword in
  includes (normalize caseSensitive (name e)) k
  || includes (normalize caseSensitive (orEmpty (signature e))) k
  || includes (normalize caseSensitive (orEmpty (description e))) k.

(** The base score: the sum of the contributions. *)
Fixpoint spec_baseScore (caseSensitive : bool) (e : CodeElement)
    (kws : list string) : Q :=
  match kws with
  | [] => 0
  | k :: r => spec_contribution caseSensitive e k
              + spec_baseScore caseSensitive e r
  end.

(** The number of keywords found. *)
Definition spec_matchedCount (caseSensitive : bool) (e : CodeElement)
    (kws : list string) : nat :=
  List.length (filter (spec_found caseSensitive e) kws).

(** completeness = matched keyword count / total keyword count. *)
Definition spec_completeness (caseSensitive : bool) (e : CodeElement)
    (kws : list string) : Q :=
  Q_of_nat (spec_matchedCount caseSensitive e kws)
  / Q_of_nat (List.length kws).

(** The intent bonus: 0.2 for a function under FIND_FUNCTIONS, 0.1 for a
    member of the requested kind set. *)
Definition spec_intentBonus (e : CodeElement) (query : SearchQuery) : Q :=
  if QueryIntent_eqb (intent query) FIND_FUNCTIONS
     && ElementType_eqb (type e) FUNCTION
  then 0.2
  else if type_mem (type e) (elementTypes query) then 0.1
  else 0.

(** base × completeness², plus the intent bonus, divided by
    keywordCount × 1.5 × 1.5 + 0.2, clamped to at most 1.0. *)
Definition spec_finalScore (e : CodeElement) (query : SearchQuery)
    (caseSensitive : bool) : Q :=
  let kws := uniq (keywords query) in
  let c := spec_completeness caseSensitive e kws in
  Qmin
    ((spec_baseScore caseSensitive e kws * (c * c) + spec_intentBonus e query)
     / (Q_of_nat (List.length kws) * 1.5 * 1.5 + 0.2))
    1.0.

(** The cases in which [calculateScore] returns before the formula: no
    keyword matched (in particular no keyword at all), or several
    keywords of which fewer than half matched. *)
Definition cutOff (e : CodeElement) (query : SearchQuery)
    (caseSensitive : bool) : bool :=
  let kws := uniq (keywords query) in
  (spec_matchedCount caseSensitive e kws =? 0)%nat
  || ((1 <? List.length kws)%nat
      && Qlt_bool (spec_completeness caseSensitive e kws) 0.5).

(** The target kind set of each intent, as the specification tables it
    (it has no row for FIND_METHODS). *)
Definition spec_targetKinds (i : QueryIntent) : option (list ElementType) :=
  match i with
  | FIND_FUNCTIONS => Some [FUNCTION; METHOD]
  | FIND_CLASSES => Some [CLASS]
  | FIND_VARIABLES => Some [VARIABLE; PROPERTY]
  | FIND_INTERFACES => Some [INTERFACE]
  | FIND_TYPES => Some [TYPE; INTERFACE]
  | FIND_ALL =>
      Some [FUNCTION; CLASS; METHOD; VARIABLE; PROPERTY; INTERFACE; TYPE]
  | FIND_METHODS => None
  end.

(* ================================================================== *)
(** ** Sequences of index operations *)
(* ================================================================== *)

(** A call of [indexFile], with the world it runs in, or of
    [removeFile]. *)
Inductive Op :=
| OpIndexFile (w : World) (filePath : string)
| OpRemoveFile (filePath : string).

Definition runOp (cfg : IndexerConfig) (op : Op) : M Indexer unit :=
  match op with
  | OpIndexFile w filePath => indexFile cfg w filePath
  | OpRemoveFile filePath => removeFile filePath
  end.

(** The state after the calls [ops], made one after the other. *)
Fixpoint runOps (cfg : IndexerConfig) (ops : list Op) (s : Indexer)
  : Indexer :=
  match ops with
  | [] => s
  | op :: rest => runOps cfg rest (snd (runOp cfg op s))
  end.

(** The workspace root does not exist or cannot be listed:
    [readdirSync] of it throws. *)
Definition rootUnreadable (w : World) : bool :=
  match rootNode w with
  | FsDir _ => false
  | _ => true
  end.

(** The state [s] with one more line on the console. *)
Definition logged (s : Indexer) (line : string) : Indexer :=
  mkIndexer (index s) (fileWatcher s) (console s ++ [line]) (parseCalls s).

(** The fingerprint of a file: modification time and content length. *)
Definition fingerprint (stats : Stats) (content : string) : string :=
  (string_of_Z (mtime stats) ++ "-"
     ++ string_of_nat (String.length content))%string.

(** The state after a successful parse has been stored. *)
Definition stored (s : Indexer) (filePath : string) (stats : Stats)
    (fileHash : string) (parsedFile : ParsedFile) : Indexer :=
  mkIndexer
    (mkWorkspaceIndex
       (JsMap.set filePath
          (mkFileIndex filePath (pf_language parsedFile)
             (pf_elements parsedFile) (mtime stats) fileHash)
          (wi_files (index s)))
       (JsMap.set filePath (pf_elements parsedFile)
          (wi_elements (index s)))
       (wi_lastUpdated (index s)))
    (fileWatcher s) (console s) (S (parseCalls s)).

(** The state after a call of the parser that threw. *)
Definition parseFailed (s : Indexer) (line : string) : Indexer :=
  mkIndexer (index s) (fileWatcher s) (console s ++ [line])
    (S (parseCalls s)).

Definition indexError (filePath error : string) : string :=
  ("Error indexing file " ++ filePath ++ ": " ++ error)%string.

(** The declaration map is the FileRecord map with every record replaced
    by its declaration list. *)
Definition synced (i : WorkspaceIndex) : Prop :=
  wi_elements i = JsMap.mapValues fi_elements (wi_files i).

(* ================================================================== *)
(** ** Sample data *)
(* ================================================================== *)

Definition sampleElement (n : string) (t : ElementType)
    (sg ds : option string) : CodeElement :=
  mkCodeElement n t sg ds "/ws/src/mail.ts" 1 1 1 1 None None None None.

Definition sendEmailFn : CodeElement :=
  sampleElement "sendEmail" FUNCTION (Some "sendEmail(to: string): void") None.

Definition parseDateFn : CodeElement :=
  sampleElement "parseDate" FUNCTION None None.

Definition emailFn : CodeElement :=
  sampleElement "email" FUNCTION None None.

Definition notifyMethod : CodeElement :=
  sampleElement "notify" METHOD None (Some "sends an email").

Definition sampleElements : list CodeElement :=
  [sendEmailFn; notifyMethod; parseDateFn; emailFn].

Definition emailQuery (kws : list string) : SearchQuery :=
  mkSearchQuery "" FIND_FUNCTIONS kws [FUNCTION; METHOD] None.

Definition noOptions : SearchOptions :=
  mkSearchOptions None None None None None None.

(** [{ maxResults: -1 }] *)
Definition negativeMaxOptions : SearchOptions :=
  mkSearchOptions (Some (-1)%Z) None None None None None.

(** [{ threshold: 0 }] *)
Definition zeroThresholdOptions : SearchOptions :=
  mkSearchOptions None (Some 0) None None None None.

Definition sampleConfig : IndexerConfig :=
  mkIndexerConfig 1048576 [] [] false 10000.

Definition mailPath : string := "/ws/src/mail.ts".

(** A world with one readable file of five characters under the root. *)
Definition sampleWorld : World :=
  mkWorld (FsDir (FsCons "mail.ts" FsFile FsNil))
    (fun _ => Ok (mkStats 5 1000))
    (fun _ => Ok "hello"%string)
    (fun p => Ok (mkParsedFile p "typescript" [sendEmailFn] [] [] []))
    2000.

(** The same world after the file has become unreadable. *)
Definition brokenWorld : World :=
  mkWorld (FsDir (FsCons "mail.ts" FsFile FsNil))
    (fun _ => Err "EACCES: permission denied"%string)
    (fun _ => Err "EACCES: permission denied"%string)
    (fun _ => Err "EACCES: permission denied"%string)
    3000.

(** A world whose workspace root does not exist. *)
Definition missingRootWorld : World :=
  mkWorld (FsStatError "ENOENT: no such file or directory")
    (fun _ => Err "ENOENT: no such file or directory"%string)
    (fun _ => Err "ENOENT: no such file or directory"%string)
    (fun _ => Err "ENOENT: no such file or directory"%string)
    4000.

(** The indexer after [indexFile] of the sample file. *)
Definition indexedOnce : Indexer :=
  snd (indexFile sampleConfig sampleWorld mailPath (newIndexer 0)).

(** A host whose regular expressions match nothing and whose [path]
    functions are the simplest ones. *)
Definition sampleHost : Host :=
  mkHost (fun _ _ => Ok false)
    (fun dir item => (dir ++ "/" ++ item)%string)
    (fun p => p) (fun _ => ".ts"%string).

(* ================================================================== *)
(** ** SearchEngine: statistics ([src/core/searchEngine.ts]) *)
(* ================================================================== *)

(** The string value of each [ElementType] member. *)
Definition ElementType_value (t : ElementType) : string :=
  match t with
  | FUNCTION => "function"
  | CLASS => "class"
  | METHOD => "method"
  | PROPERTY => "property"
  | VARIABLE => "variable"
  | INTERFACE => "interface"
  | TYPE => "type"
  | ENUM => "enum"
  | NAMESPACE => "namespace"
  end.

(** [set.add(x)] on a [Set] of strings, kept in insertion order. *)
Definition setAdd (x : string) (l : list string) : list string :=
  if str_mem x l then l else l ++ [x].

Record EngineStatistics := mkEngineStatistics {
  es_totalElements : nat;
  es_elementsByType : JsMap.t nat;
  es_fileCount : nat
}.

(** One iteration of the loop of [SearchEngine.getStatistics]; the loop
    state is [(elementsByType, files)]. *)
Definition engineStatisticsStep (acc : JsMap.t nat * list string)
    (e : CodeElement) : JsMap.t nat * list string :=
  let '(byType, files) := acc in
  (JsMap.set (ElementType_value (type e))
     (match JsMap.get (ElementType_value (type e)) byType with
      | Some n => n
      | None => 0
      end + 1)%nat
     byType,
   setAdd (filePath e) files).

(** [SearchEngine.getStatistics]; [elements] is [this.elements]. *)
Definition engineStatistics (elements : list CodeElement)
  : EngineStatistics :=
  let '(byType, files) :=
    fold_left engineStatisticsStep elements (JsMap.empty, []) in
  mkEngineStatistics (List.length elements) byType (List.length files).

(* ================================================================== *)
(** ** QueryParser: suggestions *)
(* ================================================================== *)

Definition allKeywords : list string :=
  FUNCTION_KEYWORDS ++ CLASS_KEYWORDS ++ VARIABLE_KEYWORDS
    ++ ACTION_KEYWORDS ++ DOMAIN_KEYWORDS.

(** [words[words.length - 1] || ''] *)
Definition lastWordOf (words : list string) : string :=
  last words EmptyString.

(** [getSuggestions] *)
Definition getSuggestions (partialQuery : string) : list string :=
  let words := tokenize (toLowerCase partialQuery) in
  let lastWord := lastWordOf words in
  firstn 10
    (filter
       (fun keyword =>
          startsWith keyword lastWord && negb (String.eqb keyword lastWord))
       allKeywords).

(* ================================================================== *)
(** ** CodeIndexer: the remaining accessors *)
(* ================================================================== *)

(** [getFileIndex] *)
Definition getFileIndex (s : Indexer) (filePath : string)
  : option FileIndex :=
  JsMap.get filePath (wi_files (index s)).

(** [getWorkspaceIndex] *)
Definition getWorkspaceIndex (s : Indexer) : WorkspaceIndex := index s.

(* ================================================================== *)
(** ** Auxiliary notions for the statements about ranking *)
(* ================================================================== *)

(** The field in which the scorer finds a keyword: 3 for the name, 2 for
    the signature, 1 for the description, 0 when it finds it nowhere. *)
Definition matchField (caseSensitive : bool) (e : CodeElement)
    (keyword : string) : nat :=
  let k := normalize caseSensitive keyword in
  if includes (normalize caseSensitive (name e)) k then 3
  else if includes (normalize caseSensitive (orEmpty (signature e))) k then 2
  else if includes (normalize caseSensitive (orEmpty (description e))) k
  then 1
  else 0.

(** The declaration with its name, signature and description in lower
    case. *)
Definition lowerCased (e : CodeElement) : CodeElement :=
  mkCodeElement (toLowerCase (name e)) (type e)
    (option_map toLowerCase (signature e))
    (option_map toLowerCase (description e))
    (filePath e) (startLine e) (endLine e) (startColumn e) (endColumn e)
    (parameters e) (returnType e) (modifiers e) (context e).

(** The number of elements of a kind. *)
Definition countOfType (t : ElementType) (els : list CodeElement) : nat :=
  List.length (filter (fun e => ElementType_eqb (type e) t) els).

(** Every character of the text satisfies [p]. *)
Fixpoint allChars (p : ascii -> bool) (s : string) : bool :=
  match s with
  | EmptyString => true
  | String c r => p c && allChars p r
  end.

(** A word of one of the three category vocabularies. *)
Definition isCategoryWord (word : string) : bool :=
  str_mem word FUNCTION_KEYWORDS
  || str_mem word CLASS_KEYWORDS
  || str_mem word VARIABLE_KEYWORDS.

(** The character is not the dash that separates the two parts of a
    fingerprint. *)
Definition notDash (c : ascii) : bool := negb (Ascii.eqb c "-"%char).

(** The number of declarations indexed under a language tag. *)
Definition countOfLanguage (lang : string) (records : list FileIndex) : nat :=
  list_sum
    (map (fun fi => List.length (fi_elements fi))
       (filter (fun fi => String.eqb (fi_language fi) lang) records)).

(** A listing followed by another. *)
Fixpoint itemsApp (a b : FsItems) : FsItems :=
  match a with
  | FsNil => b
  | FsCons item node rest => FsCons item node (itemsApp rest b)
  end.

(** What [findCodeFiles] lets into its result: the path of an entry
    whose extension is supported and which [shouldExcludeFile] does not
    exclude. *)
Definition discoverable (H : Host) (cfg : IndexerConfig) (p : string)
  : Prop :=
  exists dir item,
    p = path_join H dir item
    /\ str_mem (toLowerCase (path_extname H item)) supportedExtensions = true
    /\ shouldExcludeFile H cfg p = Ok false.

(** The paths already found stay, and what is added is discoverable. *)
Definition foundGrowsBy (H : Host) (cfg : IndexerConfig) (d d' : Discovery)
  : Prop :=
  exists added,
    found d' = found d ++ added /\ Forall (discoverable H cfg) added.

Scheme FsNode_mut_ind := Induction for FsNode Sort Prop
  with FsItems_mut_ind := Induction for FsItems Sort Prop.

(* ================================================================== *)
(** ** The earlier SearchEngine (the additive scoring variant) *)
(* ================================================================== *)

Module Legacy.

Local Open Scope Q_scope.

(** [getNameMatchScore] *)
Definition getNameMatchScore (elementName keyword : string) : Q :=
  if String.eqb elementName keyword then 1.0
  else if startsWith elementName keyword then 0.8
  else if endsWith elementName keyword then 0.6
  else if includes elementName keyword then 0.4
  else 0.

(** [getTypeMatchScore] *)
Definition getTypeMatchScore (elementType : ElementType)
    (queryTypes : list ElementType) : Q :=
  if type_mem elementType queryTypes then 0.2 else 0.

Definition actionKeywords : list string :=
  ["handle"; "process"; "manage"; "deal"; "send"; "receive";
   "create"; "delete"; "update"; "get"; "set"; "validate";
   "authenticate"; "authorize"; "connect"; "parse"; "format";
   "calculate"; "compute"; "render"; "display"; "show"]%string.

Definition domainKeywords : list string :=
  ["database"; "auth"; "user"; "email"; "file"; "api";
   "validation"; "error"; "config"; "log"; "test"; "service"]%string.

(** [element.description?.toLowerCase().includes(keyword)] *)
Definition descriptionIncludes (e : CodeElement) (keyword : string) : bool :=
  match description e with
  | Some d => includes (toLowerCase d) keyword
  | None => false
  end.

(** One iteration of the keyword loop of [getSemanticScore]. *)
Definition semanticStep (e : CodeElement) (sc : Q) (keyword : string) : Q :=
  let sc1 :=
    if str_mem keyword actionKeywords
       && includes (toLowerCase (name e)) keyword
    then sc + 0.3 else sc in
  if str_mem keyword domainKeywords
     && (includes (toLowerCase (name e)) keyword
         || descriptionIncludes e keyword)
  then sc1 + 0.2 else sc1.

(** [getSemanticScore] *)
Definition getSemanticScore (e : CodeElement) (query : SearchQuery) : Q :=
  let sc := fold_left (semanticStep e) (keywords query) 0 in
  if (ElementType_eqb (type e) FUNCTION || ElementType_eqb (type e) METHOD)
     && existsb (fun k => includes (toLowerCase (name e)) k) (keywords query)
  then sc + 0.1 else sc.

(** One iteration of the loop over the parameters, for one keyword. *)
Definition paramStep (caseSensitive : bool) (normalizedKeyword : string)
    (sc : Q) (param : Param) : Q :=
  let sc1 :=
    if includes (normalize caseSensitive (param_name param))
         normalizedKeyword
    then sc + 0.2 else sc in
  if truthy (param_type param)
     && includes (normalize caseSensitive (orEmpty (param_type param)))
          normalizedKeyword
  then sc1 + 0.15 else sc1.

(** One iteration of the keyword loop of [calculateScore]. *)
Definition scoreStep (caseSensitive : bool) (e : CodeElement) (sc : Q)
    (keyword : string) : Q :=
  let normalizedKeyword := normalize caseSensitive keyword in
  let elementName := normalize caseSensitive (name e) in
  let sc1 :=
    if includes elementName normalizedKeyword
    then sc + getNameMatchScore elementName normalizedKeyword else sc in
  let sc2 :=
    if includes (normalize caseSensitive (orEmpty (description e)))
         normalizedKeyword
    then sc1 + 0.3 else sc1 in
  let sc3 :=
    if includes (normalize caseSensitive (orEmpty (signature e)))
         normalizedKeyword
    then sc2 + 0.4 else sc2 in
  let sc4 :=
    if includes (normalize caseSensitive (orEmpty (context e)))
         normalizedKeyword
    then sc3 + 0.1 else sc3 in
  match parameters e with
  | Some ps => fold_left (paramStep caseSensitive normalizedKeyword) ps sc4
  | None => sc4
  end.

(** [calculateScore] *)
Definition calculateScore (e : CodeElement) (query : SearchQuery)
    (caseSensitive : bool) : Q :=
  let sc := fold_left (scoreStep caseSensitive e) (keywords query) 0 in
  let sc := sc + getTypeMatchScore (type e) (elementTypes query) in
  let sc := sc + getSemanticScore e query in
  Qmin sc 1.0.

(** [getMatchedKeywords] *)
Definition getMatchedKeywords (e : CodeElement) (kws : list string)
    (caseSensitive : bool) : list string :=
  let searchableText :=
    join " "
      (name e :: orEmpty (description e) :: orEmpty (signature e)
       :: orEmpty (context e)
       :: match parameters e with
          | Some ps => map param_name ps
          | None => []
          end) in
  let normalizedSearchable := normalize caseSensitive searchableText in
  filter
    (fun keyword =>
       includes normalizedSearchable (normalize caseSensitive keyword))
    kws.

(** [getRelevanceReason] *)
Definition getRelevanceReason (e : CodeElement) (query : SearchQuery)
    (matched : list string) : string :=
  let reasons :=
    (if (0 <? List.length matched)%nat
     then [("Matches keywords: " ++ join ", " matched)%string] else [])
      ++ (if type_mem (type e) (elementTypes query)
          then [("Matches requested type: "
                   ++ ElementType_value (type e))%string]
          else [])
      ++ (if includes (toLowerCase (name e)) (toLowerCase (text query))
          then ["Name contains query text"%string] else [])
      ++ (if truthy (description e)
             && includes (toLowerCase (orEmpty (description e)))
                  (toLowerCase (text query))
          then ["Description contains query text"%string] else []) in
  match reasons with
  | [] => "General relevance match"%string
  | _ => join "; " reasons
  end.

(** [generateSnippet] *)
Definition generateSnippet (e : CodeElement) : string :=
  let typed :=
    (name e ++ ": "
       ++ (if truthy (returnType e) then orEmpty (returnType e)
           else "any"))%string in
  let lines :=
    (if truthy (description e)
     then [("// " ++ orEmpty (description e))%string] else [])
      ++ [match type e with
          | FUNCTION =>
              if truthy (signature e) then orEmpty (signature e)
              else ("function " ++ name e ++ "()")%string
          | CLASS => ("class " ++ name e)%string
          | METHOD =>
              if truthy (signature e) then orEmpty (signature e)
              else (name e ++ "()")%string
          | PROPERTY => typed
          | VARIABLE => typed
          | INTERFACE => ("interface " ++ name e)%string
          | TYPE => ("type " ++ name e)%string
          | ENUM => ("enum " ++ name e)%string
          | NAMESPACE => name e
          end] in
  join (String "010"%char EmptyString) lines.

(** The scoring loop of [search]. *)
Fixpoint collectResults (query : SearchQuery) (thresholdV : Q)
    (includeSnippetsV caseSensitiveV : bool) (els : list CodeElement)
  : list SearchResult :=
  match els with
  | [] => []
  | e :: rest =>
      let scoreV := calculateScore e query caseSensitiveV in
      let tail := collectResults query thresholdV includeSnippetsV
                    caseSensitiveV rest in
      if Qle_bool thresholdV scoreV then
        let snippetV := if includeSnippetsV then generateSnippet e
                        else EmptyString in
        let matchedV := getMatchedKeywords e (keywords query)
                          caseSensitiveV in
        mkSearchResult e scoreV snippetV matchedV
          (getRelevanceReason e query matchedV) :: tail
      else tail
  end.

(** [search]: the same filters, order and truncation as the later
    engine; the default threshold is 0.1. *)
Definition search (H : Host) (elements : list CodeElement)
    (query : SearchQuery) (options : SearchOptions)
  : result (list SearchResult) :=
  let maxResultsV := withDefault 50%Z (maxResults options) in
  let thresholdV := withDefault 0.1 (threshold options) in
  let includeSnippetsV := withDefault true (includeSnippets options) in
  let caseSensitiveV := withDefault false (caseSensitive options) in
  let languagesV := withDefault [] (languages options) in
  let filePatternsV := withDefault [] (filePatterns options) in
  match filterElements H elements query languagesV filePatternsV with
  | Err e => Err e
  | Ok filteredElements =>
      let results := collectResults query thresholdV includeSnippetsV
                       caseSensitiveV filteredElements in
      Ok (slice0 (sortBy byScoreDesc results) maxResultsV)
  end.

End Legacy.

(* ================================================================== *)
(** ** TypeScriptParser *)
(* ================================================================== *)

(** [s.slice(start, end)] on a string: negative indices count from the
    end, and the indices are clamped to the string. *)
Definition clampIndex (len i : Z) : Z :=
  if (i <? 0)%Z then Z.max (len + i) 0 else Z.min i len.

Definition stringSlice (s : string) (start end_ : Z) : string :=
  let len := Z.of_nat (String.length s) in
  let from := clampIndex len start in
  let to := clampIndex len end_ in
  String.substring (Z.to_nat from) (Z.to_nat (to - from)) s.

(** [s.replace(/^\/\*\*?|\*\/$/g, '')]: the opening of a block comment
    at the start of the text and, in what follows it, the closing at the
    end of the text are removed. *)
Definition stripOpening (s : string) : string :=
  match s with
  | String "/" (String "*" (String "*" r)) => r
  | String "/" (String "*" r) => r
  | _ => s
  end.

Fixpoint stripClosing (s : string) : string :=
  match s with
  | String "*" (String "/" EmptyString) => EmptyString
  | String c r => String c (stripClosing r)
  | EmptyString => EmptyString
  end.

Definition stripDelimiters (s : string) : string :=
  stripClosing (stripOpening s).

(** A line terminator of the regular expressions among the code units
    below 256: LF or CR. *)
Definition isLineTerminator (c : ascii) : bool :=
  Ascii.eqb c "010"%char || Ascii.eqb c "013"%char.

(** The white space at the head of the text is followed by a star:
    [/\s*\*/] matches at the head of the text. *)
Fixpoint starAfterSpaces (s : string) : bool :=
  match s with
  | EmptyString => false
  | String c r =>
      if Ascii.eqb c "*"%char then true
      else if isSpace c then starAfterSpaces r
      else false
  end.

(** Where the scan of [/^\s*\*\s?/gm] stands. *)
Inductive StarScan :=
| AtLineStart   (* a match may begin here *)
| InSpaces      (* inside a match, before its star *)
| AfterStar     (* inside a match, after its star *)
| InLine.       (* no match may begin here *)

(** [s.replace(/^\s*\*\s?/gm, '')]: at the start of a line, white space
    (line ends included) followed by a star, and one white space
    character after the star, are removed. *)
Fixpoint stripStars (mode : StarScan) (s : string) : string :=
  match s with
  | EmptyString => EmptyString
  | String c r =>
      let next := if isLineTerminator c then AtLineStart else InLine in
      match mode with
      | AtLineStart =>
          if starAfterSpaces s then
            if Ascii.eqb c "*"%char then stripStars AfterStar r
            else stripStars InSpaces r
          else String c (stripStars next r)
      | InSpaces =>
          if Ascii.eqb c "*"%char then stripStars AfterStar r
          else stripStars InSpaces r
      | AfterStar =>
          if isSpace c then stripStars next r
          else String c (stripStars next r)
      | InLine => String c (stripStars next r)
      end
  end.

(** The cleaning of a comment in [getDescription]. *)
Definition cleanComment (commentText : string) : string :=
  trim (stripStars AtLineStart (stripDelimiters commentText)).

Module TypeScriptParser.

Inductive SyntaxKind :=
| FunctionDeclaration | ClassDeclaration | MethodDeclaration
| PropertyDeclaration | VariableDeclaration | InterfaceDeclaration
| TypeAliasDeclaration | EnumDeclaration | ImportDeclaration
| ExportDeclaration | OtherSyntax.

(** [node.name], as far as the parser reads it. *)
Record NameNode := mkNameNode {
  nn_text : string;          (* name.text *)
  nn_getText : string;       (* name.getText() *)
  nn_isIdentifier : bool     (* ts.isIdentifier(name) *)
}.

(** A parameter declaration, as far as the parser reads it. *)
Record ParameterNode := mkParameterNode {
  pn_getText : string;               (* p.getText() *)
  pn_name : string;                  (* p.name.getText() *)
  pn_type : option string;           (* p.type.getText(), when p.type *)
  pn_questionToken : bool;           (* !!p.questionToken *)
  pn_initializer : option string     (* p.initializer.getText() *)
}.

(** What the compiler answers about a node. *)
Record NodeData := mkNodeData {
  nd_name : option NameNode;
  nd_parameters : list ParameterNode;
  nd_type : option string;             (* node.type.getText() *)
  nd_modifierKinds : list string;      (* ts.SyntaxKind[modifier.kind] *)
  nd_leadingComment : option string;   (* the last leading comment *)
  nd_start : Z;                        (* node.getStart() *)
  nd_end : Z;                          (* node.getEnd() *)
  nd_moduleSpecifier : option string   (* its text, when a string literal *)
}.

(** A syntax tree: a node has a kind, its data and its children, in the
    order of [ts.forEachChild]. *)
Inductive Node :=
| mkNode (kind : SyntaxKind) (data : NodeData) (children : Nodes)
with Nodes :=
| NoNodes
| MoreNodes (first : Node) (others : Nodes).

(** A source file of the compiler. *)
Record SourceFile := mkSourceFile {
  sf_fileName : string;
  sf_text : string;                        (* getText(), getFullText() *)
  sf_end : Z;                              (* getEnd() *)
  sf_lineAndCharacter : Z -> Z * Z;        (* getLineAndCharacterOfPosition *)
  sf_root : Node
}.

(** The options of a parser after the constructor has merged the
    defaults into them. *)
Record Options := mkOptions {
  includeComments : bool;
  includePrivate : bool;
  maxDepth : Z;
  excludePatterns : list string
}.

(** [new TypeScriptParser()] *)
Definition defaultOptions : Options := mkOptions true false 10 [].

(** The four arrays [visitNode] fills. *)
Record Collected := mkCollected {
  c_elements : list CodeElement;
  c_errors : list ParseError;
  c_imports : list string;
  c_exports : list string
}.

Definition pushElement (e : CodeElement) (c : Collected) : Collected :=
  mkCollected (c_elements c ++ [e]) (c_errors c) (c_imports c) (c_exports c).

(** [getPosition] *)
Definition getPosition (sf : SourceFile) (d : NodeData) : Z * Z * Z * Z :=
  let '(startLine0, startChar0) := sf_lineAndCharacter sf (nd_start d) in
  let '(endLine0, endChar0) := sf_lineAndCharacter sf (nd_end d) in
  ((startLine0 + 1)%Z, (endLine0 + 1)%Z, (startChar0 + 1)%Z,
   (endChar0 + 1)%Z).

(** [extractParameters] *)
Definition extractParameters (ps : list ParameterNode) : list Param :=
  map (fun p => mkParam (pn_name p) (pn_type p) (Some (pn_questionToken p))
                  (pn_initializer p)) ps.

(** [getReturnType] *)
Definition getReturnType (d : NodeData) : option string := nd_type d.

(** [getModifiers] *)
Definition getModifiers (d : NodeData) : list string :=
  map toLowerCase (nd_modifierKinds d).

(** [getDescription] *)
Definition getDescription (o : Options) (d : NodeData) : option string :=
  if includeComments o then option_map cleanComment (nd_leadingComment d)
  else None.

Definition returnSuffix (d : NodeData) : string :=
  match nd_type d with
  | Some t => (": " ++ t)%string
  | None => EmptyString
  end.

(** [getFunctionSignature] *)
Definition getFunctionSignature (d : NodeData) : string :=
  let nameV := match nd_name d with
               | Some n => nn_text n
               | None => EmptyString
               end in
  let params := join ", " (map pn_getText (nd_parameters d)) in
  ("function " ++ nameV ++ "(" ++ params ++ ")" ++ returnSuffix d)%string.

(** [getMethodSignature] *)
Definition getMethodSignature (d : NodeData) : string :=
  let nameV := match nd_name d with
               | Some n => nn_getText n
               | None => EmptyString
               end in
  let params := join ", " (map pn_getText (nd_parameters d)) in
  (nameV ++ "(" ++ params ++ ")" ++ returnSuffix d)%string.

(** [getContext] *)
Definition getContext (sf : SourceFile) (d : NodeData) : string :=
  let start := Z.max 0 (nd_start d - 100) in
  let end_ := Z.min (sf_end sf) (nd_end d + 100) in
  stringSlice (sf_text sf) start end_.

(** [!this.options.includePrivate && modifiers.includes('private')] *)
Definition droppedAsPrivate (o : Options) (d : NodeData) : bool :=
  negb (includePrivate o) && str_mem "private" (getModifiers d).

(** The element a declaration is recorded as.  [sig], [params], [ret]
    and [mods] are the optional fields of the kind at hand. *)
Definition declared (o : Options) (sf : SourceFile) (d : NodeData)
    (nameV : string) (t : ElementType) (sig : option string)
    (params : option (list Param)) (ret : option string)
    (mods : option (list string)) : CodeElement :=
  let '(startLineV, endLineV, startColumnV, endColumnV) :=
    getPosition sf d in
  mkCodeElement nameV t sig (getDescription o d) (sf_fileName sf)
    startLineV endLineV startColumnV endColumnV params ret mods
    (Some (getContext sf d)).

(** The name of a node whose kind always has one. *)
Definition nameText (d : NodeData) : string :=
  match nd_name d with
  | Some n => nn_text n
  | None => EmptyString
  end.

(** [processFunctionDeclaration] *)
Definition processFunctionDeclaration (o : Options) (sf : SourceFile)
    (d : NodeData) (c : Collected) : Collected :=
  match nd_name d with
  | None => c
  | Some n =>
      if droppedAsPrivate o d then c
      else pushElement
             (declared o sf d (nn_text n) FUNCTION
                (Some (getFunctionSignature d))
                (Some (extractParameters (nd_parameters d)))
                (getReturnType d) (Some (getModifiers d))) c
  end.

(** [processClassDeclaration] *)
Definition processClassDeclaration (o : Options) (sf : SourceFile)
    (d : NodeData) (c : Collected) : Collected :=
  match nd_name d with
  | None => c
  | Some n =>
      if droppedAsPrivate o d then c
      else pushElement
             (declared o sf d (nn_text n) CLASS None None None
                (Some (getModifiers d))) c
  end.

(** [!node.name || !ts.isIdentifier(node.name)] *)
Definition identifierName (d : NodeData) : option NameNode :=
  match nd_name d with
  | Some n => if nn_isIdentifier n then Some n else None
  | None => None
  end.

(** [processMethodDeclaration] *)
Definition processMethodDeclaration (o : Options) (sf : SourceFile)
    (d : NodeData) (c : Collected) : Collected :=
  match identifierName d with
  | None => c
  | Some n =>
      if droppedAsPrivate o d then c
      else pushElement
             (declared o sf d (nn_text n) METHOD
                (Some (getMethodSignature d))
                (Some (extractParameters (nd_parameters d)))
                (getReturnType d) (Some (getModifiers d))) c
  end.

(** [processPropertyDeclaration] *)
Definition processPropertyDeclaration (o : Options) (sf : SourceFile)
    (d : NodeData) (c : Collected) : Collected :=
  match identifierName d with
  | None => c
  | Some n =>
      if droppedAsPrivate o d then c
      else pushElement
             (declared o sf d (nn_text n) PROPERTY None None (nd_type d)
                (Some (getModifiers d))) c
  end.

(** [processVariableDeclaration] *)
Definition processVariableDeclaration (o : Options) (sf : SourceFile)
    (d : NodeData) (c : Collected) : Collected :=
  match identifierName d with
  | None => c
  | Some n =>
      pushElement
        (declared o sf d (nn_text n) VARIABLE None None (nd_type d) None) c
  end.

(** [processInterfaceDeclaration], [processTypeAliasDeclaration] and
    [processEnumDeclaration], which differ in the kind recorded. *)
Definition processNamedDeclaration (t : ElementType) (o : Options)
    (sf : SourceFile) (d : NodeData) (c : Collected) : Collected :=
  pushElement
    (declared o sf d (nameText d) t None None None (Some (getModifiers d)))
    c.

(** [processImportDeclaration] *)
Definition processImportDeclaration (d : NodeData) (c : Collected)
  : Collected :=
  match nd_moduleSpecifier d with
  | Some m =>
      mkCollected (c_elements c) (c_errors c) (c_imports c ++ [m])
        (c_exports c)
  | None => c
  end.

(** [processExportDeclaration] *)
Definition processExportDeclaration (d : NodeData) (c : Collected)
  : Collected :=
  match nd_moduleSpecifier d with
  | Some m =>
      mkCollected (c_elements c) (c_errors c) (c_imports c)
        (c_exports c ++ [m])
  | None => c
  end.

(** The [switch] of [visitNode]. *)
Definition processNode (o : Options) (sf : SourceFile) (k : SyntaxKind)
    (d : NodeData) (c : Collected) : Collected :=
  match k with
  | FunctionDeclaration => processFunctionDeclaration o sf d c
  | ClassDeclaration => processClassDeclaration o sf d c
  | MethodDeclaration => processMethodDeclaration o sf d c
  | PropertyDeclaration => processPropertyDeclaration o sf d c
  | VariableDeclaration => processVariableDeclaration o sf d c
  | InterfaceDeclaration => processNamedDeclaration INTERFACE o sf d c
  | TypeAliasDeclaration => processNamedDeclaration TYPE o sf d c
  | EnumDeclaration => processNamedDeclaration ENUM o sf d c
  | ImportDeclaration => processImportDeclaration d c
  | ExportDeclaration => processExportDeclaration d c
  | OtherSyntax => c
  end.

(** [this.options.maxDepth || 10] *)
Definition depthLimit (o : Options) : Z :=
  if (maxDepth o =? 0)%Z then 10%Z else maxDepth o.

(** [visitNode], and its [ts.forEachChild] over the children. *)
Fixpoint visitNode (o : Options) (sf : SourceFile) (node : Node)
    (depth : Z) (c : Collected) {struct node} : Collected :=
  if (depthLimit o <? depth)%Z then c
  else
    match node with
    | mkNode k d children =>
        visitNodes o sf children (depth + 1)%Z (processNode o sf k d c)
    end
with visitNodes (o : Options) (sf : SourceFile) (nodes : Nodes)
    (depth : Z) (c : Collected) {struct nodes} : Collected :=
  match nodes with
  | NoNodes => c
  | MoreNodes first others =>
      visitNodes o sf others depth (visitNode o sf first depth c)
  end.

(** [getLanguage] *)
Definition getLanguage (H : Host) (filePath : string) : string :=
  let ext := toLowerCase (path_extname H filePath) in
  if String.eqb ext ".ts" || String.eqb ext ".tsx"
  then Language_value TYPESCRIPT else Language_value JAVASCRIPT.

(** [parseFile]; [createSourceFile] is [ts.createSourceFile], taken not
    to throw, [content] what [readFileSync] answers. *)
Definition parseFile (H : Host) (o : Options)
    (createSourceFile : string -> string -> SourceFile)
    (readFile : string -> result string) (filePath : string)
  : result ParsedFile :=
  match readFile filePath with
  | Err e => Err e
  | Ok content =>
      let sourceFile := createSourceFile filePath content in
      let c := visitNode o sourceFile (sf_root sourceFile) 0
                 (mkCollected [] [] [] []) in
      Ok (mkParsedFile filePath (getLanguage H filePath) (c_elements c)
            (c_imports c) (c_exports c) (c_errors c))
  end.

Scheme Node_mut_ind := Induction for Node Sort Prop
  with Nodes_mut_ind := Induction for Nodes Sort Prop.

End TypeScriptParser.

(** The tree cut below level [n]: a node keeps its children down to [n]
    levels under it. *)
Fixpoint truncate (n : nat) (node : TypeScriptParser.Node) {struct node}
  : TypeScriptParser.Node :=
  match node with
  | TypeScriptParser.mkNode k d children =>
      TypeScriptParser.mkNode k d
        (match n with
         | O => TypeScriptParser.NoNodes
         | S m => truncateNodes m children
         end)
  end
with truncateNodes (n : nat) (nodes : TypeScriptParser.Nodes)
    {struct nodes} : TypeScriptParser.Nodes :=
  match nodes with
  | TypeScriptParser.NoNodes => TypeScriptParser.NoNodes
  | TypeScriptParser.MoreNodes first others =>
      TypeScriptParser.MoreNodes (truncate n first) (truncateNodes n others)
  end.

(** The walk without a depth check: every node of the tree is
    processed, a node before its children, the children in order. *)
Fixpoint walkAll (o : TypeScriptParser.Options)
    (sf : TypeScriptParser.SourceFile) (node : TypeScriptParser.Node)
    (c : TypeScriptParser.Collected) {struct node}
  : TypeScriptParser.Collected :=
  match node with
  | TypeScriptParser.mkNode k d children =>
      walkAllNodes o sf children (TypeScriptParser.processNode o sf k d c)
  end
with walkAllNodes (o : TypeScriptParser.Options)
    (sf : TypeScriptParser.SourceFile) (nodes : TypeScriptParser.Nodes)
    (c : TypeScriptParser.Collected) {struct nodes}
  : TypeScriptParser.Collected :=
  match nodes with
  | TypeScriptParser.NoNodes => c
  | TypeScriptParser.MoreNodes first others =>
      walkAllNodes o sf others (walkAll o sf first c)
  end.

(** Every node of the tree has data that satisfies [p]. *)
Fixpoint everyNode (p : TypeScriptParser.NodeData -> bool)
    (node : TypeScriptParser.Node) {struct node} : bool :=
  match node with
  | TypeScriptParser.mkNode k d children => p d && everyNodes p children
  end
with everyNodes (p : TypeScriptParser.NodeData -> bool)
    (nodes : TypeScriptParser.Nodes) {struct nodes} : bool :=
  match nodes with
  | TypeScriptParser.NoNodes => true
  | TypeScriptParser.MoreNodes first others =>
      everyNode p first && everyNodes p others
  end.

(** The names of the modifier kinds of the node all end with "Keyword",
    as [PrivateKeyword], [StaticKeyword] and the like do. *)
Definition keywordKinds (d : TypeScriptParser.NodeData) : bool :=
  forallb (fun kindName => endsWith kindName "Keyword")
    (TypeScriptParser.nd_modifierKinds d).

(** The options with [includePrivate] set. *)
Definition withIncludePrivate (b : bool) (o : TypeScriptParser.Options)
  : TypeScriptParser.Options :=
  TypeScriptParser.mkOptions (TypeScriptParser.includeComments o) b
    (TypeScriptParser.maxDepth o) (TypeScriptParser.excludePatterns o).

(** The options with [maxDepth] set. *)
Definition withMaxDepth (n : Z) (o : TypeScriptParser.Options)
  : TypeScriptParser.Options :=
  TypeScriptParser.mkOptions (TypeScriptParser.includeComments o)
    (TypeScriptParser.includePrivate o) n
    (TypeScriptParser.excludePatterns o).

(** The walk adds declarations of the file at hand, with a context, and
    touches neither the declarations already collected nor the list of
    diagnostics. *)
Definition collectedFrom (sf : TypeScriptParser.SourceFile)
    (c c' : TypeScriptParser.Collected) : Prop :=
  TypeScriptParser.c_errors c' = TypeScriptParser.c_errors c
  /\ exists added,
       TypeScriptParser.c_elements c'
       = TypeScriptParser.c_elements c ++ added
       /\ Forall (fun e => filePath e = TypeScriptParser.sf_fileName sf
                           /\ type e <> NAMESPACE
                           /\ context e <> None) added.

(* ================================================================== *)
(** ** Further sample data *)
(* ================================================================== *)

(** A world in which the sample file has grown over the size limit. *)
Definition bigFileWorld : World :=
  mkWorld (FsDir (FsCons "mail.ts" FsFile FsNil))
    (fun _ => Ok (mkStats 2000000 1500))
    (fun _ => Ok "hello"%string)
    (fun p => Ok (mkParsedFile p "typescript" [sendEmailFn] [] [] []))
    2500.

(** The sample world after an edit that kept the length of the file and
    its modification time. *)
Definition editedWorld : World :=
  mkWorld (FsDir (FsCons "mail.ts" FsFile FsNil))
    (fun _ => Ok (mkStats 5 1000))
    (fun _ => Ok "HELLO"%string)
    (fun p => Ok (mkParsedFile p "typescript" [emailFn] [] [] []))
    2600.

(** NO-BREAK SPACE, code unit 160. *)
Definition noBreakSpace : string := String "160"%char EmptyString.

(** A text of white space only: a space, a NO-BREAK SPACE, a space. *)
Definition blankText : string := (" " ++ noBreakSpace ++ " ")%string.

(** Two functions whose names differ in case only, in a capital outside
    A-Z: code unit 201 is the capital of code unit 233. *)
Definition capitalEcoleFn : CodeElement :=
  sampleElement (String "201"%char "COLE") FUNCTION None None.

Definition smallEcoleFn : CodeElement :=
  sampleElement (String "233"%char "cole") FUNCTION None None.

(** The data of a method [send] marked private. *)
Definition privateMethodData : TypeScriptParser.NodeData :=
  TypeScriptParser.mkNodeData
    (Some (TypeScriptParser.mkNameNode "send" "send" true))
    [] None ["PrivateKeyword"%string] (Some "/** Sends it. */"%string)
    40 80 None.

Definition classData : TypeScriptParser.NodeData :=
  TypeScriptParser.mkNodeData
    (Some (TypeScriptParser.mkNameNode "Mailer" "Mailer" true))
    [] None ["ExportKeyword"%string] None 0 100 None.

Definition fileData : TypeScriptParser.NodeData :=
  TypeScriptParser.mkNodeData None [] None [] None 0 100 None.

(** A source file with a class that has a private method. *)
Definition sampleTree : TypeScriptParser.Node :=
  TypeScriptParser.mkNode TypeScriptParser.OtherSyntax fileData
    (TypeScriptParser.MoreNodes
       (TypeScriptParser.mkNode TypeScriptParser.ClassDeclaration classData
          (TypeScriptParser.MoreNodes
             (TypeScriptParser.mkNode TypeScriptParser.MethodDeclaration
                privateMethodData TypeScriptParser.NoNodes)
             TypeScriptParser.NoNodes))
       TypeScriptParser.NoNodes).

Definition sampleSourceFile : TypeScriptParser.SourceFile :=
  TypeScriptParser.mkSourceFile "/ws/src/mailer.ts"
    "class Mailer { private send() {} }" 34
    (fun pos => (0%Z, pos)) sampleTree.

Definition noElements : TypeScriptParser.Collected :=
  TypeScriptParser.mkCollected [] [] [] [].

(* ================================================================== *)
(** * The primitives meet their JavaScript descriptions *)
(* ================================================================== *)

Section Primitives.

Local Open Scope string_scope.

Lemma startsWith_spec (s k : string) :
  startsWith s k = true <-> exists b, s = k ++ b.
Proof.
  unfold startsWith. revert s.
  induction k as [|c k IH]; intros s.
  - split; [intros _; exists s; reflexivity|intros _; destruct s; reflexivity].
  - destruct s as [|d s]; simpl.
    + split; [discriminate|intros [b Hb]; discriminate].
    + destruct (ascii_dec c d) as [->|Hne].
      * rewrite IH. split; intros [b Hb]; exists b.
        -- rewrite Hb. reflexivity.
        -- inversion Hb. reflexivity.
      * split; [discriminate|].
        intros [b Hb]. inversion Hb. congruence.
Qed.

Lemma endsWith_spec (s k : string) :
  endsWith s k = true <-> exists a, s = a ++ k.
Proof.
  induction s as [|d s IH]; cbn [endsWith].
  - rewrite orb_false_r, String.eqb_eq. split.
    + intros <-. exists "". reflexivity.
    + intros [a Ha]. destruct a; [exact Ha|discriminate].
  - rewrite orb_true_iff, String.eqb_eq, IH. split.
    + intros [<-|[a Ha]]; [exists ""; reflexivity|].
      exists (String d a). rewrite Ha. reflexivity.
    + intros [a Ha]. destruct a as [|d' a].
      * left. exact Ha.
      * right. exists a. inversion Ha. reflexivity.
Qed.

Lemma includes_spec (s k : string) :
  includes s k = true <-> exists a b, s = a ++ k ++ b.
Proof.
  induction s as [|d s IH]; cbn [includes].
  - rewrite orb_false_r. fold (startsWith "" k). rewrite startsWith_spec.
    split.
    + intros [b Hb]. exists "", b. exact Hb.
    + intros (a & b & Hab). destruct a; [exists b; exact Hab|discriminate].
  - rewrite orb_true_iff, IH. fold (startsWith (String d s) k).
    rewrite startsWith_spec. split.
    + intros [[b Hb]|(a & b & Hab)].
      * exists "", b. exact Hb.
      * exists (String d a), b. rewrite Hab. reflexivity.
    + intros (a & b & Hab). destruct a as [|d' a].
      * left. exists b. exact Hab.
      * right. exists a, b. inversion Hab. reflexivity.
Qed.

Lemma str_mem_In (x : string) (l : list string) :
  str_mem x l = true <-> In x l.
Proof.
  unfold str_mem. rewrite existsb_exists. split.
  - intros (y & Hy & Heq). apply String.eqb_eq in Heq. subst. exact Hy.
  - intros Hx. exists x. split; [exact Hx|apply String.eqb_refl].
Qed.

Lemma uniq_from_In (x : string) (seen l : list string) :
  In x (uniq_from seen l) <-> In x l /\ ~ In x seen.
Proof.
  revert seen. induction l as [|y r IH]; intros seen; cbn [uniq_from].
  - simpl. tauto.
  - destruct (str_mem y seen) eqn:Hm.
    + apply str_mem_In in Hm. rewrite IH. simpl. split.
      * intros [Hr Hs]. tauto.
      * intros [[->|Hr] Hs]; [contradiction|tauto].
    + assert (Hn : ~ In y seen).
      { intros Hin. apply str_mem_In in Hin. congruence. }
      simpl. rewrite IH. simpl. split.
      * intros [->|[Hr Hs]]; [tauto|tauto].
      * intros [[->|Hr] Hs]; [tauto|].
        destruct (string_dec y x) as [->|Hne]; [tauto|]. right. tauto.
Qed.

Lemma uniq_from_NoDup (seen l : list string) : NoDup (uniq_from seen l).
Proof.
  revert seen. induction l as [|y r IH]; intros seen; cbn [uniq_from].
  - constructor.
  - destruct (str_mem y seen); [apply IH|].
    constructor; [|apply IH].
    rewrite uniq_from_In. simpl. tauto.
Qed.

Lemma uniq_spec (l : list string) :
  NoDup (uniq l) /\ forall x, In x (uniq l) <-> In x l.
Proof.
  split; [apply uniq_from_NoDup|].
  intros x. unfold uniq. rewrite uniq_from_In. simpl. tauto.
Qed.

End Primitives.

(* ================================================================== *)
(** * Properties of the ranking engine *)
(* ================================================================== *)

Section Scoring.

Variable caseSensitive : bool.
Variable e : CodeElement.

Let nm := normalize caseSensitive (name e).
Let sg := normalize caseSensitive (orEmpty (signature e)).
Let ds := normalize caseSensitive (orEmpty (description e)).

Lemma getNameMatchScore_included (n k : string) :
  includes n k = true -> getNameMatchScore n k = spec_nameMatchScore n k.
Proof.
  intros Hin. unfold getNameMatchScore, spec_nameMatchScore.
  rewrite Hin. reflexivity.
Qed.

Lemma spec_nameMatchScore_bounds (n k : string) :
  0 <= spec_nameMatchScore n k /\ spec_nameMatchScore n k <= 1.5.
Proof.
  unfold spec_nameMatchScore.
  destruct (String.eqb n k); [split; lra|].
  destruct (startsWith n k); [split; lra|].
  destruct (endsWith n k); split; lra.
Qed.

Lemma spec_contribution_bounds (k : string) :
  0 <= spec_contribution caseSensitive e k
  /\ spec_contribution caseSensitive e k <= 1.5 * 1.5.
Proof.
  unfold spec_contribution.
  destruct (includes _ _).
  - pose proof (spec_nameMatchScore_bounds
                  (normalize caseSensitive (name e))
                  (normalize caseSensitive k)) as [Hlo Hhi].
    split; lra.
  - destruct (includes _ _); [split; lra|].
    destruct (includes _ _); split; lra.
Qed.

(** One turn of the loop adds the keyword's contribution and counts the
    keyword when it is found. *)
Lemma scoreStep_spec (b : Q) (m : nat) (k : string) :
  fst (scoreStep caseSensitive nm sg ds (b, m) k)
    == b + spec_contribution caseSensitive e k
  /\ snd (scoreStep caseSensitive nm sg ds (b, m) k)
     = (m + if spec_found caseSensitive e k then 1 else 0)%nat.
Proof.
  unfold scoreStep, spec_contribution, spec_found. fold nm sg ds.
  destruct (includes nm (normalize caseSensitive k)) eqn:Hn; simpl.
  - rewrite (getNameMatchScore_included _ _ Hn). split; [reflexivity|lia].
  - destruct (includes sg (normalize caseSensitive k)); simpl.
    + split; [reflexivity|lia].
    + destruct (includes ds (normalize caseSensitive k)); simpl.
      * split; [reflexivity|lia].
      * split; [lra|lia].
Qed.

Lemma scoreLoop_from (kws : list string) (b : Q) (m : nat) :
  fst (fold_left (scoreStep caseSensitive nm sg ds) kws (b, m))
    == b + spec_baseScore caseSensitive e kws
  /\ snd (fold_left (scoreStep caseSensitive nm sg ds) kws (b, m))
     = (m + spec_matchedCount caseSensitive e kws)%nat.
Proof.
  revert b m. induction kws as [|k r IH]; intros b m.
  - simpl. split; [lra|unfold spec_matchedCount; simpl; lia].
  - cbn [fold_left].
    destruct (scoreStep caseSensitive nm sg ds (b, m) k) as [b' m'] eqn:Hs.
    pose proof (scoreStep_spec b m k) as [Hb Hm]. rewrite Hs in Hb, Hm.
    cbn [fst snd] in Hb, Hm.
    destruct (IH b' m') as [IHb IHm]. split.
    + rewrite IHb, Hb. cbn [spec_baseScore]. lra.
    + rewrite IHm, Hm. unfold spec_matchedCount. cbn [filter].
      destruct (spec_found caseSensitive e k); simpl; lia.
Qed.

Lemma scoreLoop_spec (kws : list string) :
  fst (scoreLoop caseSensitive e kws) == spec_baseScore caseSensitive e kws
  /\ snd (scoreLoop caseSensitive e kws)
     = spec_matchedCount caseSensitive e kws.
Proof.
  unfold scoreLoop. fold nm sg ds.
  destruct (scoreLoop_from kws 0 0%nat) as [Hb Hm]. split.
  - rewrite Hb. lra.
  - rewrite Hm. reflexivity.
Qed.

Lemma spec_baseScore_bounds (kws : list string) :
  0 <= spec_baseScore caseSensitive e kws
  /\ spec_baseScore caseSensitive e kws
     <= Q_of_nat (List.length kws) * 1.5 * 1.5.
Proof.
  induction kws as [|k r [IHlo IHhi]].
  - cbn [spec_baseScore List.length]. change (Q_of_nat 0) with 0.
    split; lra.
  - cbn [spec_baseScore List.length].
    pose proof (spec_contribution_bounds k) as [Hlo Hhi].
    assert (Hs : Q_of_nat (S (List.length r)) == Q_of_nat (List.length r) + 1).
    { unfold Q_of_nat. rewrite Nat2Z.inj_succ, <- Z.add_1_r.
      rewrite inject_Z_plus. reflexivity. }
    split; [lra|]. rewrite Hs. lra.
Qed.

Lemma spec_matchedCount_le (kws : list string) :
  (spec_matchedCount caseSensitive e kws <= List.length kws)%nat.
Proof. unfold spec_matchedCount. apply filter_length_le. Qed.

End Scoring.

Lemma Qlt_bool_iff (a b : Q) : Qlt_bool a b = true <-> a < b.
Proof.
  unfold Qlt_bool. rewrite negb_true_iff.
  split.
  - intros Hf. apply Qnot_le_lt. intros Hle.
    apply Qle_bool_iff in Hle. congruence.
  - intros Hlt. destruct (Qle_bool b a) eqn:Hb; [|reflexivity].
    apply Qle_bool_iff in Hb. exfalso. apply (Qlt_not_le _ _ Hlt Hb).
Qed.

Lemma Q_of_nat_pos (n : nat) : (0 < n)%nat -> 0 < Q_of_nat n.
Proof.
  intros Hn. unfold Q_of_nat, Qlt. simpl. lia.
Qed.

Lemma Q_of_nat_nonneg (n : nat) : 0 <= Q_of_nat n.
Proof. unfold Q_of_nat, Qle. simpl. lia. Qed.

Lemma half_Q_of_nat (n : nat) : 0.5 * Q_of_nat n == Q_of_nat n / 2.
Proof. field. Qed.

Lemma half_le_Q_of_nat (m n : nat) :
  (n <= 2 * m)%nat -> 0.5 * Q_of_nat n <= Q_of_nat m.
Proof.
  intros Hle. rewrite half_Q_of_nat. apply Qle_shift_div_r; [lra|].
  unfold Q_of_nat. replace 2 with (inject_Z 2) by reflexivity.
  rewrite <- inject_Z_mult, <- Zle_Qle. lia.
Qed.

Lemma lt_half_Q_of_nat (m n : nat) :
  (2 * m < n)%nat -> Q_of_nat m < 0.5 * Q_of_nat n.
Proof.
  intros Hlt. rewrite half_Q_of_nat. apply Qlt_shift_div_l; [lra|].
  unfold Q_of_nat. replace 2 with (inject_Z 2) by reflexivity.
  rewrite <- inject_Z_mult, <- Zlt_Qlt. lia.
Qed.

(** completeness < 0.5 says that fewer than half of the keywords
    matched. *)
Lemma completeness_lt_half (m n : nat) :
  (0 < n)%nat ->
  (Q_of_nat m / Q_of_nat n < 0.5 <-> (2 * m < n)%nat).
Proof.
  intros Hn. pose proof (Q_of_nat_pos n Hn) as Hpos.
  split.
  - intros Hlt.
    destruct (Nat.lt_ge_cases (2 * m) n) as [Hok|Hge]; [exact Hok|].
    exfalso. apply (Qlt_not_le _ _ Hlt).
    apply Qle_shift_div_l; [exact Hpos|].
    apply half_le_Q_of_nat. exact Hge.
  - intros Hlt. apply Qlt_shift_div_r; [exact Hpos|].
    apply lt_half_Q_of_nat. exact Hlt.
Qed.

Lemma addTypeBonus_spec (e : CodeElement) (query : SearchQuery) (x : Q) :
  addTypeBonus e query x == x + spec_intentBonus e query.
Proof.
  unfold addTypeBonus, spec_intentBonus.
  destruct (_ && _); [reflexivity|].
  destruct (type_mem _ _); [reflexivity|lra].
Qed.

Lemma spec_intentBonus_bounds (e : CodeElement) (query : SearchQuery) :
  0 <= spec_intentBonus e query /\ spec_intentBonus e query <= 0.2.
Proof.
  unfold spec_intentBonus.
  destruct (_ && _); [split; lra|].
  destruct (type_mem _ _); split; lra.
Qed.

(** [calculateScore] is 0 in the cut-off cases and the formula of the
    specification in all others. *)
Lemma calculateScore_cases (e : CodeElement) (query : SearchQuery)
    (caseSensitive : bool) :
  calculateScore e query caseSensitive
  == if cutOff e query caseSensitive then 0
     else spec_finalScore e query caseSensitive.
Proof.
  unfold calculateScore, cutOff, spec_finalScore, spec_completeness.
  set (kws := uniq (keywords query)).
  pose proof (scoreLoop_spec caseSensitive e kws) as [Hb Hm].
  pose proof (spec_matchedCount_le caseSensitive e kws) as Hle.
  destruct (scoreLoop caseSensitive e kws) as [b m].
  cbn [fst snd] in Hb, Hm. subst m.
  set (m := spec_matchedCount caseSensitive e kws) in *.
  destruct (List.length kws =? 0)%nat eqn:Hn.
  - apply Nat.eqb_eq in Hn.
    assert (Hm0 : (m =? 0)%nat = true) by (apply Nat.eqb_eq; lia).
    rewrite Hm0. reflexivity.
  - destruct (m =? 0)%nat; [reflexivity|]. cbn [orb].
    destruct (_ && _); [reflexivity|].
    rewrite addTypeBonus_spec, Hb. reflexivity.
Qed.

Lemma spec_finalScore_bounds (e : CodeElement) (query : SearchQuery)
    (caseSensitive : bool) :
  0 <= spec_finalScore e query caseSensitive
  /\ spec_finalScore e query caseSensitive <= 1.
Proof.
  unfold spec_finalScore.
  set (kws := uniq (keywords query)).
  set (c := spec_completeness caseSensitive e kws).
  split; [|eapply Qle_trans; [apply Q.le_min_r|lra]].
  apply Q.min_glb; [|lra].
  pose proof (spec_baseScore_bounds caseSensitive e kws) as [Hlo _].
  pose proof (spec_intentBonus_bounds e query) as [Hbl _].
  pose proof (Q_of_nat_nonneg (List.length kws)) as Hn.
  assert (Hc : 0 <= c * c) by nra.
  apply Qle_shift_div_l; [lra|].
  assert (Hp : 0 <= spec_baseScore caseSensitive e kws * (c * c))
    by (apply Qmult_le_0_compat; assumption).
  lra.
Qed.

(** C1 (as amended).  The base score accumulated by the keyword loop is
    the sum, over the deduplicated keywords, of the contribution of the
    first field (name, then signature, then description) containing the
    keyword; the matched count is the number of keywords found; and the
    score is 0 when no keyword matched or when several keywords were
    requested and fewer than half matched, and otherwise
    base × completeness² plus the intent bonus, divided by
    keywordCount × 1.5 × 1.5 + 0.2 and clamped to at most 1.0. *)
Theorem calculateScore_formula (e : CodeElement) (query : SearchQuery)
    (caseSensitive : bool) :
  fst (scoreLoop caseSensitive e (uniq (keywords query)))
    == spec_baseScore caseSensitive e (uniq (keywords query))
  /\ snd (scoreLoop caseSensitive e (uniq (keywords query)))
     = spec_matchedCount caseSensitive e (uniq (keywords query))
  /\ calculateScore e query caseSensitive
     == (if cutOff e query caseSensitive then 0
         else spec_finalScore e query caseSensitive).
Proof.
  destruct (scoreLoop_spec caseSensitive e (uniq (keywords query)))
    as [Hb Hm].
  split; [exact Hb|]. split; [exact Hm|].
  apply calculateScore_cases.
Qed.

(** C1 as stated fails where no keyword matches and the intent bonus
    applies: the source returns 0 before the bonus is added, the formula
    gives 0.2 / 2.45. *)
Lemma calculateScore_formula_counterexample :
  ~ (calculateScore parseDateFn (emailQuery ["email"%string]) false
     == spec_finalScore parseDateFn (emailQuery ["email"%string]) false).
Proof. vm_compute. discriminate. Qed.

(** C2.  When more than one deduplicated keyword is requested and fewer
    than half of them are found in the name, signature or description,
    the score is exactly 0. *)
Theorem calculateScore_cutoff (e : CodeElement) (query : SearchQuery)
    (caseSensitive : bool) :
  (1 < List.length (uniq (keywords query)))%nat ->
  (2 * spec_matchedCount caseSensitive e (uniq (keywords query))
   < List.length (uniq (keywords query)))%nat ->
  calculateScore e query caseSensitive = 0.
Proof.
  intros Hn Hhalf. unfold calculateScore.
  set (kws := uniq (keywords query)) in *.
  pose proof (scoreLoop_spec caseSensitive e kws) as [_ Hm].
  destruct (scoreLoop caseSensitive e kws) as [b m].
  cbn [snd] in Hm. subst m.
  destruct (List.length kws =? 0)%nat; [reflexivity|].
  destruct (_ =? 0)%nat; [reflexivity|].
  assert (H1 : (1 <? List.length kws)%nat = true)
    by (apply Nat.ltb_lt; exact Hn).
  assert (H2 : Qlt_bool
                 (Q_of_nat (spec_matchedCount caseSensitive e kws)
                  / Q_of_nat (List.length kws)) 0.5 = true).
  { apply Qlt_bool_iff. apply completeness_lt_half; [lia|exact Hhalf]. }
  rewrite H1, H2. reflexivity.
Qed.

(** A declaration matching 1 of 3 requested keywords scores 0. *)
Lemma calculateScore_cutoff_witness :
  calculateScore sendEmailFn
    (emailQuery ["email"; "database"; "token"]%string) false = 0.
Proof.
  apply calculateScore_cutoff; vm_compute; lia.
Defined.

(** C3.  The score lies in the closed interval [0, 1]. *)
Theorem calculateScore_bounds (e : CodeElement) (query : SearchQuery)
    (caseSensitive : bool) :
  0 <= calculateScore e query caseSensitive
  /\ calculateScore e query caseSensitive <= 1.
Proof.
  rewrite calculateScore_cases.
  destruct (cutOff e query caseSensitive).
  - split; lra.
  - apply spec_finalScore_bounds.
Qed.

(* ------------------------------------------------------------------ *)
(** *** Order-preserving filters *)

Section SubseqFacts.

Context {A : Type}.

Lemma Subseq_refl (l : list A) : Subseq l l.
Proof.
  induction l; [apply Subseq_nil|apply Subseq_keep; assumption].
Qed.

Lemma Subseq_filter (p : A -> bool) (l : list A) : Subseq (filter p l) l.
Proof.
  induction l as [|x r IH]; simpl; [apply Subseq_nil|].
  destruct (p x); [apply Subseq_keep|apply Subseq_skip]; exact IH.
Qed.

Lemma Subseq_trans (l1 l2 l3 : list A) :
  Subseq l1 l2 -> Subseq l2 l3 -> Subseq l1 l3.
Proof.
  intros H12 H23. revert l1 H12.
  induction H23 as [|x l2 l3 H23 IH|x l2 l3 H23 IH]; intros l1 H12.
  - exact H12.
  - apply Subseq_skip. apply IH. exact H12.
  - inversion H12; subst.
    + apply Subseq_skip. apply IH. assumption.
    + apply Subseq_keep. apply IH. assumption.
Qed.

Lemma Subseq_filterR (p : A -> result bool) (l l' : list A) :
  filterR p l = Ok l' -> Subseq l' l.
Proof.
  revert l'. induction l as [|x r IH]; simpl; intros l' Hf.
  - inversion Hf. constructor.
  - destruct (p x) as [b|]; [|discriminate].
    destruct (filterR p r) as [r'|]; [|discriminate].
    inversion Hf; subst.
    destruct b; [apply Subseq_keep|apply Subseq_skip];
      apply IH; reflexivity.
Qed.

Lemma filter_firstn (p : A -> bool) (k : nat) (l : list A) :
  exists j, filter p (firstn k l) = firstn j (filter p l).
Proof.
  revert k. induction l as [|x r IH]; intros k.
  - exists 0%nat. rewrite firstn_nil. reflexivity.
  - destruct k as [|k]; [exists 0%nat; reflexivity|].
    destruct (IH k) as [j Hj]. cbn [firstn filter].
    destruct (p x).
    + exists (S j). cbn [firstn]. rewrite Hj. reflexivity.
    + exists j. exact Hj.
Qed.

Lemma In_firstn (k : nat) (l : list A) (y : A) :
  In y (firstn k l) -> In y l.
Proof.
  revert k. induction l as [|x r IH]; intros k Hy.
  - rewrite firstn_nil in Hy. exact Hy.
  - destruct k as [|k]; [destruct Hy|].
    destruct Hy as [->|Hy]; [left; reflexivity|right; exact (IH k Hy)].
Qed.

Lemma StronglySorted_firstn (R : A -> A -> Prop) (k : nat) (l : list A) :
  StronglySorted R l -> StronglySorted R (firstn k l).
Proof.
  intros Hs. revert k. induction Hs as [|x r Hs IH Hx]; intros k.
  - rewrite firstn_nil. constructor.
  - destruct k as [|k]; [constructor|]. cbn [firstn]. constructor.
    + apply IH.
    + rewrite Forall_forall in *. intros y Hy. apply Hx.
      apply (In_firstn _ _ _ Hy).
Qed.

Lemma Forall_firstn_keep (P : A -> Prop) (k : nat) (l : list A) :
  Forall P l -> Forall P (firstn k l).
Proof.
  rewrite !Forall_forall. intros Hl y Hy. apply Hl.
  apply (In_firstn _ _ _ Hy).
Qed.

End SubseqFacts.

Lemma filterElements_Subseq (H : Host) (els : list CodeElement)
    (query : SearchQuery) (langs : list Language) (pats : list string)
    (cands : list CodeElement) :
  filterElements H els query langs pats = Ok cands -> Subseq cands els.
Proof.
  unfold filterElements. intros Hf.
  assert (Hfilters : forall (p q : CodeElement -> bool) (b1 b2 : bool),
             Subseq (if b2 then filter q (if b1 then filter p els else els)
                     else (if b1 then filter p els else els)) els).
  { intros p q b1 b2.
    destruct b2; [eapply Subseq_trans; [apply Subseq_filter|]|];
      (destruct b1; [apply Subseq_filter|apply Subseq_refl]). }
  destruct (0 <? List.length pats)%nat.
  - apply Subseq_filterR in Hf.
    eapply Subseq_trans; [exact Hf|apply Hfilters].
  - inversion Hf; subst. apply Hfilters.
Qed.

(** Without file patterns no regular expression is built and the
    filters cannot throw. *)
Lemma filterElements_no_patterns (H : Host) (els : list CodeElement)
    (query : SearchQuery) (langs : list Language) :
  exists cands, filterElements H els query langs [] = Ok cands.
Proof. unfold filterElements. simpl. eexists. reflexivity. Qed.

(* ------------------------------------------------------------------ *)
(** *** The scoring loop of [search] *)

Section Collect.

Variable query : SearchQuery.
Variable th : Q.
Variable snip cs : bool.

Lemma collectResults_threshold (els : list CodeElement) :
  Forall (fun r => th <= score r) (collectResults query th snip cs els).
Proof.
  induction els as [|e r IH]; simpl; [constructor|].
  destruct (Qle_bool th (calculateScore e query cs)) eqn:Hq.
  - constructor; [|exact IH]. simpl. apply Qle_bool_iff. exact Hq.
  - exact IH.
Qed.

Lemma collectResults_score (els : list CodeElement) :
  Forall (fun r => score r = calculateScore (element r) query cs)
    (collectResults query th snip cs els).
Proof.
  induction els as [|e r IH]; simpl; [constructor|].
  destruct (Qle_bool th (calculateScore e query cs)).
  - constructor; [reflexivity|exact IH].
  - exact IH.
Qed.

(** The results with a given score are those of the elements that
    reach the threshold with that score, in the order of the
    elements. *)
Lemma collectResults_elements (s : Q) (els : list CodeElement) :
  map element
    (filter (fun r => Qeq_bool (score r) s)
       (collectResults query th snip cs els))
  = filter
      (fun e => Qle_bool th (calculateScore e query cs)
                && Qeq_bool (calculateScore e query cs) s)
      els.
Proof.
  induction els as [|e r IH]; simpl; [reflexivity|].
  destruct (Qle_bool th (calculateScore e query cs)); cbn [andb filter].
  - cbn [score]. destruct (Qeq_bool (calculateScore e query cs) s).
    + cbn [map element]. rewrite IH. reflexivity.
    + exact IH.
  - exact IH.
Qed.

End Collect.

(* ------------------------------------------------------------------ *)
(** *** The stable sort by descending score *)

Lemma byScoreDesc_le (x y : SearchResult) :
  Qle_bool (byScoreDesc x y) 0 = true <-> score y <= score x.
Proof.
  rewrite Qle_bool_iff. unfold byScoreDesc. split; intros Hle; lra.
Qed.

Lemma insertBy_perm {A : Type} (cmp : A -> A -> Q) (x : A) (l : list A) :
  Permutation (insertBy cmp x l) (x :: l).
Proof.
  induction l as [|y r IH]; simpl; [reflexivity|].
  destruct (Qle_bool (cmp x y) 0); [reflexivity|].
  rewrite IH. apply perm_swap.
Qed.

Lemma sortBy_perm {A : Type} (cmp : A -> A -> Q) (l : list A) :
  Permutation (sortBy cmp l) l.
Proof.
  induction l as [|x r IH]; simpl; [reflexivity|].
  rewrite insertBy_perm. constructor. exact IH.
Qed.

Lemma insertBy_sorted (x : SearchResult) (l : list SearchResult) :
  StronglySorted scoreDesc l ->
  StronglySorted scoreDesc (insertBy byScoreDesc x l).
Proof.
  intros Hs. induction Hs as [|y r Hs IH Hy]; simpl.
  - constructor; constructor.
  - destruct (Qle_bool (byScoreDesc x y) 0) eqn:Hc.
    + apply byScoreDesc_le in Hc. constructor.
      * constructor; assumption.
      * constructor; [exact Hc|].
        rewrite Forall_forall in *. intros z Hz. unfold scoreDesc in *.
        specialize (Hy z Hz). lra.
    + assert (Hlt : score x < score y).
      { apply Qnot_le_lt. intros Hle. apply byScoreDesc_le in Hle.
        congruence. }
      constructor; [exact IH|].
      rewrite Forall_forall in *. intros z Hz.
      apply (Permutation_in _ (insertBy_perm byScoreDesc x r)) in Hz.
      destruct Hz as [<-|Hz].
      * unfold scoreDesc. lra.
      * apply Hy. exact Hz.
Qed.

Lemma sortBy_sorted (l : list SearchResult) :
  StronglySorted scoreDesc (sortBy byScoreDesc l).
Proof.
  induction l as [|x r IH]; simpl; [constructor|].
  apply insertBy_sorted. exact IH.
Qed.

(** Stability: inserting [x] does not move it behind a result of the
    same score. *)
Lemma insertBy_stable (s : Q) (x : SearchResult) (l : list SearchResult) :
  filter (fun r => Qeq_bool (score r) s) (insertBy byScoreDesc x l)
  = filter (fun r => Qeq_bool (score r) s) (x :: l).
Proof.
  induction l as [|y r IH]; [reflexivity|]. cbn [insertBy].
  destruct (Qle_bool (byScoreDesc x y) 0) eqn:Hc; [reflexivity|].
  assert (Hlt : score x < score y).
  { apply Qnot_le_lt. intros Hle. apply byScoreDesc_le in Hle. congruence. }
  cbn [filter] in *. rewrite IH.
  destruct (Qeq_bool (score x) s) eqn:Hx;
    destruct (Qeq_bool (score y) s) eqn:Hy; try reflexivity.
  apply Qeq_bool_iff in Hx, Hy. exfalso. lra.
Qed.

Lemma sortBy_stable (s : Q) (l : list SearchResult) :
  filter (fun r => Qeq_bool (score r) s) (sortBy byScoreDesc l)
  = filter (fun r => Qeq_bool (score r) s) l.
Proof.
  induction l as [|x r IH]; [reflexivity|].
  cbn [sortBy fold_right]. fold (sortBy byScoreDesc r).
  rewrite insertBy_stable. cbn [filter]. rewrite IH. reflexivity.
Qed.

(* ------------------------------------------------------------------ *)
(** *** Truncation *)

Lemma slice0_firstn {A : Type} (l : list A) (end_ : Z) :
  exists k, slice0 l end_ = firstn k l.
Proof. unfold slice0. eexists. reflexivity. Qed.

Lemma slice0_nil {A : Type} (end_ : Z) : slice0 (@nil A) end_ = [].
Proof. unfold slice0. apply firstn_nil. Qed.

Lemma slice0_length {A : Type} (l : list A) (end_ : Z) :
  (0 <= end_)%Z -> (Z.of_nat (List.length (slice0 l end_)) <= end_)%Z.
Proof.
  intros Hpos. unfold slice0.
  destruct (end_ <? 0)%Z eqn:Hneg; [apply Z.ltb_lt in Hneg; lia|].
  rewrite length_firstn. lia.
Qed.

(* ------------------------------------------------------------------ *)
(** *** The contract of [search] *)

(** C4 (as amended).  When [search] returns, every result scores at or
    above the configured threshold (default 0.2); the results are in
    descending order of score; results of equal score are in the order
    of the element list (they are the first ones, in that order, of the
    candidates with that score); and when the configured maximum result
    count is not negative the list is no longer than it, the default
    maximum being 50. *)
Theorem search_contract (H : Host) (els : list CodeElement)
    (query : SearchQuery) (options : SearchOptions)
    (out : list SearchResult) :
  search H els query options = Ok out ->
  Forall (fun r => withDefault 0.2 (threshold options) <= score r) out
  /\ StronglySorted scoreDesc out
  /\ (exists cands : list CodeElement,
        Subseq cands els
        /\ forall s : Q, exists j : nat,
             map element (filter (fun r => Qeq_bool (score r) s) out)
             = firstn j
                 (filter
                    (fun e =>
                       let sc := calculateScore e query
                                   (withDefault false (caseSensitive options)) in
                       Qle_bool (withDefault 0.2 (threshold options)) sc
                       && Qeq_bool sc s)
                    cands))
  /\ ((0 <= withDefault 50 (maxResults options))%Z ->
      (Z.of_nat (List.length out)
       <= withDefault 50 (maxResults options))%Z)
  /\ (maxResults options = None -> (List.length out <= 50)%nat).
Proof.
  unfold search. intros Hs.
  destruct (filterElements H els query _ _) as [cands|] eqn:Hf;
    [|discriminate].
  inversion Hs as [Hout]. clear Hs.
  set (th := withDefault 0.2 (threshold options)) in *.
  set (cs := withDefault false (caseSensitive options)) in *.
  set (results := collectResults query th _ cs cands) in *.
  destruct (slice0_firstn (sortBy byScoreDesc results)
              (withDefault 50%Z (maxResults options))) as [k Hk].
  split; [|split; [|split; [|split]]].
  - rewrite Hk. apply Forall_firstn_keep.
    apply (Permutation_Forall (Permutation_sym (sortBy_perm _ results))).
    apply collectResults_threshold.
  - rewrite Hk. apply StronglySorted_firstn. apply sortBy_sorted.
  - exists cands. split; [apply (filterElements_Subseq _ _ _ _ _ _ Hf)|].
    intros s. rewrite Hk.
    destruct (filter_firstn (fun r => Qeq_bool (score r) s) k
                (sortBy byScoreDesc results)) as [j Hj].
    exists j. rewrite Hj, sortBy_stable, <- firstn_map.
    unfold results. rewrite collectResults_elements. reflexivity.
  - apply slice0_length.
  - intros Hnone. rewrite Hnone. cbn [withDefault].
    pose proof (slice0_length (sortBy byScoreDesc results) 50) as Hl.
    rewrite Hnone in Hout. cbn [withDefault] in Hout. lia.
Qed.

Lemma search_contract_witness :
  exists out,
    search sampleHost sampleElements (emailQuery ["email"%string]) noOptions
    = Ok out
    /\ List.length out = 2%nat
    /\ Forall (fun r => 0.2 <= score r) out
    /\ (Z.of_nat (List.length out) <= 50)%Z.
Proof.
  eexists. split; [vm_compute; reflexivity|].
  split; [reflexivity|].
  destruct (search_contract sampleHost sampleElements
              (emailQuery ["email"%string]) noOptions _ eq_refl)
    as (Hth & _ & _ & Hmax & _).
  split; [exact Hth|]. apply Hmax. vm_compute. discriminate.
Defined.

(** C4 as stated fails for a negative maximum result count:
    [slice(0, -1)] drops the last result only. *)
Lemma search_contract_counterexample :
  exists out,
    search sampleHost sampleElements (emailQuery ["email"%string])
      negativeMaxOptions = Ok out
    /\ ~ (Z.of_nat (List.length out)
          <= withDefault 50 (maxResults negativeMaxOptions))%Z.
Proof.
  eexists. split; [vm_compute; reflexivity|].
  vm_compute. intros Hle. apply Hle. reflexivity.
Qed.

(* ================================================================== *)
(** * Properties of the query parser *)
(* ================================================================== *)

Local Open Scope string_scope.

Lemma determineIntent_not_methods (words : list string) :
  determineIntent words <> FIND_METHODS.
Proof.
  unfold determineIntent.
  repeat match goal with
         | |- (if ?b then _ else _) <> _ => destruct b
         end; discriminate.
Qed.

Lemma extractElementTypes_spec (words : list string) (i : QueryIntent) :
  i <> FIND_METHODS ->
  Some (extractElementTypes words i) = spec_targetKinds i.
Proof. destruct i; intros Hi; try reflexivity. contradiction. Qed.

(** C5.  [parse "functions that send email"] has intent FIND_FUNCTIONS,
    target kinds function and method, and keywords containing "send" and
    "email"; and for every query text the target kinds of the parsed
    query are those the table gives for its intent. *)
Theorem parse_intent_mapping :
  (let q := parse "functions that send email" in
   intent q = FIND_FUNCTIONS
   /\ elementTypes q = [FUNCTION; METHOD]
   /\ In "send" (keywords q) /\ In "email" (keywords q))
  /\ (forall queryText : string,
        Some (elementTypes (parse queryText))
        = spec_targetKinds (intent (parse queryText)))
  /\ (forall words : list string,
        extractElementTypes words FIND_FUNCTIONS = [FUNCTION; METHOD]
        /\ extractElementTypes words FIND_CLASSES = [CLASS]
        /\ extractElementTypes words FIND_VARIABLES = [VARIABLE; PROPERTY]
        /\ extractElementTypes words FIND_INTERFACES = [INTERFACE]
        /\ extractElementTypes words FIND_TYPES = [TYPE; INTERFACE]
        /\ extractElementTypes words FIND_ALL
           = [FUNCTION; CLASS; METHOD; VARIABLE; PROPERTY; INTERFACE; TYPE]).
Proof.
  split; [|split].
  - vm_compute. repeat split; auto.
  - intros queryText. unfold parse. cbn [elementTypes intent].
    apply extractElementTypes_spec. apply determineIntent_not_methods.
  - intros words. repeat split.
Qed.

Lemma lowerChar_space (c : ascii) : isSpace c = true -> lowerChar c = c.
Proof.
  destruct c as [[] [] [] [] [] [] [] []]; vm_compute;
    intros Hs; try reflexivity; discriminate.
Qed.

Lemma toLowerCase_allSpace (s : string) :
  allSpace s = true -> toLowerCase s = s.
Proof.
  induction s as [|c r IH]; simpl; intros Hs; [reflexivity|].
  apply andb_true_iff in Hs. destruct Hs as [Hc Hr].
  rewrite (lowerChar_space c Hc), (IH Hr). reflexivity.
Qed.

Lemma trimStart_allSpace (s : string) :
  allSpace s = true -> trimStart s = EmptyString.
Proof.
  induction s as [|c r IH]; simpl; intros Hs; [reflexivity|].
  apply andb_true_iff in Hs. destruct Hs as [Hc Hr].
  rewrite Hc. exact (IH Hr).
Qed.

(** Only white space: nothing is left to tokenize. *)
Lemma tokenize_blank (s : string) :
  allSpace s = true -> tokenize (normalizeQuery s) = [].
Proof.
  intros Hs. unfold normalizeQuery, trim.
  rewrite (toLowerCase_allSpace s Hs), (trimStart_allSpace s Hs).
  reflexivity.
Qed.

Lemma parse_blank (s : string) :
  allSpace s = true ->
  parse s
  = mkSearchQuery s FIND_ALL []
      [FUNCTION; CLASS; METHOD; VARIABLE; PROPERTY; INTERFACE; TYPE] None.
Proof.
  intros Hs. unfold parse. rewrite (tokenize_blank s Hs). reflexivity.
Qed.

Lemma calculateScore_no_keywords (e : CodeElement) (query : SearchQuery)
    (cs : bool) :
  keywords query = [] -> calculateScore e query cs = 0%Q.
Proof. intros Hk. unfold calculateScore. rewrite Hk. reflexivity. Qed.

Lemma collectResults_no_keywords (query : SearchQuery) (th : Q)
    (snip cs : bool) (els : list CodeElement) :
  keywords query = [] -> (0 < th)%Q ->
  collectResults query th snip cs els = [].
Proof.
  intros Hk Hth. induction els as [|e r IH]; [reflexivity|].
  cbn [collectResults]. rewrite IH.
  rewrite (calculateScore_no_keywords e query cs Hk).
  destruct (Qle_bool th 0) eqn:Hle; [|reflexivity].
  apply Qle_bool_iff in Hle. exfalso. apply (Qlt_not_le _ _ Hth Hle).
Qed.

(** C6 (as amended).  A query text of white space only (the empty text
    included) parses to an empty keyword list and intent FIND_ALL;
    against a query with an empty keyword list every declaration scores
    0; and with a positive score threshold (the default 0.2 is one)
    [search] returns no result. *)
Theorem blank_query_no_results (queryText : string) (H : Host)
    (els : list CodeElement) (query : SearchQuery)
    (options : SearchOptions) :
  allSpace queryText = true ->
  keywords query = [] ->
  (0 < withDefault 0.2 (threshold options))%Q ->
  (keywords (parse queryText) = [] /\ intent (parse queryText) = FIND_ALL)
  /\ (forall (e : CodeElement) (cs : bool),
        calculateScore e query cs = 0%Q)
  /\ (forall out, search H els query options = Ok out -> out = [])
  /\ (withDefault [] (filePatterns options) = [] ->
      search H els query options = Ok []).
Proof.
  intros Hblank Hk Hth.
  split; [rewrite (parse_blank _ Hblank); split; reflexivity|].
  split; [intros e cs; apply (calculateScore_no_keywords e query cs Hk)|].
  unfold search.
  split.
  - intros out Hs.
    destruct (filterElements H els query _ _) as [cands|]; [|discriminate].
    rewrite (collectResults_no_keywords query _ _ _ cands Hk Hth) in Hs.
    cbn [sortBy fold_right] in Hs. rewrite slice0_nil in Hs.
    inversion Hs. reflexivity.
  - intros Hp. rewrite Hp.
    destruct (filterElements_no_patterns H els query
                (withDefault [] (languages options))) as [cands Hc].
    rewrite Hc.
    rewrite (collectResults_no_keywords query _ _ _ cands Hk Hth).
    cbn [sortBy fold_right]. rewrite slice0_nil. reflexivity.
Qed.

Lemma blank_query_no_results_witness :
  allSpace blankText = true
  /\ keywords (parse blankText) = []
  /\ intent (parse blankText) = FIND_ALL
  /\ search sampleHost sampleElements (parse blankText) noOptions = Ok [].
Proof.
  split; [reflexivity|].
  destruct (blank_query_no_results blankText sampleHost sampleElements
              (parse blankText) noOptions eq_refl eq_refl eq_refl)
    as ((Hk & Hi) & _ & _ & Hs).
  split; [exact Hk|]. split; [exact Hi|]. apply Hs. reflexivity.
Defined.

(** C6 as stated fails when the configured threshold is 0: the score 0
    of every declaration then reaches the threshold and the declarations
    are returned. *)
Lemma blank_query_counterexample :
  exists r rest,
    search sampleHost sampleElements (parse "   ") zeroThresholdOptions
    = Ok (r :: rest)
    /\ keywords (parse "   ") = []
    /\ element r = sendEmailFn
    /\ score r = 0%Q.
Proof.
  eexists. eexists. split; [vm_compute; reflexivity|].
  repeat split.
Qed.

(* ================================================================== *)
(** * Properties of the workspace index *)
(* ================================================================== *)

Local Open Scope list_scope.

(* ------------------------------------------------------------------ *)
(** *** The map operations *)

Lemma JsMap_get_set {V : Type} (k : string) (v : V) (m : JsMap.t V) :
  JsMap.get k (JsMap.set k v m) = Some v.
Proof.
  induction m as [|[k' v'] r IH]; simpl.
  - rewrite String.eqb_refl. reflexivity.
  - destruct (String.eqb k' k) eqn:Hk; simpl.
    + rewrite String.eqb_refl. reflexivity.
    + rewrite Hk. exact IH.
Qed.

Section MapValues.

Context {V W : Type}.
Variable g : V -> W.

Lemma mapValues_set (k : string) (v : V) (m : JsMap.t V) :
JsMap.mapValues g (JsMap.set k v m)
= JsMap.set k (g v) (JsMap.mapValues g m).
Proof.
induction m as [|[k' v'] r IH]; simpl; [reflexivity|].
destruct (String.eqb k' k); simpl; [reflexivity|].
rewrite <- IH. reflexivity.
Qed.

Lemma mapValues_delete (k : string) (m : JsMap.t V) :
JsMap.mapValues g (JsMap.delete k m)
= JsMap.delete k (JsMap.mapValues g m).
Proof.
induction m as [|[k' v'] r IH]; simpl; [reflexivity|].
destruct (String.eqb k' k); simpl; [reflexivity|].
rewrite <- IH. reflexivity.
Qed.

Lemma mapValues_keys (m : JsMap.t V) :
JsMap.keys (JsMap.mapValues g m) = JsMap.keys m.
Proof.
unfold JsMap.keys, JsMap.mapValues. rewrite map_map. reflexivity.
Qed.

Lemma mapValues_get (k : string) (m : JsMap.t V) :
JsMap.get k (JsMap.mapValues g m) = option_map g (JsMap.get k m).
Proof.
induction m as [|[k' v'] r IH]; simpl; [reflexivity|].
destruct (String.eqb k' k); [reflexivity|exact IH].
Qed.

Lemma mapValues_values (m : JsMap.t V) :
JsMap.values (JsMap.mapValues g m) = map g (JsMap.values m).
Proof.
unfold JsMap.values, JsMap.mapValues. rewrite !map_map. reflexivity.
Qed.

End MapValues.

(* ------------------------------------------------------------------ *)
(** *** [indexFile], case by case *)

(** A call of [indexFile] returns, in one of six ways. *)
Lemma indexFile_run (cfg : IndexerConfig) (w : World) (filePath : string)
    (s : Indexer) :
  indexFile cfg w filePath s =
  (Returned tt,
   match statSync w filePath with
   | Err e => logged s (indexError filePath e)
   | Ok stats =>
       if (maxFileSize cfg <? size stats)%Z
       then logged s ("Skipping large file: " ++ filePath)%string
       else
         match readFileSync w filePath with
         | Err e => logged s (indexError filePath e)
         | Ok content =>
             if sameHash (JsMap.get filePath (wi_files (index s)))
                  (fingerprint stats content)
             then s
             else
               match parseFile w filePath with
               | Err e => parseFailed s (indexError filePath e)
               | Ok parsedFile =>
                   stored s filePath stats (fingerprint stats content)
                     parsedFile
               end
         end
   end).
Proof.
  unfold indexFile, try_catch, bind, calculateFileHash, callParser,
    liftR, logLine, setIndex, gets, modify, ret, throw, bind.
  destruct (statSync w filePath) as [stats|e]; [|reflexivity].
  destruct (maxFileSize cfg <? size stats)%Z; [reflexivity|].
  destruct (readFileSync w filePath) as [content|e]; [|reflexivity].
  fold (fingerprint stats content).
  destruct (sameHash _ _); [destruct s; reflexivity|].
  destruct (parseFile w filePath) as [parsedFile|e]; reflexivity.
Qed.

Lemma indexFile_returns (cfg : IndexerConfig) (w : World)
    (filePath : string) (s : Indexer) :
  fst (indexFile cfg w filePath s) = Returned tt.
Proof. rewrite indexFile_run. reflexivity. Qed.

(** Indexing the same file twice in the same world: whatever the first
    call did, the second leaves the index as the first left it, and after
    a first call that stored a record the second does not call the
    parser. *)
Lemma indexFile_twice (cfg : IndexerConfig) (w : World) (filePath : string)
    (s : Indexer) :
  let s1 := snd (indexFile cfg w filePath s) in
  let s2 := snd (indexFile cfg w filePath s1) in
  index s2 = index s1
  /\ (forall parsedFile, parseFile w filePath = Ok parsedFile ->
      parseCalls s2 = parseCalls s1).
Proof.
  intros s1 s2. subst s2 s1. rewrite !indexFile_run. cbn [snd].
  destruct (statSync w filePath) as [stats|e]; [|split; [reflexivity|]].
  2:{ intros; reflexivity. }
  destruct (maxFileSize cfg <? size stats)%Z; [split; [reflexivity|intros; reflexivity]|].
  destruct (readFileSync w filePath) as [content|e];
    [|split; [reflexivity|intros; reflexivity]].
  destruct (sameHash (JsMap.get filePath (wi_files (index s))) _) eqn:Hsame.
  - rewrite Hsame. split; [reflexivity|intros; reflexivity].
  - destruct (parseFile w filePath) as [parsedFile|e].
    + assert (Hs : sameHash
                     (JsMap.get filePath
                        (wi_files
                           (index
                              (stored s filePath stats
                                 (fingerprint stats content) parsedFile))))
                     (fingerprint stats content) = true).
      { unfold stored. cbn [index wi_files]. rewrite JsMap_get_set.
        cbn [sameHash fi_hash]. apply String.eqb_refl. }
      rewrite Hs. split; [reflexivity|intros; reflexivity].
    + cbn [parseFailed index]. rewrite Hsame.
      split; [reflexivity|]. intros pf Hpf. discriminate.
Qed.

(** C7.  When the fingerprint stored for a path equals the fingerprint of
    the file as it is now, [indexFile] returns without calling the parser
    and leaves the index, the stored FileRecord included, as it was. *)
Theorem indexFile_unchanged_file (cfg : IndexerConfig) (w : World)
    (filePath : string) (s : Indexer) (record : FileIndex)
    (stats : Stats) (content : string) :
  JsMap.get filePath (wi_files (index s)) = Some record ->
  statSync w filePath = Ok stats ->
  readFileSync w filePath = Ok content ->
  fi_hash record = fingerprint stats content ->
  exists s',
    indexFile cfg w filePath s = (Returned tt, s')
    /\ parseCalls s' = parseCalls s
    /\ index s' = index s
    /\ JsMap.get filePath (wi_files (index s')) = Some record.
Proof.
  intros Hget Hstat Hread Hhash. rewrite indexFile_run.
  rewrite Hstat, Hread, Hget. unfold sameHash. rewrite Hhash.
  rewrite String.eqb_refl.
  destruct (maxFileSize cfg <? size stats)%Z;
    eexists; (split; [reflexivity|]); cbn [logged parseCalls index];
    repeat split; assumption.
Qed.

Lemma indexFile_unchanged_file_witness :
  exists record s',
    JsMap.get mailPath (wi_files (index indexedOnce)) = Some record
    /\ fi_elements record = [sendEmailFn]
    /\ parseCalls indexedOnce = 1%nat
    /\ indexFile sampleConfig sampleWorld mailPath indexedOnce
       = (Returned tt, s')
    /\ parseCalls s' = 1%nat
    /\ index s' = index indexedOnce.
Proof.
  eexists.
  destruct (indexFile_unchanged_file sampleConfig sampleWorld mailPath
              indexedOnce _ (mkStats 5 1000) "hello"%string
              eq_refl eq_refl eq_refl eq_refl)
    as (s' & Hrun & Hcalls & Hidx & _).
  exists s'. repeat split; assumption.
Defined.

(** C10.  When statting, reading or parsing the file throws, [indexFile]
    still returns normally, and both maps of the index, so the entries of
    the path in them, are what they were before the call. *)
Theorem indexFile_error_atomic (cfg : IndexerConfig) (w : World)
    (filePath : string) (s : Indexer) :
  (exists e, statSync w filePath = Err e)
  \/ (exists e, readFileSync w filePath = Err e)
  \/ (exists e, parseFile w filePath = Err e) ->
  exists s',
    indexFile cfg w filePath s = (Returned tt, s')
    /\ wi_files (index s') = wi_files (index s)
    /\ wi_elements (index s') = wi_elements (index s)
    /\ JsMap.get filePath (wi_files (index s'))
       = JsMap.get filePath (wi_files (index s))
    /\ JsMap.get filePath (wi_elements (index s'))
       = JsMap.get filePath (wi_elements (index s)).
Proof.
  intros Hfail. rewrite indexFile_run. eexists. split; [reflexivity|].
  assert (Hmaps :
    forall s1 : Indexer,
      wi_files (index s1) = wi_files (index s)
      /\ wi_elements (index s1) = wi_elements (index s) ->
      wi_files (index s1) = wi_files (index s)
      /\ wi_elements (index s1) = wi_elements (index s)
      /\ JsMap.get filePath (wi_files (index s1))
         = JsMap.get filePath (wi_files (index s))
      /\ JsMap.get filePath (wi_elements (index s1))
         = JsMap.get filePath (wi_elements (index s))).
  { intros s1 [Hf He]. rewrite Hf, He. repeat split. }
  apply Hmaps.
  destruct (statSync w filePath) as [stats|e1] eqn:Hstat;
    [|split; reflexivity].
  destruct (maxFileSize cfg <? size stats)%Z; [split; reflexivity|].
  destruct (readFileSync w filePath) as [content|e2] eqn:Hread;
    [|split; reflexivity].
  destruct (sameHash _ _); [split; reflexivity|].
  destruct (parseFile w filePath) as [parsedFile|e3] eqn:Hparse;
    [|split; reflexivity].
  destruct Hfail as [[e He]|[[e He]|[e He]]]; discriminate.
Qed.

Lemma indexFile_error_atomic_witness :
  exists s',
    indexFile sampleConfig brokenWorld mailPath indexedOnce
    = (Returned tt, s')
    /\ wi_files (index s') = wi_files (index indexedOnce)
    /\ wi_elements (index s') = wi_elements (index indexedOnce)
    /\ JsMap.get mailPath (wi_elements (index s')) = Some [sendEmailFn].
Proof.
  destruct (indexFile_error_atomic sampleConfig brokenWorld mailPath
              indexedOnce
              (or_introl (ex_intro _ "EACCES: permission denied"%string
                            eq_refl)))
    as (s' & Hrun & Hf & He & _ & Hge).
  exists s'. split; [exact Hrun|]. split; [exact Hf|].
  split; [exact He|]. rewrite Hge. reflexivity.
Defined.

(* ------------------------------------------------------------------ *)
(** *** The two maps of the index stay in step *)

Lemma synced_new (t : Z) : synced (index (newIndexer t)).
Proof. reflexivity. Qed.

Lemma synced_indexFile (cfg : IndexerConfig) (w : World)
    (filePath : string) (s : Indexer) :
  synced (index s) -> synced (index (snd (indexFile cfg w filePath s))).
Proof.
  intros Hs. rewrite indexFile_run. cbn [snd].
  destruct (statSync w filePath) as [stats|e]; [|exact Hs].
  destruct (maxFileSize cfg <? size stats)%Z; [exact Hs|].
  destruct (readFileSync w filePath) as [content|e]; [|exact Hs].
  destruct (sameHash _ _); [exact Hs|].
  destruct (parseFile w filePath) as [parsedFile|e]; [|exact Hs].
  unfold synced, stored in *. cbn [index wi_files wi_elements].
  rewrite mapValues_set, Hs. reflexivity.
Qed.

Lemma synced_removeFile (filePath : string) (s : Indexer) :
  synced (index s) -> synced (index (snd (removeFile filePath s))).
Proof.
  unfold synced, removeFile, setIndex, modify. intros Hs.
  cbn [snd index wi_files wi_elements].
  rewrite mapValues_delete, Hs. reflexivity.
Qed.

Lemma synced_runOps (cfg : IndexerConfig) (ops : list Op) (s : Indexer) :
  synced (index s) -> synced (index (runOps cfg ops s)).
Proof.
  revert s. induction ops as [|op rest IH]; intros s Hs; [exact Hs|].
  cbn [runOps]. apply IH. destruct op as [w p|p]; cbn [runOp].
  - apply synced_indexFile. exact Hs.
  - apply synced_removeFile. exact Hs.
Qed.

Lemma getAllElements_length_from (l : list (list CodeElement))
    (acc : list CodeElement) :
  List.length
    (fold_left (fun allElements els => (allElements ++ els)%list) l acc)
  = (List.length acc + list_sum (map (@List.length CodeElement) l))%nat.
Proof.
  revert acc. induction l as [|els r IH]; intros acc; simpl; [lia|].
  rewrite IH, length_app. lia.
Qed.

Lemma statistics_total_from (l : list FileIndex) (total : nat)
    (byLanguage : JsMap.t nat) :
  fst (fold_left statisticsStep l (total, byLanguage))
  = (total
     + list_sum (map (fun fi => List.length (fi_elements fi)) l))%nat.
Proof.
  revert total byLanguage.
  induction l as [|fi r IH]; intros total byLanguage; simpl; [lia|].
  rewrite IH. lia.
Qed.

Lemma getStatistics_total (s : Indexer) :
  totalElements (getStatistics s)
  = list_sum
      (map (fun fi => List.length (fi_elements fi))
         (JsMap.values (wi_files (index s)))).
Proof.
  unfold getStatistics.
  pose proof (statistics_total_from (JsMap.values (wi_files (index s)))
                0 JsMap.empty) as Ht.
  destruct (fold_left statisticsStep _ _) as [total byLanguage].
  cbn [fst] in Ht. cbn [totalElements]. rewrite Ht. lia.
Qed.

(** C8.  After any sequence of [indexFile] and [removeFile] calls on a
    new indexer, the FileRecord map and the declaration map have the same
    keys (in the same order), the declaration list kept for a path is
    that of its FileRecord, and the total of [getStatistics] is the
    length of [getAllElements]. *)
Theorem index_maps_in_sync (cfg : IndexerConfig) (t : Z) (ops : list Op) :
  let s := runOps cfg ops (newIndexer t) in
  JsMap.keys (wi_files (index s)) = JsMap.keys (wi_elements (index s))
  /\ (forall filePath : string,
        JsMap.get filePath (wi_elements (index s))
        = option_map fi_elements (JsMap.get filePath (wi_files (index s))))
  /\ totalElements (getStatistics s) = List.length (getAllElements s).
Proof.
  intros s.
  assert (Hs : synced (index s))
    by (apply synced_runOps; apply synced_new).
  unfold synced in Hs. split; [|split].
  - rewrite Hs, mapValues_keys. reflexivity.
  - intros filePath. rewrite Hs. apply mapValues_get.
  - rewrite getStatistics_total. unfold getAllElements.
    rewrite getAllElements_length_from, Hs, mapValues_values.
    rewrite map_map. reflexivity.
Qed.

(* ------------------------------------------------------------------ *)
(** *** [indexWorkspace] absorbs every failure *)

Section Discovery.

Variable H : Host.
Variable cfg : IndexerConfig.

Lemma traverse_returns (dir : string) (node : FsNode) (d : Discovery) :
  fst (traverse H cfg dir node d) = Returned tt.
Proof.
  destruct node; cbn [traverse]; unfold try_catch, throw;
    try reflexivity.
  destruct (traverseItems H cfg dir items d) as [[[]|e] d'];
    reflexivity.
Qed.

(** At a root that cannot be listed the traversal finds nothing and
    writes one line. *)
Lemma traverse_unreadable (dir : string) (node : FsNode) (d : Discovery) :
  match node with FsDir _ => false | _ => true end = true ->
  exists line,
    traverse H cfg dir node d
    = (Returned tt, mkDiscovery (found d) (dconsole d ++ [line])).
Proof.
  destruct node; intros Hn; try discriminate;
    cbn [traverse]; unfold try_catch, throw, logDiscovery, modify;
    eexists; reflexivity.
Qed.

Lemma forEach_indexFile_returns (w : World) (files : list string)
    (s : Indexer) :
  fst (forEachM (indexFile cfg w) files s) = Returned tt.
Proof.
  revert s. induction files as [|f r IH]; intros s; [reflexivity|].
  cbn [forEachM]. unfold bind. rewrite indexFile_run. apply IH.
Qed.

Lemma indexWorkspace_returns (w : World) (rootPath : string)
    (s : Indexer) :
  exists s', indexWorkspace H cfg w rootPath s = (Returned tt, s').
Proof.
  unfold indexWorkspace, bind, findCodeFiles.
  pose proof (traverse_returns rootPath (rootNode w)
                (mkDiscovery [] (console s))) as Ht.
  destruct (traverse H cfg rootPath (rootNode w) _) as [out d].
  cbn [fst] in Ht. subst out.
  set (s1 := mkIndexer (index s) (fileWatcher s) (dconsole d)
               (parseCalls s)).
  pose proof (forEach_indexFile_returns w (found d) s1) as Hf.
  destruct (forEachM (indexFile cfg w) (found d) s1) as [out s2].
  cbn [fst] in Hf. subst out.
  destruct (watchFiles cfg);
    unfold setupFileWatcher, setIndex, modify, ret;
    eexists; reflexivity.
Qed.

Lemma indexWorkspace_unreadable_root (w : World) (rootPath : string)
    (s : Indexer) :
  rootUnreadable w = true ->
  exists line,
    indexWorkspace H cfg w rootPath s
    = (Returned tt,
       mkIndexer
         (mkWorkspaceIndex (wi_files (index s)) (wi_elements (index s))
            (now w))
         (if watchFiles cfg then true else fileWatcher s)
         (console s ++ [line]) (parseCalls s)).
Proof.
  intros Hroot. unfold rootUnreadable in Hroot.
  destruct (traverse_unreadable rootPath (rootNode w)
              (mkDiscovery [] (console s)) Hroot) as [line Ht].
  exists line.
  unfold indexWorkspace, bind, findCodeFiles. rewrite Ht.
  cbn [found dconsole forEachM]. unfold ret.
  destruct (watchFiles cfg);
    unfold setupFileWatcher, setIndex, modify, ret; reflexivity.
Qed.

End Discovery.

(* ================================================================== *)
(** * Further properties of the ranking engine *)
(* ================================================================== *)

Local Open Scope Q_scope.
Local Open Scope list_scope.

(* ------------------------------------------------------------------ *)
(** *** What the filters of [search] let through *)

Lemma filterR_In {A : Type} (p : A -> result bool) (l l' : list A) (x : A) :
  filterR p l = Ok l' -> In x l' -> In x l /\ p x = Ok true.
Proof.
  revert l'. induction l as [|y r IH]; simpl; intros l' Hf Hx.
  - inversion Hf; subst. destruct Hx.
  - destruct (p y) as [b|] eqn:Hp; [|discriminate].
    destruct (filterR p r) as [r'|]; [|discriminate].
    inversion Hf; subst. destruct b.
    + destruct Hx as [->|Hx]; [split; [left; reflexivity|exact Hp]|].
      destruct (IH r' eq_refl Hx) as [Hin Hpx]. split; [right|]; assumption.
    + destruct (IH r' eq_refl Hx) as [Hin Hpx]. split; [right|]; assumption.
Qed.

(** An element that passes [filterElements] is one of the elements
    given, of a requested kind when kinds are requested, and in a file
    whose path ends with a dot and the name of a requested language when
    languages are requested. *)
Lemma filterElements_In (H : Host) (els : list CodeElement)
    (query : SearchQuery) (langs : list Language) (pats : list string)
    (cands : list CodeElement) (e : CodeElement) :
  filterElements H els query langs pats = Ok cands ->
  In e cands ->
  In e els
  /\ (elementTypes query <> [] ->
      type_mem (type e) (elementTypes query) = true)
  /\ (langs <> [] ->
      existsb
        (fun lang =>
           endsWith (filePath e) ("." ++ Language_value lang)%string)
        langs = true)
  /\ (pats <> [] ->
      someR (fun pattern => matchesPattern H (filePath e) pattern) pats
      = Ok true).
Proof.
  unfold filterElements. intros Hf He.
  set (f1 := if (0 <? List.length (elementTypes query))%nat
             then filter (fun e0 => type_mem (type e0) (elementTypes query))
                    els
             else els) in *.
  set (f2 := if (0 <? List.length langs)%nat
             then filter
                    (fun e0 =>
                       existsb
                         (fun lang =>
                            endsWith (filePath e0)
                              ("." ++ Language_value lang)%string) langs)
                    f1
             else f1) in *.
  assert (H3 : In e f2
               /\ (pats <> [] ->
                   someR (fun pattern => matchesPattern H (filePath e) pattern)
                     pats = Ok true)).
  { destruct pats as [|p ps].
    - cbn in Hf. inversion Hf; subst. split; [exact He|]. intros Hn.
      contradiction.
    - cbn [List.length Nat.ltb Nat.leb] in Hf.
      destruct (filterR_In _ _ _ _ Hf He) as [Hin Hp].
      split; [exact Hin|]. intros _. exact Hp. }
  destruct H3 as [Hin2 Hpat].
  assert (H2 : In e f1
               /\ (langs <> [] ->
                   existsb
                     (fun lang =>
                        endsWith (filePath e)
                          ("." ++ Language_value lang)%string) langs = true)).
  { unfold f2 in Hin2. destruct langs as [|l ls].
    - cbn in Hin2. split; [exact Hin2|]. intros Hn. contradiction.
    - cbn [List.length Nat.ltb Nat.leb] in Hin2.
      apply filter_In in Hin2. destruct Hin2 as [Hin Hl].
      split; [exact Hin|]. intros _. exact Hl. }
  destruct H2 as [Hin1 Hlang].
  assert (H1 : In e els
               /\ (elementTypes query <> [] ->
                   type_mem (type e) (elementTypes query) = true)).
  { unfold f1 in Hin1. destruct (elementTypes query) as [|t ts].
    - cbn in Hin1. split; [exact Hin1|]. intros Hn. contradiction.
    - cbn [List.length Nat.ltb Nat.leb] in Hin1.
      apply filter_In in Hin1. destruct Hin1 as [Hin Ht].
      split; [exact Hin|]. intros _. exact Ht. }
  destruct H1 as [Hin0 Htype].
  repeat split; assumption.
Qed.

(** Every result built by the scoring loop records how its element was
    scored and described. *)
Lemma collectResults_shape (query : SearchQuery) (th : Q) (snip cs : bool)
    (els : list CodeElement) (r : SearchResult) :
  In r (collectResults query th snip cs els) ->
  In (element r) els
  /\ score r = calculateScore (element r) query cs
  /\ th <= score r
  /\ snippet r = (if snip then generateSnippet (element r) else EmptyString)
  /\ matchedKeywords r
     = getMatchedKeywords (element r) (keywords query) cs
  /\ relevanceReason r
     = getRelevanceReason (element r) query (matchedKeywords r).
Proof.
  induction els as [|e rest IH]; cbn [collectResults]; [intros []|].
  destruct (Qle_bool th (calculateScore e query cs)) eqn:Hq.
  - intros [<-|Hr].
    + cbn. apply Qle_bool_iff in Hq. repeat split; auto.
    + destruct (IH Hr) as (Hin & Hrest). split; [right; exact Hin|exact Hrest].
  - intros Hr. destruct (IH Hr) as (Hin & Hrest).
    split; [right; exact Hin|exact Hrest].
Qed.

(** The results of [search] are results of the scoring loop over the
    filtered elements. *)
Lemma search_results_from (H : Host) (els : list CodeElement)
    (query : SearchQuery) (options : SearchOptions)
    (out : list SearchResult) (r : SearchResult) :
  search H els query options = Ok out -> In r out ->
  exists cands,
    filterElements H els query (withDefault [] (languages options))
      (withDefault [] (filePatterns options)) = Ok cands
    /\ In r (collectResults query (withDefault 0.2 (threshold options))
               (withDefault true (includeSnippets options))
               (withDefault false (caseSensitive options)) cands).
Proof.
  unfold search. intros Hs Hr.
  destruct (filterElements H els query _ _) as [cands|]; [|discriminate].
  exists cands. split; [reflexivity|].
  inversion Hs; subst out. clear Hs.
  destruct (slice0_firstn
              (sortBy byScoreDesc
                 (collectResults query (withDefault 0.2 (threshold options))
                    (withDefault true (includeSnippets options))
                    (withDefault false (caseSensitive options)) cands))
              (withDefault 50%Z (maxResults options))) as [k Hk].
  rewrite Hk in Hr. apply In_firstn in Hr.
  apply (Permutation_in _ (sortBy_perm byScoreDesc _)) in Hr. exact Hr.
Qed.

(** X1.  Every result of [search] carries one of the elements searched;
    when the query requests kinds the element is of a requested kind, and
    when languages are requested its file path ends with a dot and the
    name of one of them. *)
Theorem search_results_filtered (H : Host) (els : list CodeElement)
    (query : SearchQuery) (options : SearchOptions)
    (out : list SearchResult) (r : SearchResult) :
  search H els query options = Ok out ->
  In r out ->
  In (element r) els
  /\ (elementTypes query <> [] ->
      type_mem (type (element r)) (elementTypes query) = true)
  /\ (withDefault [] (languages options) <> [] ->
      existsb
        (fun lang =>
           endsWith (filePath (element r))
             ("." ++ Language_value lang)%string)
        (withDefault [] (languages options)) = true).
Proof.
  intros Hs Hr.
  destruct (search_results_from H els query options out r Hs Hr)
    as (cands & Hf & Hc).
  apply collectResults_shape in Hc. destruct Hc as (Hin & _).
  destruct (filterElements_In H els query _ _ cands (element r) Hf Hin)
    as (Hels & Htype & Hlang & _).
  repeat split; assumption.
Qed.

(* ------------------------------------------------------------------ *)
(** *** When the score is zero *)

Lemma spec_contribution_found (cs : bool) (e : CodeElement) (k : string) :
  spec_found cs e k = true -> 0.3 <= spec_contribution cs e k.
Proof.
  unfold spec_found, spec_contribution. intros Hf.
  destruct (includes (normalize cs (name e)) (normalize cs k)).
  - pose proof (spec_nameMatchScore_bounds (normalize cs (name e))
                  (normalize cs k)) as [Hlo _].
    unfold spec_nameMatchScore in *.
    destruct (String.eqb _ _); [lra|].
    destruct (startsWith _ _); [lra|].
    destruct (endsWith _ _); lra.
  - destruct (includes (normalize cs (orEmpty (signature e)))
                (normalize cs k)); [lra|].
    destruct (includes (normalize cs (orEmpty (description e)))
                (normalize cs k)); [lra|discriminate].
Qed.

Lemma spec_baseScore_pos (cs : bool) (e : CodeElement) (kws : list string) :
  (0 < spec_matchedCount cs e kws)%nat -> 0 < spec_baseScore cs e kws.
Proof.
  unfold spec_matchedCount.
  induction kws as [|k r IH]; cbn [filter spec_baseScore List.length].
  - intros Hlt. inversion Hlt.
  - pose proof (spec_contribution_bounds cs e k) as [Hlo _].
    pose proof (spec_baseScore_bounds cs e r) as [Hrlo _].
    destruct (spec_found cs e k) eqn:Hf.
    + intros _. pose proof (spec_contribution_found cs e k Hf). lra.
    + intros Hlt. specialize (IH Hlt). lra.
Qed.

Lemma spec_finalScore_pos (e : CodeElement) (query : SearchQuery)
    (cs : bool) :
  (0 < spec_matchedCount cs e (uniq (keywords query)))%nat ->
  0 < spec_finalScore e query cs.
Proof.
  intros Hm. unfold spec_finalScore, spec_completeness.
  set (kws := uniq (keywords query)) in *.
  pose proof (spec_matchedCount_le cs e kws) as Hle.
  pose proof (spec_baseScore_pos cs e kws Hm) as Hb.
  pose proof (spec_intentBonus_bounds e query) as [Hbl _].
  pose proof (Q_of_nat_pos _ Hm) as Hmq.
  assert (Hnq : 0 < Q_of_nat (List.length kws))
    by (apply Q_of_nat_pos; lia).
  set (c := Q_of_nat (spec_matchedCount cs e kws)
            / Q_of_nat (List.length kws)).
  assert (Hc : 0 < c).
  { unfold c. apply Qlt_shift_div_l; [exact Hnq|]. lra. }
  assert (Hcc : 0 < c * c) by nra.
  assert (Hp : 0 < spec_baseScore cs e kws * (c * c)) by nra.
  apply Q.min_glb_lt; [|lra].
  apply Qlt_shift_div_l; [lra|]. lra.
Qed.

Lemma calculateScore_zero_cutOff (e : CodeElement) (query : SearchQuery)
    (cs : bool) :
  calculateScore e query cs == 0 <-> cutOff e query cs = true.
Proof.
  rewrite calculateScore_cases.
  destruct (cutOff e query cs) eqn:Hc.
  - split; [reflexivity|intros _; reflexivity].
  - split; [|discriminate]. intros Hz. exfalso.
    unfold cutOff in Hc. apply orb_false_iff in Hc. destruct Hc as [Hm _].
    apply Nat.eqb_neq in Hm.
    assert (Hpos : (0 < spec_matchedCount cs e (uniq (keywords query)))%nat)
      by lia.
    pose proof (spec_finalScore_pos e query cs Hpos) as Hp.
    rewrite Hz in Hp. apply (Qlt_irrefl 0 Hp).
Qed.

(** X2.  The score is 0 exactly when no keyword matched or when several
    keywords were requested and fewer than half matched; every other
    declaration has a positive score. *)
Theorem calculateScore_zero_iff (e : CodeElement) (query : SearchQuery)
    (cs : bool) :
  (calculateScore e query cs == 0 <-> cutOff e query cs = true)
  /\ (cutOff e query cs = false -> 0 < calculateScore e query cs).
Proof.
  split; [apply calculateScore_zero_cutOff|].
  intros Hc. rewrite calculateScore_cases, Hc.
  apply spec_finalScore_pos.
  unfold cutOff in Hc. apply orb_false_iff in Hc. destruct Hc as [Hm _].
  apply Nat.eqb_neq in Hm. lia.
Qed.

(* ------------------------------------------------------------------ *)
(** *** The matched keywords shown with a result *)

Section Strings.

Local Open Scope string_scope.

Lemma append_assoc (a b c : string) : (a ++ b) ++ c = a ++ (b ++ c).
Proof. induction a as [|x a IH]; simpl; [reflexivity|rewrite IH; reflexivity]. Qed.

Lemma append_nil_r (a : string) : a ++ "" = a.
Proof. induction a as [|x a IH]; simpl; [reflexivity|rewrite IH; reflexivity]. Qed.

Lemma toLowerCase_app (a b : string) :
  toLowerCase (a ++ b) = toLowerCase a ++ toLowerCase b.
Proof.
  induction a as [|x a IH]; simpl; [reflexivity|rewrite IH; reflexivity].
Qed.

Lemma normalize_app (cs : bool) (a b : string) :
  normalize cs (a ++ b) = normalize cs a ++ normalize cs b.
Proof. destruct cs; [reflexivity|apply toLowerCase_app]. Qed.

Lemma includes_app (a s b k : string) :
  includes s k = true -> includes (a ++ s ++ b) k = true.
Proof.
  rewrite !includes_spec. intros (x & y & Hs).
  exists (a ++ x), (y ++ b). rewrite Hs.
  rewrite !append_assoc. reflexivity.
Qed.

(** A part of a joined text is found inside it. *)
Lemma join_part (sep : string) (parts : list string) (p : string) :
  In p parts -> exists a b, join sep parts = a ++ p ++ b.
Proof.
  induction parts as [|q rest IH]; [intros []|].
  intros Hin. destruct rest as [|q' rest'].
  - destruct Hin as [Heq|[]]. subst q. exists "", "". cbn [join append].
    symmetry. apply append_nil_r.
  - change (join sep (q :: q' :: rest'))
      with (q ++ sep ++ join sep (q' :: rest')).
    destruct Hin as [->|Hin].
    + exists "", (sep ++ join sep (q' :: rest')). reflexivity.
    + destruct (IH Hin) as (a & b & Hab).
      exists (q ++ sep ++ a), b. rewrite Hab.
      rewrite !append_assoc. reflexivity.
Qed.

End Strings.

Lemma matched_covers_found (e : CodeElement) (kws : list string)
    (cs : bool) :
  Subseq (getMatchedKeywords e kws cs) kws
  /\ forall k, In k kws -> spec_found cs e k = true ->
               In k (getMatchedKeywords e kws cs).
Proof.
  unfold getMatchedKeywords. split; [apply Subseq_filter|].
  intros k Hin Hf. apply filter_In. split; [exact Hin|].
  set (parts := name e :: orEmpty (description e) :: orEmpty (signature e)
                :: match parameters e with
                   | Some ps => map param_name ps
                   | None => []
                   end).
  assert (Hpart : forall p, In p parts ->
            includes (normalize cs p) (normalize cs k) = true ->
            includes (normalize cs (join " " parts)) (normalize cs k) = true).
  { intros p Hp Hinc. destruct (join_part " " parts p Hp) as (a & b & Hj).
    rewrite Hj, !normalize_app. apply includes_app. exact Hinc. }
  unfold spec_found in Hf.
  apply orb_true_iff in Hf. destruct Hf as [Hf|Hd].
  - apply orb_true_iff in Hf. destruct Hf as [Hn|Hs].
    + apply (Hpart (name e)); [left; reflexivity|exact Hn].
    + apply (Hpart (orEmpty (signature e)));
        [right; right; left; reflexivity|exact Hs].
  - apply (Hpart (orEmpty (description e)));
      [right; left; reflexivity|exact Hd].
Qed.

(** X3.  The matched keywords shown for a declaration are keywords of
    the query in their order, and every keyword of the query that the
    scorer finds in the name, the signature or the description of the
    declaration is among them. *)
Theorem getMatchedKeywords_covers_scoring (e : CodeElement)
    (kws : list string) (cs : bool) :
  Subseq (getMatchedKeywords e kws cs) kws
  /\ forall k, In k kws -> spec_found cs e k = true ->
               In k (getMatchedKeywords e kws cs).
Proof.
  destruct (matched_covers_found e kws cs) as [Hsub Hcov].
  split; [exact Hsub|]. intros k Hin Hf. apply Hcov; assumption.
Qed.




(* ------------------------------------------------------------------ *)
(** *** Queries of one keyword: the field decides the order *)

Lemma Qmin_lt_mono (x y : Q) : x < y -> x < 1 -> Qmin x 1 < Qmin y 1.
Proof.
  intros Hxy Hx1.
  apply Q.min_glb_lt.
  - eapply Qle_lt_trans; [apply Q.le_min_l|exact Hxy].
  - eapply Qle_lt_trans; [apply Q.le_min_l|exact Hx1].
Qed.

Lemma single_keyword_score (e : CodeElement) (query : SearchQuery)
    (cs : bool) (k : string) :
  uniq (keywords query) = [k] ->
  calculateScore e query cs
  == if spec_found cs e k
     then Qmin ((spec_contribution cs e k + spec_intentBonus e query) / 2.45) 1
     else 0.
Proof.
  intros Hk. rewrite calculateScore_cases.
  unfold cutOff, spec_finalScore, spec_completeness, spec_matchedCount.
  rewrite Hk. cbn [filter spec_baseScore List.length].
  destruct (spec_found cs e k); cbn [List.length Nat.eqb Nat.ltb Nat.leb orb andb].
  - assert (Heq :
      (spec_contribution cs e k + 0)
        * (Q_of_nat 1 / Q_of_nat 1 * (Q_of_nat 1 / Q_of_nat 1))
        + spec_intentBonus e query
      == spec_contribution cs e k + spec_intentBonus e query).
    { change (Q_of_nat 1) with 1. field. }
    assert (Hd : Q_of_nat 1 * 1.5 * 1.5 + 0.2 == 2.45)
      by (change (Q_of_nat 1) with 1; reflexivity).
    rewrite Heq, Hd.
    apply Q.min_compat; reflexivity.
  - reflexivity.
Qed.

Lemma matchField_found (cs : bool) (e : CodeElement) (k : string) :
  spec_found cs e k = negb (matchField cs e k =? 0)%nat.
Proof.
  unfold spec_found, matchField.
  destruct (includes (normalize cs (name e)) (normalize cs k));
    [reflexivity|].
  destruct (includes (normalize cs (orEmpty (signature e)))
              (normalize cs k)); [reflexivity|].
  destruct (includes (normalize cs (orEmpty (description e)))
              (normalize cs k)); reflexivity.
Qed.

Lemma matchField_le (cs : bool) (e : CodeElement) (k : string) :
  (matchField cs e k <= 3)%nat.
Proof.
  unfold matchField.
  repeat match goal with
         | |- ((if ?b then _ else _) <= _)%nat => destruct b
         end; lia.
Qed.

(** What a keyword contributes, by the field it is found in. *)
Lemma matchField_contribution (cs : bool) (e : CodeElement) (k : string) :
  match matchField cs e k with
  | 0%nat => spec_contribution cs e k == 0
  | 1%nat => spec_contribution cs e k == 0.3
  | 2%nat => spec_contribution cs e k == 0.6
  | _ => 0.9 <= spec_contribution cs e k
  end.
Proof.
  unfold matchField, spec_contribution.
  destruct (includes (normalize cs (name e)) (normalize cs k)).
  - unfold spec_nameMatchScore.
    destruct (String.eqb _ _); [lra|].
    destruct (startsWith _ _); [lra|].
    destruct (endsWith _ _); lra.
  - destruct (includes (normalize cs (orEmpty (signature e)))
                (normalize cs k)); [reflexivity|].
    destruct (includes (normalize cs (orEmpty (description e)))
                (normalize cs k)); reflexivity.
Qed.

(** X5.  For a query of one keyword the field in which the keyword is
    found decides the order of two declarations, whatever their kinds: a
    match in the name scores strictly higher than a match in the
    signature only, that one strictly higher than a match in the
    description only, and that one strictly higher than no match. *)
Theorem single_keyword_field_order (a b : CodeElement)
    (query : SearchQuery) (cs : bool) (k : string) :
  uniq (keywords query) = [k] ->
  (matchField cs b k < matchField cs a k)%nat ->
  calculateScore b query cs < calculateScore a query cs.
Proof.
  intros Hk Hlt.
  rewrite (single_keyword_score a query cs k Hk),
          (single_keyword_score b query cs k Hk).
  rewrite !matchField_found.
  pose proof (matchField_contribution cs a k) as Ha.
  pose proof (matchField_contribution cs b k) as Hb.
  pose proof (spec_intentBonus_bounds a query) as [Hal Hah].
  pose proof (spec_intentBonus_bounds b query) as [Hbl Hbh].
  pose proof (spec_contribution_bounds cs a k) as [_ Hamax].
  pose proof (matchField_le cs a k) as Hale.
  pose proof (matchField_le cs b k) as Hble.
  assert (Hbound : forall x y : Q, x < y -> x < 2.45 ->
             Qmin (x / 2.45) 1 < Qmin (y / 2.45) 1).
  { intros x y Hxy Hx. apply Qmin_lt_mono.
    - unfold Qdiv. apply Qmult_lt_compat_r; [reflexivity|exact Hxy].
    - apply Qlt_shift_div_r; lra. }
  assert (Hposmin : forall x : Q, 0 < x -> 0 < Qmin (x / 2.45) 1).
  { intros x Hx. apply Q.min_glb_lt; [|lra].
    apply Qlt_shift_div_l; lra. }
  destruct (matchField cs a k) as [|[|[|fa]]];
    destruct (matchField cs b k) as [|[|[|fb]]]; try lia;
    cbn [Nat.eqb negb];
    try (apply Hposmin; lra);
    try (apply Hbound; lra).
Qed.

(* ------------------------------------------------------------------ *)
(** *** Case *)

Lemma lowerChar_idem (c : ascii) : lowerChar (lowerChar c) = lowerChar c.
Proof.
  destruct c as [[] [] [] [] [] [] [] []]; vm_compute; reflexivity.
Qed.

Lemma toLowerCase_idem (s : string) :
  toLowerCase (toLowerCase s) = toLowerCase s.
Proof.
  induction s as [|c r IH]; simpl; [reflexivity|].
  rewrite lowerChar_idem, IH. reflexivity.
Qed.

Lemma calculateScore_lowerCased (e : CodeElement) (query : SearchQuery) :
  calculateScore (lowerCased e) query false = calculateScore e query false.
Proof.
  unfold calculateScore, scoreLoop, addTypeBonus, lowerCased, normalize.
  cbn [name signature description type].
  rewrite toLowerCase_idem.
  assert (Ho : forall o : option string,
            toLowerCase (orEmpty (option_map toLowerCase o))
            = toLowerCase (orEmpty o)).
  { intros [s|]; cbn; [apply toLowerCase_idem|reflexivity]. }
  rewrite !Ho. reflexivity.
Qed.

(** X6.  Without the case-sensitive option the score does not depend on
    the case of the declaration's name, signature and description: a
    declaration scores what its lower-case form scores, so two
    declarations that differ in the case of these fields only have the
    same score. *)
Theorem calculateScore_ignores_case (e : CodeElement)
    (query : SearchQuery) :
  calculateScore (lowerCased e) query false = calculateScore e query false
  /\ forall e' : CodeElement,
       lowerCased e' = lowerCased e ->
       calculateScore e' query false = calculateScore e query false.
Proof.
  split; [apply calculateScore_lowerCased|].
  intros e' Heq.
  rewrite <- (calculateScore_lowerCased e' query), Heq.
  apply calculateScore_lowerCased.
Qed.

(* ------------------------------------------------------------------ *)
(** *** The statistics of the search engine *)

Lemma JsMap_get_set_ne {V : Type} (k k' : string) (v : V) (m : JsMap.t V) :
  k' <> k -> JsMap.get k' (JsMap.set k v m) = JsMap.get k' m.
Proof.
  intros Hne. induction m as [|[k0 v0] r IH]; simpl.
  - destruct (String.eqb k k') eqn:Hk; [|reflexivity].
    apply String.eqb_eq in Hk. congruence.
  - destruct (String.eqb k0 k) eqn:H0; simpl.
    + apply String.eqb_eq in H0. subst k0.
      destruct (String.eqb k k') eqn:Hk; [|reflexivity].
      apply String.eqb_eq in Hk. congruence.
    + destruct (String.eqb k0 k'); [reflexivity|exact IH].
Qed.

(** Adding [c] to the counter kept under a key adds [c] to the sum of
    all counters. *)
Lemma JsMap_bump_sum (k : string) (c : nat) (m : JsMap.t nat) :
  list_sum
    (JsMap.values
       (JsMap.set k
          (match JsMap.get k m with Some n => n | None => 0 end + c)%nat m))
  = (list_sum (JsMap.values m) + c)%nat.
Proof.
  unfold JsMap.values.
  induction m as [|[k0 v0] r IH]; cbn [JsMap.get JsMap.set]; [simpl; lia|].
  destruct (String.eqb k0 k); cbn [map snd list_sum fold_right] in *;
    [lia|].
  unfold list_sum in *. rewrite IH. lia.
Qed.

Lemma str_mem_app_one (y x : string) (l : list string) :
  str_mem y (l ++ [x]) = str_mem y (x :: l).
Proof.
  unfold str_mem. rewrite existsb_app. simpl.
  rewrite orb_false_r. apply orb_comm.
Qed.

Lemma uniq_from_ext (s1 s2 l : list string) :
  (forall y, str_mem y s1 = str_mem y s2) ->
  uniq_from s1 l = uniq_from s2 l.
Proof.
  revert s1 s2. induction l as [|x r IH]; intros s1 s2 Hs; [reflexivity|].
  cbn [uniq_from]. rewrite (Hs x).
  destruct (str_mem x s2); [apply IH; exact Hs|].
  f_equal. apply IH. intros y. unfold str_mem in *. simpl.
  rewrite (Hs y). reflexivity.
Qed.

(** The [Set] filled by a loop holds the values seen, each once, in the
    order of their first occurrence. *)
Lemma setAdd_fold (paths files : list string) :
  fold_left (fun fs p => setAdd p fs) paths files
  = files ++ uniq_from files paths.
Proof.
  revert files. induction paths as [|x r IH]; intros files.
  - simpl. rewrite app_nil_r. reflexivity.
  - cbn [fold_left uniq_from]. unfold setAdd at 2.
    destruct (str_mem x files).
    + apply IH.
    + rewrite IH, <- app_assoc. cbn [app]. f_equal. f_equal.
      apply uniq_from_ext. intros y. apply str_mem_app_one.
Qed.

Lemma engineStatistics_fold (els : list CodeElement)
    (byType : JsMap.t nat) (files : list string) :
  snd (fold_left engineStatisticsStep els (byType, files))
  = fold_left (fun fs p => setAdd p fs) (map filePath els) files
  /\ list_sum
       (JsMap.values (fst (fold_left engineStatisticsStep els
                             (byType, files))))
     = (list_sum (JsMap.values byType) + List.length els)%nat.
Proof.
  revert byType files.
  induction els as [|e r IH]; intros byType files;
    [simpl; split; [reflexivity|lia]|].
  cbn [fold_left map List.length]. unfold engineStatisticsStep at 2 4.
  destruct (IH (JsMap.set (ElementType_value (type e))
                  (match JsMap.get (ElementType_value (type e)) byType with
                   | Some n => n
                   | None => 0
                   end + 1)%nat byType)
               (setAdd (filePath e) files)) as [Hs Hsum].
  split; [exact Hs|]. rewrite Hsum, JsMap_bump_sum. lia.
Qed.

Lemma ElementType_value_inj (a b : ElementType) :
  ElementType_value a = ElementType_value b -> a = b.
Proof. destruct a, b; intros Hv; try reflexivity; discriminate. Qed.

Lemma engineStatistics_counts (t : ElementType) (els : list CodeElement)
    (byType : JsMap.t nat) (files : list string) :
  JsMap.get (ElementType_value t)
    (fst (fold_left engineStatisticsStep els (byType, files)))
  = match JsMap.get (ElementType_value t) byType with
    | Some n => Some (n + countOfType t els)%nat
    | None => if (countOfType t els =? 0)%nat then None
              else Some (countOfType t els)
    end.
Proof.
  revert byType files.
  induction els as [|e r IH]; intros byType files.
  - cbn. destruct (JsMap.get _ byType); [f_equal; lia|reflexivity].
  - cbn [fold_left]. unfold engineStatisticsStep at 2. rewrite IH.
    unfold countOfType. cbn [filter]. unfold ElementType_eqb.
    destruct (ElementType_eq_dec (type e) t) as [Heq|Hne].
    + rewrite Heq, JsMap_get_set. cbn [List.length].
      destruct (JsMap.get (ElementType_value t) byType) as [n|];
        cbn [Nat.eqb]; f_equal; lia.
    + rewrite JsMap_get_set_ne; [reflexivity|].
      intros Hv. apply ElementType_value_inj in Hv. congruence.
Qed.

(** X7.  In the statistics of the search engine the entry of a kind is
    the number of elements of that kind (no entry when there is none),
    the entries add up to the total, and the file count is the number of
    distinct file paths, so never more than the total. *)
Theorem engineStatistics_totals (els : list CodeElement) :
  let st := engineStatistics els in
  es_totalElements st = List.length els
  /\ (forall t : ElementType,
        JsMap.get (ElementType_value t) (es_elementsByType st)
        = if (countOfType t els =? 0)%nat then None
          else Some (countOfType t els))
  /\ list_sum (JsMap.values (es_elementsByType st)) = es_totalElements st
  /\ es_fileCount st = List.length (uniq (map filePath els))
  /\ (es_fileCount st <= es_totalElements st)%nat.
Proof.
  unfold engineStatistics.
  pose proof (engineStatistics_fold els JsMap.empty []) as [Hfiles Hsum].
  pose proof (fun t => engineStatistics_counts t els JsMap.empty []) as Hcnt.
  destruct (fold_left engineStatisticsStep els (JsMap.empty, []))
    as [byType files].
  cbn [fst snd] in *. cbn [es_totalElements es_elementsByType es_fileCount].
  rewrite setAdd_fold in Hfiles. cbn [app] in Hfiles.
  split; [reflexivity|]. split; [exact Hcnt|].
  split; [rewrite Hsum; reflexivity|].
  assert (Hfc : List.length files = List.length (uniq (map filePath els)))
    by (rewrite Hfiles; reflexivity).
  split; [exact Hfc|]. rewrite Hfc.
  destruct (uniq_spec (map filePath els)) as [Hnd Hin].
  rewrite <- (length_map filePath els).
  apply NoDup_incl_length; [exact Hnd|].
  intros x Hx. apply Hin. exact Hx.
Qed.

(* ================================================================== *)
(** * Further properties of the query parser *)
(* ================================================================== *)

Section Tokens.

Local Open Scope string_scope.

Variable p : ascii -> bool.

Lemma allChars_app (a b : string) :
  allChars p (a ++ b) = allChars p a && allChars p b.
Proof.
  induction a as [|c a IH]; simpl; [reflexivity|].
  rewrite IH, andb_assoc. reflexivity.
Qed.

Lemma allChars_trimStart (s : string) :
  allChars p s = true -> allChars p (trimStart s) = true.
Proof.
  induction s as [|c r IH]; simpl; [reflexivity|].
  intros Hs. destruct (isSpace c); [|exact Hs].
  apply andb_true_iff in Hs. apply IH. apply Hs.
Qed.

Lemma allChars_trimEnd (s : string) :
  allChars p s = true -> allChars p (trimEnd s) = true.
Proof.
  induction s as [|c r IH]; simpl; [reflexivity|].
  intros Hs. apply andb_true_iff in Hs. destruct Hs as [Hc Hr].
  specialize (IH Hr). destruct (trimEnd r) as [|d r'].
  - destruct (isSpace c); simpl; [reflexivity|].
    rewrite Hc. reflexivity.
  - cbn [allChars]. rewrite Hc. exact IH.
Qed.

Lemma allChars_splitWs (s cur : string) (inSep : bool) :
  allChars p s = true -> allChars p cur = true ->
  Forall (fun w => allChars p w = true) (splitWs s cur inSep).
Proof.
  revert cur inSep. induction s as [|c r IH]; intros cur inSep Hs Hcur.
  - simpl. constructor; [exact Hcur|constructor].
  - cbn [splitWs]. cbn [allChars] in Hs.
    apply andb_true_iff in Hs. destruct Hs as [Hc Hr].
    destruct (isSpace c).
    + destruct inSep.
      * apply IH; assumption.
      * constructor; [exact Hcur|]. apply IH; [exact Hr|reflexivity].
    + apply IH; [exact Hr|].
      rewrite allChars_app, Hcur. simpl. rewrite Hc. reflexivity.
Qed.

End Tokens.

(** The pieces of a split hold no white space. *)
Lemma splitWs_no_space (s cur : string) (inSep : bool) :
  allChars (fun c => negb (isSpace c)) cur = true ->
  Forall (fun w => allChars (fun c => negb (isSpace c)) w = true)
    (splitWs s cur inSep).
Proof.
  revert cur inSep. induction s as [|c r IH]; intros cur inSep Hcur.
  - simpl. constructor; [exact Hcur|constructor].
  - cbn [splitWs]. destruct (isSpace c) eqn:Hc.
    + destruct inSep.
      * apply IH. exact Hcur.
      * constructor; [exact Hcur|]. apply IH. reflexivity.
    + apply IH. rewrite allChars_app, Hcur. simpl. rewrite Hc. reflexivity.
Qed.

Lemma toLowerCase_lower (s : string) :
  allChars (fun c => Ascii.eqb (lowerChar c) c) (toLowerCase s) = true.
Proof.
  induction s as [|c r IH]; simpl; [reflexivity|].
  rewrite lowerChar_idem, Ascii.eqb_refl. exact IH.
Qed.

Lemma lower_fixed (s : string) :
  allChars (fun c => Ascii.eqb (lowerChar c) c) s = true ->
  toLowerCase s = s.
Proof.
  induction s as [|c r IH]; simpl; [reflexivity|].
  intros Hs. apply andb_true_iff in Hs. destruct Hs as [Hc Hr].
  apply Ascii.eqb_eq in Hc. rewrite Hc, (IH Hr). reflexivity.
Qed.

(** X8.  The words [parse] works on are never empty, hold no white
    space and are in lower case. *)
Theorem tokenize_words (queryText word : string) :
  In word (tokenize (normalizeQuery queryText)) ->
  word <> EmptyString
  /\ allChars (fun c => negb (isSpace c)) word = true
  /\ toLowerCase word = word.
Proof.
  unfold tokenize, split_whitespace. intros Hin.
  apply filter_In in Hin. destruct Hin as [Hin Hlen].
  split; [intros ->; discriminate|].
  split.
  - pose proof (splitWs_no_space (normalizeQuery queryText) EmptyString
                  false eq_refl) as Hf.
    rewrite Forall_forall in Hf. apply Hf. exact Hin.
  - apply lower_fixed.
    assert (Hl : allChars (fun c => Ascii.eqb (lowerChar c) c)
                   (normalizeQuery queryText) = true).
    { unfold normalizeQuery, trim.
      apply allChars_trimEnd, allChars_trimStart, toLowerCase_lower. }
    pose proof (allChars_splitWs _ (normalizeQuery queryText) EmptyString
                  false Hl eq_refl) as Hf.
    rewrite Forall_forall in Hf. apply Hf. exact Hin.
Qed.

(* ------------------------------------------------------------------ *)
(** *** Intent *)

Lemma str_mem_existsb (x : string) (l words : list string) :
  In x words -> str_mem x l = true ->
  existsb (fun word => str_mem word l) words = true.
Proof.
  intros Hin Hm. apply existsb_exists. exists x. split; assumption.
Qed.

(** X9.  The words "interface(s)" and "type(s)" belong to the class
    vocabulary, so intent FIND_INTERFACES or FIND_TYPES is only reached by
    a query that also holds a word of the function or of the variable
    vocabulary; a query whose only category words are of the class
    vocabulary, "interface" included, has intent FIND_CLASSES and
    requests classes only. *)
Theorem determineIntent_interfaces (words : list string) :
  let hasFunction :=
    existsb (fun word => str_mem word FUNCTION_KEYWORDS) words in
  let hasClass := existsb (fun word => str_mem word CLASS_KEYWORDS) words in
  let hasVariable :=
    existsb (fun word => str_mem word VARIABLE_KEYWORDS) words in
  (determineIntent words = FIND_INTERFACES
   \/ determineIntent words = FIND_TYPES ->
   hasClass = true /\ (hasFunction = true \/ hasVariable = true))
  /\ (hasClass = true -> hasFunction = false -> hasVariable = false ->
      determineIntent words = FIND_CLASSES
      /\ extractElementTypes words (determineIntent words) = [CLASS]).
Proof.
  intros hasFunction hasClass hasVariable. split.
  - unfold determineIntent. fold hasFunction hasClass hasVariable.
    intros Hi.
    assert (Hc : hasClass = true).
    { destruct hasClass eqn:Hc; [reflexivity|exfalso].
      assert (Hno : forall ws : list string,
                existsb (fun word => str_mem word CLASS_KEYWORDS) ws = false ->
                existsb (fun word => String.eqb word "interface"
                                     || String.eqb word "interfaces") ws
                = false
                /\ existsb (fun word => String.eqb word "type"
                                        || String.eqb word "types") ws
                   = false).
      { induction ws as [|w ws IH]; [intros _; split; reflexivity|].
        cbn [existsb]. intros Hw. apply orb_false_iff in Hw.
        destruct Hw as [Hw Hws]. destruct (IH Hws) as [H1 H2].
        rewrite H1, H2, !orb_false_r.
        split.
        - destruct (String.eqb w "interface") eqn:E1;
            [apply String.eqb_eq in E1; subst w; discriminate|].
          destruct (String.eqb w "interfaces") eqn:E2;
            [apply String.eqb_eq in E2; subst w; discriminate|].
          reflexivity.
        - destruct (String.eqb w "type") eqn:E1;
            [apply String.eqb_eq in E1; subst w; discriminate|].
          destruct (String.eqb w "types") eqn:E2;
            [apply String.eqb_eq in E2; subst w; discriminate|].
          reflexivity. }
      destruct (Hno words Hc) as [H1 H2].
      rewrite H1, H2 in Hi.
      destruct hasFunction, hasVariable; cbn in Hi;
        destruct Hi; discriminate. }
    split; [exact Hc|].
    rewrite Hc in Hi.
    destruct hasFunction; [left; reflexivity|].
    destruct hasVariable; [right; reflexivity|].
    cbn in Hi. destruct Hi; discriminate.
  - intros Hc Hf Hv.
    assert (Hd : determineIntent words = FIND_CLASSES).
    { unfold determineIntent. fold hasFunction hasClass hasVariable.
      rewrite Hc, Hf, Hv. reflexivity. }
    rewrite Hd. split; reflexivity.
Qed.

(* ------------------------------------------------------------------ *)
(** *** Keywords *)

(** No word of the action or of the domain vocabulary is a category
    word or a stop word. *)
Lemma vocabularies_disjoint :
  forallb (fun w => negb (isCategoryWord w) && negb (isStopWord w))
    (ACTION_KEYWORDS ++ DOMAIN_KEYWORDS) = true.
Proof. vm_compute. reflexivity. Qed.

Lemma keywordPushes_kept (word : string) :
  negb (isCategoryWord word) && negb (isStopWord word) = true ->
  exists rest, keywordPushes word = word :: rest
               /\ Forall (eq word) rest.
Proof.
  intros Hk. unfold keywordPushes.
  assert (H3 : negb (str_mem word FUNCTION_KEYWORDS)
               && negb (str_mem word CLASS_KEYWORDS)
               && negb (str_mem word VARIABLE_KEYWORDS)
               && negb (isStopWord word) = true).
  { unfold isCategoryWord in Hk. rewrite !negb_orb in Hk. exact Hk. }
  rewrite H3.
  destruct (str_mem word ACTION_KEYWORDS);
    destruct (str_mem word DOMAIN_KEYWORDS); cbn [app];
    eexists; (split; [reflexivity|]); repeat constructor.
Qed.

Lemma keywordPushes_dropped (word : string) :
  negb (isCategoryWord word) && negb (isStopWord word) = false ->
  keywordPushes word = [].
Proof.
  intros Hk. unfold keywordPushes.
  assert (H3 : negb (str_mem word FUNCTION_KEYWORDS)
               && negb (str_mem word CLASS_KEYWORDS)
               && negb (str_mem word VARIABLE_KEYWORDS)
               && negb (isStopWord word) = false).
  { unfold isCategoryWord in Hk. rewrite !negb_orb in Hk. exact Hk. }
  rewrite H3.
  pose proof vocabularies_disjoint as Hd.
  rewrite forallb_app in Hd. apply andb_true_iff in Hd.
  destruct Hd as [Ha Hdm]. rewrite forallb_forall in Ha, Hdm.
  destruct (str_mem word ACTION_KEYWORDS) eqn:Hact.
  - apply str_mem_In in Hact. specialize (Ha word Hact). congruence.
  - destruct (str_mem word DOMAIN_KEYWORDS) eqn:Hdom; [|reflexivity].
    apply str_mem_In in Hdom. specialize (Hdm word Hdom). congruence.
Qed.

Lemma uniq_from_repeats (seen rest tail : list string) (w : string) :
  Forall (eq w) rest -> str_mem w seen = true ->
  uniq_from seen (rest ++ tail) = uniq_from seen tail.
Proof.
  intros Hr Hw. induction Hr as [|x rest Hx Hr IH]; [reflexivity|].
  subst x. cbn [app uniq_from]. rewrite Hw. exact IH.
Qed.

Lemma extractKeywords_from (seen words : list string) :
  uniq_from seen (flat_map keywordPushes words)
  = uniq_from seen
      (filter (fun w => negb (isCategoryWord w) && negb (isStopWord w))
         words).
Proof.
  revert seen. induction words as [|w ws IH]; intros seen; [reflexivity|].
  cbn [flat_map filter].
  destruct (negb (isCategoryWord w) && negb (isStopWord w)) eqn:Hk.
  - destruct (keywordPushes_kept w Hk) as (rest & Hp & Hrest).
    rewrite Hp. cbn [app uniq_from].
    destruct (str_mem w seen) eqn:Hs.
    + rewrite (uniq_from_repeats seen rest _ w Hrest Hs). apply IH.
    + f_equal.
      rewrite (uniq_from_repeats (w :: seen) rest _ w Hrest).
      * apply IH.
      * unfold str_mem. cbn [existsb]. rewrite String.eqb_refl. reflexivity.
  - rewrite (keywordPushes_dropped w Hk). apply IH.
Qed.

(** X10.  The keywords extracted from the words are the words that are
    neither category words nor stop words, each once, in the order of
    their first occurrence: the action and domain vocabularies do not
    change the result. *)
Theorem extractKeywords_spec (words : list string) :
  extractKeywords words
  = uniq (filter (fun w => negb (isCategoryWord w) && negb (isStopWord w))
            words)
  /\ NoDup (extractKeywords words)
  /\ forall k, In k (extractKeywords words)
               <-> In k words /\ isCategoryWord k = false
                   /\ isStopWord k = false.
Proof.
  assert (He : extractKeywords words
               = uniq (filter
                         (fun w => negb (isCategoryWord w)
                                   && negb (isStopWord w)) words))
    by (unfold extractKeywords, uniq; apply extractKeywords_from).
  split; [exact He|]. rewrite He.
  destruct (uniq_spec
              (filter (fun w => negb (isCategoryWord w)
                                && negb (isStopWord w)) words))
    as [Hnd Hin].
  split; [exact Hnd|].
  intros k. rewrite Hin, filter_In, andb_true_iff, !negb_true_iff.
  tauto.
Qed.

(* ------------------------------------------------------------------ *)
(** *** Suggestions *)

Lemma splitWs_blank (s : string) (inSep : bool) :
  allSpace s = true ->
  Forall (eq EmptyString) (splitWs s EmptyString inSep).
Proof.
  revert inSep. induction s as [|c r IH]; intros inSep Hs.
  - simpl. repeat constructor.
  - cbn [splitWs]. cbn [allSpace] in Hs.
    apply andb_true_iff in Hs. destruct Hs as [Hc Hr]. rewrite Hc.
    destruct inSep; [apply IH; exact Hr|].
    constructor; [reflexivity|apply IH; exact Hr].
Qed.

Lemma tokenize_allSpace (s : string) : allSpace s = true -> tokenize s = [].
Proof.
  intros Hs. unfold tokenize, split_whitespace.
  pose proof (splitWs_blank s false Hs) as Hf.
  induction Hf as [|w ws Hw Hf IH]; [reflexivity|].
  subst w. cbn [filter String.length Nat.ltb Nat.leb]. exact IH.
Qed.

(** X11.  [getSuggestions] gives at most 10 entries of the vocabularies,
    each starting with the last word of the partial query and different
    from it; for a partial query of white space only (the empty one
    included) they are the first ten entries of the vocabularies. *)
Theorem getSuggestions_contract (partialQuery : string) :
  (List.length (getSuggestions partialQuery) <= 10)%nat
  /\ (forall s, In s (getSuggestions partialQuery) ->
        In s allKeywords
        /\ (exists rest,
              s = (lastWordOf (tokenize (toLowerCase partialQuery))
                     ++ rest)%string
              /\ rest <> EmptyString))
  /\ (allSpace partialQuery = true ->
      getSuggestions partialQuery = firstn 10 allKeywords).
Proof.
  unfold getSuggestions.
  set (lastWord := lastWordOf (tokenize (toLowerCase partialQuery))).
  split; [apply firstn_le_length|]. split.
  - intros s Hs. apply In_firstn in Hs. apply filter_In in Hs.
    destruct Hs as [Hin Hp]. split; [exact Hin|].
    apply andb_true_iff in Hp. destruct Hp as [Hpre Hne].
    apply startsWith_spec in Hpre. destruct Hpre as [rest Hrest].
    exists rest. split; [exact Hrest|].
    intros ->. rewrite append_nil_r in Hrest. subst s.
    rewrite String.eqb_refl in Hne. discriminate.
  - intros Hblank. unfold lastWord.
    rewrite (toLowerCase_allSpace _ Hblank), (tokenize_allSpace _ Hblank).
    vm_compute. reflexivity.
Qed.

(* ================================================================== *)
(** * Further properties of the workspace index *)
(* ================================================================== *)

(* ------------------------------------------------------------------ *)
(** *** Keys of a map *)

Section MapKeys.

Context {V : Type}.

Lemma JsMap_get_None (k : string) (m : JsMap.t V) :
  JsMap.get k m = None <-> ~ In k (JsMap.keys m).
Proof.
  unfold JsMap.keys. induction m as [|[k0 v0] r IH]; simpl.
  - tauto.
  - destruct (String.eqb k0 k) eqn:Hk.
    + apply String.eqb_eq in Hk. subst. split; [discriminate|tauto].
    + apply String.eqb_neq in Hk. rewrite IH. tauto.
Qed.

Lemma JsMap_keys_set (k : string) (v : V) (m : JsMap.t V) :
  JsMap.keys (JsMap.set k v m)
  = if str_mem k (JsMap.keys m) then JsMap.keys m
    else JsMap.keys m ++ [k].
Proof.
  unfold JsMap.keys, str_mem. induction m as [|[k0 v0] r IH]; simpl.
  - reflexivity.
  - rewrite (String.eqb_sym k k0).
    destruct (String.eqb k0 k) eqn:Hk; simpl.
    + apply String.eqb_eq in Hk. subst. reflexivity.
    + rewrite IH. destruct (existsb (String.eqb k) (map fst r));
        reflexivity.
Qed.

Lemma JsMap_keys_delete_incl (k : string) (m : JsMap.t V) (x : string) :
  In x (JsMap.keys (JsMap.delete k m)) -> In x (JsMap.keys m).
Proof.
  unfold JsMap.keys. induction m as [|[k0 v0] r IH]; simpl; [tauto|].
  destruct (String.eqb k0 k); simpl; [tauto|].
  intros [Hx|Hx]; [left; exact Hx|right; exact (IH Hx)].
Qed.

Lemma JsMap_NoDup_set (k : string) (v : V) (m : JsMap.t V) :
  NoDup (JsMap.keys m) -> NoDup (JsMap.keys (JsMap.set k v m)).
Proof.
  intros Hnd. rewrite JsMap_keys_set.
  destruct (str_mem k (JsMap.keys m)) eqn:Hm; [exact Hnd|].
  assert (Hn : ~ In k (JsMap.keys m)).
  { intros Hin. apply str_mem_In in Hin. congruence. }
  apply NoDup_app; [exact Hnd|repeat constructor; intros []|].
  intros x Hx [<-|[]]. contradiction.
Qed.

Lemma JsMap_NoDup_delete (k : string) (m : JsMap.t V) :
  NoDup (JsMap.keys m) ->
  NoDup (JsMap.keys (JsMap.delete k m))
  /\ ~ In k (JsMap.keys (JsMap.delete k m)).
Proof.
  unfold JsMap.keys. induction m as [|[k0 v0] r IH]; simpl.
  - intros _. split; [constructor|tauto].
  - intros Hnd. inversion Hnd as [|x l Hx Hr]; subst.
    destruct (String.eqb k0 k) eqn:Hk.
    + apply String.eqb_eq in Hk. subst. split; assumption.
    + apply String.eqb_neq in Hk. destruct (IH Hr) as [IHnd IHn].
      cbn [map fst]. split.
      * constructor; [|exact IHnd].
        intros Hin. apply Hx.
        apply (JsMap_keys_delete_incl k r k0 Hin).
      * intros [Heq|Hin]; [congruence|exact (IHn Hin)].
Qed.

Lemma JsMap_get_delete_ne (k k' : string) (m : JsMap.t V) :
  k' <> k -> JsMap.get k' (JsMap.delete k m) = JsMap.get k' m.
Proof.
  intros Hne. induction m as [|[k0 v0] r IH]; simpl; [reflexivity|].
  destruct (String.eqb k0 k) eqn:Hk; simpl.
  - apply String.eqb_eq in Hk. subst k0.
    destruct (String.eqb k k') eqn:Hk'; [|reflexivity].
    apply String.eqb_eq in Hk'. congruence.
  - destruct (String.eqb k0 k'); [reflexivity|exact IH].
Qed.

Lemma JsMap_get_In_values (k : string) (v : V) (m : JsMap.t V) :
  JsMap.get k m = Some v -> In v (JsMap.values m).
Proof.
  unfold JsMap.values. induction m as [|[k0 v0] r IH]; simpl; [discriminate|].
  destruct (String.eqb k0 k).
  - intros Hv. inversion Hv. left. reflexivity.
  - intros Hv. right. exact (IH Hv).
Qed.

Lemma JsMap_In_values_get (v : V) (m : JsMap.t V) :
  NoDup (JsMap.keys m) -> In v (JsMap.values m) ->
  exists k, JsMap.get k m = Some v.
Proof.
  unfold JsMap.values, JsMap.keys.
  induction m as [|[k0 v0] r IH]; simpl; [intros _ []|].
  intros Hnd [Hv|Hv].
  - exists k0. rewrite String.eqb_refl. subst. reflexivity.
  - inversion Hnd as [|x l Hx Hr]; subst.
    destruct (IH Hr Hv) as [k Hk]. exists k.
    destruct (String.eqb k0 k) eqn:Hk0; [|exact Hk].
    apply String.eqb_eq in Hk0. subst k0. exfalso. apply Hx.
    destruct (JsMap.get k r) eqn:Hg; [|discriminate].
    destruct (in_dec string_dec k (map fst r)) as [Hin|Hnin];
      [exact Hin|].
    apply (proj2 (JsMap_get_None k r)) in Hnin. congruence.
Qed.

End MapKeys.

(* ------------------------------------------------------------------ *)
(** *** One record for each path *)

Lemma NoDup_indexFile (cfg : IndexerConfig) (w : World)
    (filePath : string) (s : Indexer) :
  NoDup (JsMap.keys (wi_files (index s))) ->
  NoDup (JsMap.keys (wi_files (index (snd (indexFile cfg w filePath s))))).
Proof.
  intros Hs. rewrite indexFile_run. cbn [snd].
  destruct (statSync w filePath) as [stats|e]; [|exact Hs].
  destruct (maxFileSize cfg <? size stats)%Z; [exact Hs|].
  destruct (readFileSync w filePath) as [content|e]; [|exact Hs].
  destruct (sameHash _ _); [exact Hs|].
  destruct (parseFile w filePath) as [parsedFile|e]; [|exact Hs].
  unfold stored. cbn [index wi_files]. apply JsMap_NoDup_set. exact Hs.
Qed.

Lemma NoDup_runOps (cfg : IndexerConfig) (ops : list Op) (s : Indexer) :
  NoDup (JsMap.keys (wi_files (index s))) ->
  NoDup (JsMap.keys (wi_files (index (runOps cfg ops s)))).
Proof.
  revert s. induction ops as [|op rest IH]; intros s Hs; [exact Hs|].
  cbn [runOps]. apply IH. destruct op as [w p|p]; cbn [runOp].
  - apply NoDup_indexFile. exact Hs.
  - unfold removeFile, setIndex, modify. cbn [snd index wi_files].
    apply JsMap_NoDup_delete. exact Hs.
Qed.

Lemma runOps_one_record (cfg : IndexerConfig) (t : Z) (ops : list Op) :
  let s := runOps cfg ops (newIndexer t) in
  NoDup (JsMap.keys (wi_files (index s)))
  /\ NoDup (JsMap.keys (wi_elements (index s)))
  /\ totalFiles (getStatistics s)
     = List.length (JsMap.keys (wi_files (index s))).
Proof.
  intros s.
  assert (Hnd : NoDup (JsMap.keys (wi_files (index s))))
    by (apply NoDup_runOps; constructor).
  assert (Hs : synced (index s))
    by (apply synced_runOps; apply synced_new).
  split; [exact Hnd|]. split.
  - unfold synced in Hs. rewrite Hs, mapValues_keys. exact Hnd.
  - unfold getStatistics.
    destruct (fold_left statisticsStep _ _) as [total byLanguage].
    cbn [totalFiles]. unfold JsMap.size, JsMap.keys.
    rewrite length_map. reflexivity.
Qed.

(* ------------------------------------------------------------------ *)
(** *** Storing and looking up *)

(** X13.  After [indexFile] of a file that can be statted and read, is
    within the size limit and parses, the index holds a record for the
    path whose hash is the fingerprint of the file as it is; when the
    stored hash was different (or there was no record) the record and the
    list given by [getElementsForFile] hold the declarations just
    parsed. *)
Theorem indexFile_then_lookup (cfg : IndexerConfig) (w : World)
    (filePath : string) (s : Indexer) (stats : Stats) (content : string)
    (parsedFile : ParsedFile) :
  statSync w filePath = Ok stats ->
  (size stats <= maxFileSize cfg)%Z ->
  readFileSync w filePath = Ok content ->
  parseFile w filePath = Ok parsedFile ->
  let s' := snd (indexFile cfg w filePath s) in
  (exists record,
     getFileIndex s' filePath = Some record
     /\ fi_hash record = fingerprint stats content)
  /\ (sameHash (getFileIndex s filePath) (fingerprint stats content) = false ->
      getFileIndex s' filePath
      = Some (mkFileIndex filePath (pf_language parsedFile)
                (pf_elements parsedFile) (mtime stats)
                (fingerprint stats content))
      /\ getElementsForFile s' filePath = pf_elements parsedFile
      /\ parseCalls s' = S (parseCalls s)).
Proof.
  intros Hstat Hsize Hread Hparse s'. subst s'.
  rewrite indexFile_run. cbn [snd]. rewrite Hstat, Hread, Hparse.
  assert (Hlim : (maxFileSize cfg <? size stats)%Z = false)
    by (apply Z.ltb_ge; exact Hsize).
  rewrite Hlim. unfold getFileIndex, getElementsForFile.
  destruct (sameHash (JsMap.get filePath (wi_files (index s)))
              (fingerprint stats content)) eqn:Hsame.
  - split; [|discriminate].
    unfold sameHash in Hsame.
    destruct (JsMap.get filePath (wi_files (index s))) as [record|];
      [|discriminate].
    exists record. split; [reflexivity|].
    apply String.eqb_eq. exact Hsame.
  - unfold stored. cbn [index wi_files wi_elements parseCalls].
    rewrite !JsMap_get_set. split.
    + eexists. split; reflexivity.
    + intros _. repeat split.
Qed.

(** X14.  [indexFile] and [removeFile] of a path leave the entries of
    every other path, in both maps, as they were. *)
Theorem index_ops_frame (cfg : IndexerConfig) (op : Op) (s : Indexer)
    (other : string) :
  other <> (match op with
            | OpIndexFile _ p => p
            | OpRemoveFile p => p
            end) ->
  let s' := snd (runOp cfg op s) in
  getFileIndex s' other = getFileIndex s other
  /\ getElementsForFile s' other = getElementsForFile s other.
Proof.
  intros Hne s'. subst s'. unfold getFileIndex, getElementsForFile.
  destruct op as [w p|p]; cbn [runOp].
  - rewrite indexFile_run. cbn [snd].
    destruct (statSync w p) as [stats|e]; [|split; reflexivity].
    destruct (maxFileSize cfg <? size stats)%Z; [split; reflexivity|].
    destruct (readFileSync w p) as [content|e]; [|split; reflexivity].
    destruct (sameHash _ _); [split; reflexivity|].
    destruct (parseFile w p) as [parsedFile|e]; [|split; reflexivity].
    unfold stored. cbn [index wi_files wi_elements].
    rewrite !JsMap_get_set_ne by exact Hne. split; reflexivity.
  - unfold removeFile, setIndex, modify.
    cbn [snd index wi_files wi_elements].
    rewrite !JsMap_get_delete_ne by exact Hne. split; reflexivity.
Qed.

(** X15.  After [removeFile] of a path, on an index reached by
    [indexFile] and [removeFile] calls, the path has no record and
    [getElementsForFile] gives the empty list for it. *)
Theorem removeFile_then_lookup (cfg : IndexerConfig) (t : Z)
    (ops : list Op) (filePath : string) :
  let s := runOps cfg ops (newIndexer t) in
  let s' := snd (removeFile filePath s) in
  getFileIndex s' filePath = None
  /\ getElementsForFile s' filePath = []
  /\ ~ In filePath (JsMap.keys (wi_files (index s'))).
Proof.
  intros s s'.
  destruct (runOps_one_record cfg t ops) as (Hf & He & _).
  fold s in Hf, He.
  unfold s', removeFile, setIndex, modify, getFileIndex,
    getElementsForFile. cbn [snd index wi_files wi_elements].
  destruct (JsMap_NoDup_delete filePath (wi_files (index s)) Hf)
    as [_ Hnf].
  destruct (JsMap_NoDup_delete filePath (wi_elements (index s)) He)
    as [_ Hne].
  apply JsMap_get_None in Hnf. apply JsMap_get_None in Hne.
  rewrite Hnf, Hne. repeat split.
  apply JsMap_get_None. exact Hnf.
Qed.

(* ------------------------------------------------------------------ *)
(** *** The size limit *)

(** X16.  A file larger than the configured limit is never parsed: the
    call writes one warning and leaves the index as it was, so a file
    indexed before it grew over the limit keeps its old record. *)
Theorem indexFile_large_file (cfg : IndexerConfig) (w : World)
    (filePath : string) (s : Indexer) (stats : Stats) :
  statSync w filePath = Ok stats ->
  (maxFileSize cfg < size stats)%Z ->
  indexFile cfg w filePath s
  = (Returned tt, logged s ("Skipping large file: " ++ filePath)%string)
  /\ parseCalls (snd (indexFile cfg w filePath s)) = parseCalls s
  /\ getFileIndex (snd (indexFile cfg w filePath s)) filePath
     = getFileIndex s filePath.
Proof.
  intros Hstat Hsize. rewrite indexFile_run, Hstat.
  apply Z.ltb_lt in Hsize. rewrite Hsize. repeat split.
Qed.

(* ------------------------------------------------------------------ *)
(** *** Fingerprints *)

Section Fingerprints.

Local Open Scope string_scope.

Lemma uint_no_dash (d : Decimal.uint) :
  allChars notDash (NilEmpty.string_of_uint d) = true.
Proof. induction d; simpl; try assumption; reflexivity. Qed.

Lemma string_of_nat_no_dash (n : nat) :
  allChars notDash (string_of_nat n) = true.
Proof.
  unfold string_of_nat, NilZero.string_of_uint.
  destruct (Nat.to_uint n); try apply uint_no_dash. reflexivity.
Qed.

Lemma Nat_to_uint_nonnil (n : nat) : Nat.to_uint n <> Decimal.Nil.
Proof.
  pose proof (DecimalNat.Unsigned.to_of (Nat.to_uint n)) as Hn.
  rewrite DecimalNat.Unsigned.of_to in Hn. rewrite Hn.
  apply DecimalFacts.unorm_nonnil.
Qed.

Lemma string_of_nat_inj (a b : nat) :
  string_of_nat a = string_of_nat b -> a = b.
Proof.
  unfold string_of_nat. intros Hs.
  apply DecimalNat.Unsigned.to_uint_inj.
  pose proof (NilZero.usu _ (Nat_to_uint_nonnil a)) as Ha.
  pose proof (NilZero.usu _ (Nat_to_uint_nonnil b)) as Hb.
  rewrite Hs in Ha. congruence.
Qed.

Lemma string_of_Z_inj (a b : Z) : string_of_Z a = string_of_Z b -> a = b.
Proof.
  unfold string_of_Z. intros Hs.
  apply DecimalZ.to_int_inj.
  assert (Hnn : forall z : Z,
            Z.to_int z <> Decimal.Pos Decimal.Nil
            /\ Z.to_int z <> Decimal.Neg Decimal.Nil).
  { intros [|p|p]; cbn; split; try discriminate;
      intros Hp; inversion Hp as [Hq];
      apply (DecimalPos.Unsigned.to_uint_nonnil p Hq). }
  destruct (Hnn a) as [Ha1 Ha2]. destruct (Hnn b) as [Hb1 Hb2].
  pose proof (NilZero.isi _ Ha1 Ha2) as Ha.
  pose proof (NilZero.isi _ Hb1 Hb2) as Hb.
  rewrite Hs in Ha. congruence.
Qed.

(** Two texts of the shape [a-d], with no dash in [d], are equal only
    when both parts are. *)
Lemma dash_split (a1 a2 d1 d2 : string) :
  allChars notDash d1 = true -> allChars notDash d2 = true ->
  a1 ++ "-" ++ d1 = a2 ++ "-" ++ d2 -> a1 = a2 /\ d1 = d2.
Proof.
  intros Hd1 Hd2. revert a2.
  induction a1 as [|c a1 IH]; intros [|c2 a2] Heq; cbn [append] in Heq.
  - inversion Heq. split; reflexivity.
  - inversion Heq as [[Hc Hd]]. subst d1.
    rewrite allChars_app in Hd1. cbn in Hd1.
    rewrite andb_false_r in Hd1. discriminate.
  - inversion Heq as [[Hc Hd]]. subst d2.
    rewrite allChars_app in Hd2. cbn in Hd2.
    rewrite andb_false_r in Hd2. discriminate.
  - inversion Heq as [[Hc Hd]]. destruct (IH a2 Hd) as [Ha Hdd].
    subst. split; reflexivity.
Qed.

Lemma fingerprint_inj (st1 st2 : Stats) (c1 c2 : string) :
  fingerprint st1 c1 = fingerprint st2 c2 <->
  mtime st1 = mtime st2 /\ String.length c1 = String.length c2.
Proof.
  unfold fingerprint. split.
  - intros Heq.
    apply dash_split in Heq; try apply string_of_nat_no_dash.
    destruct Heq as [Hm Hl].
    split; [apply string_of_Z_inj|apply string_of_nat_inj]; assumption.
  - intros [Hm Hl]. rewrite Hm, Hl. reflexivity.
Qed.

End Fingerprints.

(** X17.  Two fingerprints are equal exactly when the modification
    times are equal and the contents have the same length. *)
Theorem fingerprint_equal_iff (st1 st2 : Stats) (c1 c2 : string) :
  fingerprint st1 c1 = fingerprint st2 c2 <->
  mtime st1 = mtime st2 /\ String.length c1 = String.length c2.
Proof. apply fingerprint_inj. Qed.

(** X18.  Change detection sees the modification time and the length of
    the content only.  After a successful [indexFile], a second call in a
    world where the file has the same modification time and a content of
    the same length, whatever that content is, does not call the parser
    and keeps the declarations of the first parse; if the modification
    time or the length differs the parser is called again. *)
Theorem indexFile_change_detection (cfg : IndexerConfig) (w1 w2 : World)
    (filePath : string) (s : Indexer) (st1 st2 : Stats)
    (c1 c2 : string) (parsed1 : ParsedFile) :
  statSync w1 filePath = Ok st1 ->
  readFileSync w1 filePath = Ok c1 ->
  parseFile w1 filePath = Ok parsed1 ->
  (size st1 <= maxFileSize cfg)%Z ->
  sameHash (getFileIndex s filePath) (fingerprint st1 c1) = false ->
  statSync w2 filePath = Ok st2 ->
  readFileSync w2 filePath = Ok c2 ->
  (size st2 <= maxFileSize cfg)%Z ->
  let s1 := snd (indexFile cfg w1 filePath s) in
  let s2 := snd (indexFile cfg w2 filePath s1) in
  (mtime st1 = mtime st2 /\ String.length c1 = String.length c2 ->
   parseCalls s2 = parseCalls s1
   /\ index s2 = index s1
   /\ getElementsForFile s2 filePath = pf_elements parsed1)
  /\ (~ (mtime st1 = mtime st2 /\ String.length c1 = String.length c2) ->
      parseCalls s2 = S (parseCalls s1)).
Proof.
  intros Hst1 Hrd1 Hp1 Hsz1 Hnew Hst2 Hrd2 Hsz2 s1 s2.
  assert (Hl1 : (maxFileSize cfg <? size st1)%Z = false)
    by (apply Z.ltb_ge; exact Hsz1).
  assert (Hl2 : (maxFileSize cfg <? size st2)%Z = false)
    by (apply Z.ltb_ge; exact Hsz2).
  assert (Hs1 : s1 = stored s filePath st1 (fingerprint st1 c1) parsed1).
  { unfold s1. rewrite indexFile_run. cbn [snd].
    rewrite Hst1, Hl1, Hrd1. unfold getFileIndex in Hnew.
    rewrite Hnew, Hp1. reflexivity. }
  assert (Hget : JsMap.get filePath (wi_files (index s1))
                 = Some (mkFileIndex filePath (pf_language parsed1)
                           (pf_elements parsed1) (mtime st1)
                           (fingerprint st1 c1))).
  { rewrite Hs1. unfold stored. cbn [index wi_files].
    apply JsMap_get_set. }
  assert (Hs2 : s2 = snd (indexFile cfg w2 filePath s1)) by reflexivity.
  rewrite indexFile_run in Hs2. cbn [snd] in Hs2.
  rewrite Hst2, Hl2, Hrd2, Hget in Hs2. cbn [sameHash fi_hash] in Hs2.
  split.
  - intros Hsame. apply (proj2 (fingerprint_inj st1 st2 c1 c2)) in Hsame.
    rewrite Hsame, String.eqb_refl in Hs2. rewrite Hs2.
    split; [reflexivity|]. split; [reflexivity|].
    unfold getElementsForFile. rewrite Hs1. unfold stored.
    cbn [index wi_elements]. rewrite JsMap_get_set. reflexivity.
  - intros Hdiff.
    destruct (String.eqb (fingerprint st1 c1) (fingerprint st2 c2)) eqn:Hf.
    + apply String.eqb_eq in Hf. apply fingerprint_inj in Hf. contradiction.
    + rewrite Hs2. destruct (parseFile w2 filePath); reflexivity.
Qed.

(* ------------------------------------------------------------------ *)
(** *** Statistics and the flattened declaration list *)

Lemma statistics_byLanguage_from (lang : string) (l : list FileIndex)
    (total : nat) (byLanguage : JsMap.t nat) :
  match JsMap.get lang
          (snd (fold_left statisticsStep l (total, byLanguage))) with
  | Some n => n
  | None => 0%nat
  end
  = (match JsMap.get lang byLanguage with Some n => n | None => 0 end
     + countOfLanguage lang l)%nat
  /\ list_sum
       (JsMap.values (snd (fold_left statisticsStep l (total, byLanguage))))
     = (list_sum (JsMap.values byLanguage)
        + list_sum (map (fun fi => List.length (fi_elements fi)) l))%nat.
Proof.
  revert total byLanguage.
  induction l as [|fi r IH]; intros total byLanguage.
  - cbn [fold_left snd]. unfold countOfLanguage.
    cbn [filter map list_sum fold_right]. split; lia.
  - cbn [fold_left]. unfold statisticsStep at 2 4.
    destruct (IH (total + List.length (fi_elements fi))%nat
                (JsMap.set (fi_language fi)
                   (match JsMap.get (fi_language fi) byLanguage with
                    | Some n => n
                    | None => 0
                    end + List.length (fi_elements fi))%nat byLanguage))
      as [Hget Hsum].
    split.
    + rewrite Hget. unfold countOfLanguage. cbn [filter].
      destruct (String.eqb (fi_language fi) lang) eqn:Hl.
      * apply String.eqb_eq in Hl. subst lang. rewrite JsMap_get_set.
        cbn [map list_sum fold_right]. unfold list_sum. lia.
      * apply String.eqb_neq in Hl.
        rewrite JsMap_get_set_ne by (intros Heq; apply Hl; symmetry; exact Heq).
        reflexivity.
    + rewrite Hsum, JsMap_bump_sum. cbn [map list_sum fold_right].
      unfold list_sum. lia.
Qed.

(** X19.  In the statistics of the indexer the entry of a language is
    the number of declarations of the records with that language tag,
    the entries add up to the total declaration count, and the time
    stamp is that of the index. *)
Theorem getStatistics_breakdown (s : Indexer) :
  (forall lang : string,
     match JsMap.get lang (elementsByLanguage (getStatistics s)) with
     | Some n => n
     | None => 0%nat
     end
     = countOfLanguage lang (JsMap.values (wi_files (index s))))
  /\ list_sum (JsMap.values (elementsByLanguage (getStatistics s)))
     = totalElements (getStatistics s)
  /\ st_lastUpdated (getStatistics s) = wi_lastUpdated (index s).
Proof.
  pose proof (getStatistics_total s) as Htotal.
  unfold getStatistics in *.
  pose proof (fun lang =>
                statistics_byLanguage_from lang
                  (JsMap.values (wi_files (index s))) 0 JsMap.empty) as Hl.
  destruct (fold_left statisticsStep (JsMap.values (wi_files (index s)))
              (0%nat, JsMap.empty)) as [total byLanguage].
  cbn [snd] in Hl.
  cbn [elementsByLanguage totalElements st_lastUpdated] in *.
  split; [intros lang; destruct (Hl lang) as [Hg _]; rewrite Hg;
          reflexivity|].
  split; [|reflexivity].
  destruct (Hl EmptyString) as [_ Hsum]. rewrite Hsum, Htotal. reflexivity.
Qed.

Lemma getAllElements_concat (l : list (list CodeElement))
    (acc : list CodeElement) :
  fold_left (fun allElements els => allElements ++ els) l acc
  = acc ++ List.concat l.
Proof.
  revert acc. induction l as [|els r IH]; intros acc; simpl.
  - rewrite app_nil_r. reflexivity.
  - rewrite IH, app_assoc. reflexivity.
Qed.

(** The values of a map are what [get] gives for its keys, in the order
    of the keys. *)
Lemma JsMap_values_by_key {V : Type} (d : V) (m : JsMap.t V) :
  NoDup (JsMap.keys m) ->
  JsMap.values m
  = map (fun k => match JsMap.get k m with
                  | Some v => v
                  | None => d
                  end) (JsMap.keys m).
Proof.
  unfold JsMap.values, JsMap.keys.
  induction m as [|[k0 v0] r IH]; intros Hnd; [reflexivity|].
  cbn [map fst snd JsMap.get]. rewrite String.eqb_refl.
  inversion Hnd as [|x l Hnotin Hr]; subst.
  rewrite (IH Hr). f_equal.
  apply map_ext_in. intros k Hk.
  destruct (String.eqb k0 k) eqn:Hk0; [|reflexivity].
  apply String.eqb_eq in Hk0. subst k. contradiction.
Qed.

(** X20.  On an index reached by [indexFile] and [removeFile] calls,
    [getAllElements] is the concatenation of the lists that
    [getElementsForFile] gives for the paths of the FileRecord map, in
    the order of the keys of that map; a declaration is in it exactly
    when [getElementsForFile] gives it for some path. *)
Theorem getAllElements_flattens (cfg : IndexerConfig) (t : Z)
    (ops : list Op) :
  let s := runOps cfg ops (newIndexer t) in
  getAllElements s
  = List.concat
      (map (getElementsForFile s) (JsMap.keys (wi_files (index s))))
  /\ forall e : CodeElement,
       In e (getAllElements s)
       <-> exists filePath, In e (getElementsForFile s filePath).
Proof.
  intros s.
  assert (Hc : getAllElements s
               = List.concat (JsMap.values (wi_elements (index s))))
    by (unfold getAllElements; apply getAllElements_concat).
  assert (Hs : synced (index s))
    by (apply synced_runOps; apply synced_new).
  assert (Hk : JsMap.keys (wi_elements (index s))
               = JsMap.keys (wi_files (index s)))
    by (unfold synced in Hs; rewrite Hs; apply mapValues_keys).
  assert (Hnd : NoDup (JsMap.keys (wi_elements (index s))))
    by (rewrite Hk; apply NoDup_runOps; constructor).
  split.
  - rewrite Hc, (JsMap_values_by_key [] _ Hnd), Hk. reflexivity.
  - intros e. rewrite Hc, in_concat. unfold getElementsForFile. split.
    + intros (els & Hels & He).
      destruct (JsMap_In_values_get els _ Hnd Hels) as [p Hp].
      exists p. rewrite Hp. exact He.
    + intros (p & Hp).
      destruct (JsMap.get p (wi_elements (index s))) as [els|] eqn:Hg;
        [|destruct Hp].
      exists els. split; [apply (JsMap_get_In_values p _ _ Hg)|exact Hp].
Qed.

(* ------------------------------------------------------------------ *)
(** *** Discovery *)

Lemma bind_cont_ext {S A B : Type} (m : M S A) (k1 k2 : A -> M S B)
    (d : S) :
  (forall a d', k1 a d' = k2 a d') -> bind m k1 d = bind m k2 d.
Proof.
  intros Hk. unfold bind. destruct (m d) as [[a|e] d']; [apply Hk|reflexivity].
Qed.

Section DiscoveryFacts.

Variable H : Host.
Variable cfg : IndexerConfig.

Lemma foundGrows_refl (d : Discovery) : foundGrowsBy H cfg d d.
Proof. exists []. rewrite app_nil_r. split; [reflexivity|constructor]. Qed.

Lemma foundGrows_trans (d1 d2 d3 : Discovery) :
  foundGrowsBy H cfg d1 d2 -> foundGrowsBy H cfg d2 d3 -> foundGrowsBy H cfg d1 d3.
Proof.
  intros (a1 & H1 & F1) (a2 & H2 & F2). exists (a1 ++ a2).
  rewrite H2, H1, app_assoc. split; [reflexivity|].
  apply Forall_app. split; assumption.
Qed.

Lemma foundGrows_log (d d' : Discovery) (line : string) :
  foundGrowsBy H cfg d d' ->
  foundGrowsBy H cfg d (mkDiscovery (found d') (dconsole d' ++ [line])).
Proof. intros (a & Ha & Fa). exists a. split; assumption. Qed.

Lemma traverse_grows_both :
  (forall (node : FsNode) (dir : string) (d : Discovery),
     foundGrowsBy H cfg d (snd (traverse H cfg dir node d)))
  /\ (forall (items : FsItems) (dir : string) (d : Discovery),
        foundGrowsBy H cfg d (snd (traverseItems H cfg dir items d))).
Proof.
  assert (Hcatch : forall (body : M Discovery unit) (dir : string)
                     (d : Discovery),
            foundGrowsBy H cfg d (snd (body d)) ->
            foundGrowsBy H cfg d
              (snd (try_catch body
                      (fun error =>
                         logDiscovery
                           ("Error traversing directory " ++ dir ++ ": "
                              ++ error)%string) d))).
  { intros body dir d Hb. unfold try_catch.
    destruct (body d) as [[u|e] d']; [exact Hb|].
    unfold logDiscovery, modify. cbn [snd] in *.
    apply foundGrows_log. exact Hb. }
  assert (Hnode : forall (P : FsNode -> Prop) (Q : FsItems -> Prop),
            (forall items, Q items -> P (FsDir items)) ->
            P FsFile -> P FsOther ->
            (forall e, P (FsStatError e)) -> (forall e, P (FsDirError e)) ->
            Q FsNil ->
            (forall item node rest, P node -> Q rest ->
                                    Q (FsCons item node rest)) ->
            (forall node, P node) /\ (forall items, Q items)).
  { intros P Q HD HF HO HS HE HN HC. split.
    - apply (FsNode_mut_ind P Q); auto.
    - apply (FsItems_mut_ind P Q); auto. }
  apply Hnode.
  - intros items IH dir d. cbn [traverse]. apply Hcatch. apply IH.
  - intros dir d. cbn [traverse]. apply Hcatch. apply foundGrows_refl.
  - intros dir d. cbn [traverse]. apply Hcatch. apply foundGrows_refl.
  - intros e dir d. cbn [traverse]. apply Hcatch. apply foundGrows_refl.
  - intros e dir d. cbn [traverse]. apply Hcatch. apply foundGrows_refl.
  - intros dir d. apply foundGrows_refl.
  - intros item node rest IHnode IHrest dir d. cbn [traverseItems].
    set (itemPath := path_join H dir item).
    assert (Hstep : forall step : M Discovery unit,
              foundGrowsBy H cfg d (snd (step d)) ->
              foundGrowsBy H cfg d
                (snd (bind step
                        (fun _ => traverseItems H cfg dir rest) d))).
    { intros step Hs. unfold bind.
      destruct (step d) as [[u|e] d']; [|exact Hs]. cbn [snd] in Hs.
      apply (foundGrows_trans _ _ _ Hs). apply IHrest. }
    apply Hstep.
    assert (Hdir : foundGrowsBy H cfg d
              (snd (bind (liftR (shouldExcludeDirectory H cfg itemPath))
                      (fun excluded =>
                         if excluded then ret tt
                         else traverse H cfg itemPath node) d))).
    { unfold bind, liftR.
      destruct (shouldExcludeDirectory H cfg itemPath) as [[|]|e];
        unfold ret, throw; cbn [snd];
        [apply foundGrows_refl|apply IHnode|apply foundGrows_refl]. }
    destruct node; try exact Hdir;
      try (unfold ret, throw; cbn [snd]; apply foundGrows_refl).
    (* a regular file *)
    destruct (str_mem (toLowerCase (path_extname H item))
                supportedExtensions) eqn:Hext;
      [|unfold ret; apply foundGrows_refl].
    unfold bind, liftR.
    destruct (shouldExcludeFile H cfg itemPath) as [[|]|e] eqn:Hex;
      unfold ret, throw, pushFile, modify; cbn [snd];
      try apply foundGrows_refl.
    exists [itemPath]. split; [reflexivity|].
    constructor; [|constructor].
    exists dir, item. repeat split; assumption.
Qed.

Lemma findCodeFiles_run (w : World) (rootPath : string) (s : Indexer) :
  exists files lines,
    findCodeFiles H cfg w rootPath s
    = (Returned files,
       mkIndexer (index s) (fileWatcher s) lines (parseCalls s))
    /\ Forall (discoverable H cfg) files.
Proof.
  unfold findCodeFiles.
  pose proof (traverse_returns H cfg rootPath (rootNode w)
                (mkDiscovery [] (console s))) as Hret.
  pose proof (proj1 traverse_grows_both (rootNode w) rootPath
                (mkDiscovery [] (console s))) as (added & Hadd & Hall).
  destruct (traverse H cfg rootPath (rootNode w) _) as [out d].
  cbn [fst snd found] in *. subst out.
  exists (found d), (dconsole d). split; [reflexivity|].
  rewrite Hadd. exact Hall.
Qed.

(** Entries listed after one whose [statSync] throws are not visited. *)
Lemma traverseItems_stat_error (dir item e : string)
    (before rest : FsItems) (d : Discovery) :
  traverseItems H cfg dir
    (itemsApp before (FsCons item (FsStatError e) rest)) d
  = traverseItems H cfg dir
      (itemsApp before (FsCons item (FsStatError e) FsNil)) d.
Proof.
  revert d. induction before as [|i n r IH]; intros d.
  - reflexivity.
  - cbn [itemsApp traverseItems]. apply bind_cont_ext.
    intros _ d'. apply IH.
Qed.

(** A path that holds the name of a default excluded directory is
    excluded, whatever the host and the configured patterns. *)
Lemma shouldExcludeDirectory_default (dirPath n : string) :
  In n defaultExcludedDirectories -> includes dirPath n = true ->
  shouldExcludeDirectory H cfg dirPath = Ok true.
Proof.
  intros Hin Hinc. unfold shouldExcludeDirectory.
  set (test := fun pattern : string =>
                 if includes pattern "*"
                 then regexpTest H (replaceAll "*"%char ".*" pattern) dirPath
                 else Ok (String.eqb (path_basename H dirPath) pattern
                          || includes dirPath pattern)).
  assert (Hplain : forall x, In x defaultExcludedDirectories ->
            test x = Ok (String.eqb (path_basename H dirPath) x
                         || includes dirPath x)).
  { intros x Hx. unfold test.
    assert (Hs : includes x "*" = false).
    { revert x Hx. apply Forall_forall. vm_compute.
      repeat constructor. }
    rewrite Hs. reflexivity. }
  assert (Hsome : forall l tail,
            (forall x, In x l -> test x
               = Ok (String.eqb (path_basename H dirPath) x
                     || includes dirPath x)) ->
            In n l -> someR test (l ++ tail) = Ok true).
  { induction l as [|x l IHl]; intros tail Hl Hn; [destruct Hn|].
    cbn [app someR]. rewrite (Hl x (or_introl eq_refl)).
    destruct (String.eqb (path_basename H dirPath) x || includes dirPath x)
      eqn:Hx; [reflexivity|].
    destruct Hn as [->|Hn].
    - rewrite Hinc, orb_true_r in Hx. discriminate.
    - apply IHl; [|exact Hn]. intros y Hy. apply Hl. right. exact Hy. }
  apply Hsome; assumption.
Qed.

End DiscoveryFacts.

(** X21.  [findCodeFiles] returns normally and changes nothing of the
    indexer but its console; every path it returns is the path of an
    entry whose extension, in lower case, is one of the supported ones
    and which [shouldExcludeFile] does not exclude. *)
Theorem findCodeFiles_sound (H : Host) (cfg : IndexerConfig) (w : World)
    (rootPath : string) (s : Indexer) :
  exists files lines,
    findCodeFiles H cfg w rootPath s
    = (Returned files,
       mkIndexer (index s) (fileWatcher s) lines (parseCalls s))
    /\ Forall (discoverable H cfg) files.
Proof. apply findCodeFiles_run. Qed.

(** X22.  When [statSync] of an entry of a directory throws, the entries
    listed after it are not visited: the traversal of the directory is
    the same whatever follows the failing entry. *)
Theorem traverse_stat_error_skips_rest (H : Host) (cfg : IndexerConfig)
    (dir item e : string) (before rest : FsItems) (d : Discovery) :
  traverse H cfg dir
    (FsDir (itemsApp before (FsCons item (FsStatError e) rest))) d
  = traverse H cfg dir
      (FsDir (itemsApp before (FsCons item (FsStatError e) FsNil))) d.
Proof.
  cbn [traverse]. unfold try_catch.
  rewrite traverseItems_stat_error. reflexivity.
Qed.

(** X23.  A directory whose path holds, anywhere, the name of one of the
    default excluded directories is excluded, whatever the host and the
    configured patterns, and discovery does not depend on what is inside
    it. *)
Theorem excluded_directory_not_entered (H : Host) (cfg : IndexerConfig)
    (dir item n : string) (inside inside' rest : FsItems)
    (d : Discovery) :
  In n defaultExcludedDirectories ->
  includes (path_join H dir item) n = true ->
  shouldExcludeDirectory H cfg (path_join H dir item) = Ok true
  /\ traverseItems H cfg dir (FsCons item (FsDir inside) rest) d
     = traverseItems H cfg dir (FsCons item (FsDir inside') rest) d.
Proof.
  intros Hn Hinc.
  pose proof (shouldExcludeDirectory_default H cfg _ n Hn Hinc) as Hex.
  split; [exact Hex|].
  cbn [traverseItems]. unfold bind, liftR. rewrite Hex. reflexivity.
Qed.

(* ------------------------------------------------------------------ *)
(** *** [indexWorkspace] as a whole *)

Section Workspace.

Variable H : Host.
Variable cfg : IndexerConfig.
Variable w : World.

Lemma forEach_indexFile_inv (P : Indexer -> Prop) (files : list string) :
  (forall p s, In p files -> P s -> P (snd (indexFile cfg w p s))) ->
  forall s, P s -> P (snd (forEachM (indexFile cfg w) files s)).
Proof.
  induction files as [|f r IH]; intros Hstep s Hs; [exact Hs|].
  cbn [forEachM]. unfold bind.
  pose proof (Hstep f s (or_introl eq_refl) Hs) as Hf.
  rewrite indexFile_run in *. cbn [snd] in Hf.
  apply IH; [|exact Hf].
  intros p s0 Hp. apply Hstep. right. exact Hp.
Qed.

Lemma indexFile_keys (p : string) (s : Indexer) (k : string) :
  In k (JsMap.keys (wi_files (index (snd (indexFile cfg w p s))))) ->
  In k (JsMap.keys (wi_files (index s))) \/ k = p.
Proof.
  rewrite indexFile_run. cbn [snd].
  destruct (statSync w p) as [stats|e]; [|left; assumption].
  destruct (maxFileSize cfg <? size stats)%Z; [left; assumption|].
  destruct (readFileSync w p) as [content|e]; [|left; assumption].
  destruct (sameHash _ _); [left; assumption|].
  destruct (parseFile w p) as [parsedFile|e]; [|left; assumption].
  unfold stored. cbn [index wi_files]. rewrite JsMap_keys_set.
  destruct (str_mem p (JsMap.keys (wi_files (index s))));
    [left; assumption|].
  intros Hin. apply in_app_or in Hin.
  destruct Hin as [Hin|[<-|[]]]; [left; exact Hin|right; reflexivity].
Qed.

Lemma indexFile_watcher (p : string) (s : Indexer) :
  fileWatcher (snd (indexFile cfg w p s)) = fileWatcher s
  /\ wi_lastUpdated (index (snd (indexFile cfg w p s)))
     = wi_lastUpdated (index s).
Proof.
  rewrite indexFile_run. cbn [snd].
  destruct (statSync w p) as [stats|e]; [|split; reflexivity].
  destruct (maxFileSize cfg <? size stats)%Z; [split; reflexivity|].
  destruct (readFileSync w p) as [content|e]; [|split; reflexivity].
  destruct (sameHash _ _); [split; reflexivity|].
  destruct (parseFile w p) as [parsedFile|e]; split; reflexivity.
Qed.

(** The state [indexWorkspace] returns, from the state after the loop
    over the files found. *)
Lemma indexWorkspace_run (rootPath : string) (s : Indexer) :
  exists files lines,
    Forall (discoverable H cfg) files
    /\ let s1 := mkIndexer (index s) (fileWatcher s) lines (parseCalls s) in
       let s2 := snd (forEachM (indexFile cfg w) files s1) in
       indexWorkspace H cfg w rootPath s
       = (Returned tt,
          mkIndexer
            (mkWorkspaceIndex (wi_files (index s2)) (wi_elements (index s2))
               (now w))
            (if watchFiles cfg then true else fileWatcher s2)
            (console s2) (parseCalls s2)).
Proof.
  destruct (findCodeFiles_run H cfg w rootPath s)
    as (files & lines & Hfind & Hall).
  exists files, lines. split; [exact Hall|].
  intros s1 s2. unfold indexWorkspace, bind. rewrite Hfind.
  pose proof (forEach_indexFile_returns cfg w files s1) as Hret.
  fold s1. unfold s2.
  destruct (forEachM (indexFile cfg w) files s1) as [out s2'].
  cbn [fst snd] in *. subst out.
  destruct (watchFiles cfg);
    unfold setupFileWatcher, setIndex, modify, ret; reflexivity.
Qed.

(** [indexFile] of any path leaves the entries of a path that cannot be
    statted, read or parsed as they are. *)
Lemma indexFile_failing_path (p q : string) (s : Indexer) :
  (exists e, statSync w p = Err e)
  \/ (exists e, readFileSync w p = Err e)
  \/ (exists e, parseFile w p = Err e) ->
  JsMap.get p (wi_files (index (snd (indexFile cfg w q s))))
  = JsMap.get p (wi_files (index s))
  /\ JsMap.get p (wi_elements (index (snd (indexFile cfg w q s))))
     = JsMap.get p (wi_elements (index s)).
Proof.
  intros Hfail. rewrite indexFile_run. cbn [snd].
  destruct (statSync w q) as [stats|e1] eqn:Hstat; [|split; reflexivity].
  destruct (maxFileSize cfg <? size stats)%Z; [split; reflexivity|].
  destruct (readFileSync w q) as [content|e2] eqn:Hread;
    [|split; reflexivity].
  destruct (sameHash _ _); [split; reflexivity|].
  destruct (parseFile w q) as [parsedFile|e3] eqn:Hparse;
    [|split; reflexivity].
  assert (Hne : p <> q).
  { intros ->. destruct Hfail as [[e He]|[[e He]|[e He]]]; congruence. }
  unfold stored. cbn [index wi_files wi_elements].
  split; apply JsMap_get_set_ne; exact Hne.
Qed.

End Workspace.

(** C9 (as amended).  [indexWorkspace] never fails: it returns normally
    in every world, whatever cannot be read, statted or parsed.  When the
    workspace root does not exist or cannot be listed, the failure is not
    surfaced to the caller either: the call writes one line to the
    console and returns with both maps of the index as they were.  A file
    that cannot be statted, read or parsed is skipped: its entries in
    both maps are after the call what they were before it, so a file
    never indexed before has none. *)
Theorem indexWorkspace_absorbs_failures (H : Host) (cfg : IndexerConfig)
    (w : World) (rootPath : string) (s : Indexer) :
  exists s',
    indexWorkspace H cfg w rootPath s = (Returned tt, s')
    /\ (rootUnreadable w = true ->
        wi_files (index s') = wi_files (index s)
        /\ wi_elements (index s') = wi_elements (index s)
        /\ exists line, console s' = console s ++ [line])
    /\ (forall p,
          (exists e, statSync w p = Err e)
          \/ (exists e, readFileSync w p = Err e)
          \/ (exists e, parseFile w p = Err e) ->
          JsMap.get p (wi_files (index s'))
          = JsMap.get p (wi_files (index s))
          /\ JsMap.get p (wi_elements (index s'))
             = JsMap.get p (wi_elements (index s))).
Proof.
  destruct (indexWorkspace_returns H cfg w rootPath s) as [s' Hrun].
  exists s'. split; [exact Hrun|]. split.
  - intros Hroot.
    destruct (indexWorkspace_unreadable_root H cfg w rootPath s Hroot)
      as [line Hline].
    rewrite Hline in Hrun. inversion Hrun; subst s'.
    cbn [index wi_files wi_elements console].
    split; [reflexivity|]. split; [reflexivity|].
    exists line. reflexivity.
  - intros p Hfail.
    destruct (indexWorkspace_run H cfg w rootPath s)
      as (files & lines & _ & Hshape).
    cbn zeta in Hshape. rewrite Hshape in Hrun.
    inversion Hrun; subst s'. cbn [index wi_files wi_elements].
    apply (forEach_indexFile_inv cfg w
             (fun x =>
                JsMap.get p (wi_files (index x))
                = JsMap.get p (wi_files (index s))
                /\ JsMap.get p (wi_elements (index x))
                   = JsMap.get p (wi_elements (index s)))).
    + intros q x _ [Hx1 Hx2].
      destruct (indexFile_failing_path cfg w p q x Hfail) as [Hq1 Hq2].
      rewrite Hq1, Hq2. split; assumption.
    + cbn [index]. split; reflexivity.
Qed.

Lemma indexWorkspace_absorbs_failures_witness :
  rootUnreadable missingRootWorld = true
  /\ (exists s',
        indexWorkspace sampleHost sampleConfig missingRootWorld "/missing"
          indexedOnce = (Returned tt, s')
        /\ wi_files (index s') = wi_files (index indexedOnce)
        /\ wi_elements (index s') = wi_elements (index indexedOnce))
  /\ (exists s',
        indexWorkspace sampleHost sampleConfig brokenWorld "/ws"
          (newIndexer 0) = (Returned tt, s')
        /\ JsMap.get "/ws/mail.ts" (wi_files (index s')) = None
        /\ JsMap.get "/ws/mail.ts" (wi_elements (index s')) = None).
Proof.
  split; [reflexivity|]. split.
  - destruct (indexWorkspace_absorbs_failures sampleHost sampleConfig
                missingRootWorld "/missing" indexedOnce)
      as (s' & Hrun & Hroot & _).
    exists s'. split; [exact Hrun|].
    destruct (Hroot eq_refl) as (Hf & He & _).
    split; [exact Hf|exact He].
  - destruct (indexWorkspace_absorbs_failures sampleHost sampleConfig
                brokenWorld "/ws" (newIndexer 0))
      as (s' & Hrun & _ & Hfile).
    exists s'. split; [exact Hrun|].
    exact (Hfile "/ws/mail.ts"
             (or_introl (ex_intro _ "EACCES: permission denied" eq_refl))).
Defined.

(** C9 as stated fails: with a workspace root that does not exist,
    [indexWorkspace] does not throw; it returns normally. *)
Lemma indexWorkspace_root_counterexample :
  rootUnreadable missingRootWorld = true
  /\ ~ (exists e s',
          indexWorkspace sampleHost sampleConfig missingRootWorld "/missing"
            (newIndexer 0) = (Thrown e, s')).
Proof.
  split; [reflexivity|].
  intros (e & s' & Hthrown).
  destruct (indexWorkspace_returns sampleHost sampleConfig missingRootWorld
              "/missing" (newIndexer 0)) as [s'' Hret].
  rewrite Hret in Hthrown. discriminate.
Qed.

(** X24.  [indexWorkspace] keeps the index well formed: from an index
    whose two maps are in step and hold each path once it returns such an
    index again, stamped with the time of the call and with the file
    watcher installed when watching is configured; every path it holds
    was in the index before or is a path discovery lets in. *)
Theorem indexWorkspace_invariants (H : Host) (cfg : IndexerConfig)
    (w : World) (rootPath : string) (s : Indexer) :
  synced (index s) ->
  NoDup (JsMap.keys (wi_files (index s))) ->
  let s' := snd (indexWorkspace H cfg w rootPath s) in
  synced (index s')
  /\ NoDup (JsMap.keys (wi_files (index s')))
  /\ wi_lastUpdated (index s') = now w
  /\ fileWatcher s' = (watchFiles cfg || fileWatcher s)
  /\ forall p, In p (JsMap.keys (wi_files (index s'))) ->
               In p (JsMap.keys (wi_files (index s)))
               \/ discoverable H cfg p.
Proof.
  intros Hsync Hnd s'.
  destruct (indexWorkspace_run H cfg w rootPath s)
    as (files & lines & Hall & Hrun).
  cbn zeta in Hrun. unfold s'. rewrite Hrun. cbn [snd].
  set (s1 := mkIndexer (index s) (fileWatcher s) lines (parseCalls s)) in *.
  set (s2 := snd (forEachM (indexFile cfg w) files s1)) in *.
  cbn [index wi_files wi_elements wi_lastUpdated fileWatcher].
  assert (Hinv :
    synced (index s2)
    /\ NoDup (JsMap.keys (wi_files (index s2)))
    /\ fileWatcher s2 = fileWatcher s
    /\ forall p, In p (JsMap.keys (wi_files (index s2))) ->
                 In p (JsMap.keys (wi_files (index s))) \/ In p files).
  { unfold s2.
    apply (forEach_indexFile_inv cfg w
             (fun x =>
                synced (index x)
                /\ NoDup (JsMap.keys (wi_files (index x)))
                /\ fileWatcher x = fileWatcher s
                /\ forall p, In p (JsMap.keys (wi_files (index x))) ->
                             In p (JsMap.keys (wi_files (index s)))
                             \/ In p files)).
    - intros p x Hp (Hx1 & Hx2 & Hx3 & Hx4).
      split; [apply synced_indexFile; exact Hx1|].
      split; [apply NoDup_indexFile; exact Hx2|].
      split; [rewrite (proj1 (indexFile_watcher cfg w p x)); exact Hx3|].
      intros k Hk. apply indexFile_keys in Hk.
      destruct Hk as [Hk | ->]; [apply Hx4; exact Hk|right; exact Hp].
    - unfold s1. cbn [index fileWatcher].
      split; [exact Hsync|]. split; [exact Hnd|].
      split; [reflexivity|]. intros p Hp. left. exact Hp. }
  destruct Hinv as (H1 & H2 & H3 & H4).
  split; [exact H1|]. split; [exact H2|]. split; [reflexivity|].
  split; [rewrite H3; destruct (watchFiles cfg); reflexivity|].
  intros p Hp. destruct (H4 p Hp) as [Hold|Hnew]; [left; exact Hold|].
  right. rewrite Forall_forall in Hall. apply Hall. exact Hnew.
Qed.

(* ================================================================== *)
(** * Properties of the earlier search engine *)
(* ================================================================== *)

Section LegacyScore.

Local Open Scope Q_scope.

Lemma fold_left_nondecreasing {A : Type} (f : Q -> A -> Q) (l : list A)
    (x : Q) :
  (forall y a, y <= f y a) -> x <= fold_left f l x.
Proof.
  intros Hf. revert x. induction l as [|a r IH]; intros x; simpl.
  - apply Qle_refl.
  - eapply Qle_trans; [apply (Hf x a)|apply IH].
Qed.

Lemma ite_add_mono (b : bool) (x c : Q) :
  0 <= c -> x <= (if b then x + c else x).
Proof. intros Hc. destruct b; lra. Qed.

Lemma legacy_nameScore_nonneg (n k : string) :
  0 <= Legacy.getNameMatchScore n k.
Proof.
  unfold Legacy.getNameMatchScore.
  repeat match goal with
         | |- 0 <= (if ?b then _ else _) => destruct b
         end; lra.
Qed.

Lemma legacy_paramStep_mono (cs : bool) (k : string) (y : Q) (p : Param) :
  y <= Legacy.paramStep cs k y p.
Proof.
  unfold Legacy.paramStep. cbv zeta.
  repeat match goal with
         | |- context [if ?b then _ else _] => destruct b
         end; lra.
Qed.

Lemma legacy_scoreStep_mono (cs : bool) (e : CodeElement) (y : Q)
    (k : string) :
  y <= Legacy.scoreStep cs e y k.
Proof.
  unfold Legacy.scoreStep.
  pose proof (legacy_nameScore_nonneg (normalize cs (name e))
                (normalize cs k)) as Hn.
  set (s1 := if includes (normalize cs (name e)) (normalize cs k)
             then _ else y).
  assert (H1 : y <= s1) by (unfold s1; apply ite_add_mono; exact Hn).
  set (s2 := if includes (normalize cs (orEmpty (description e))) _
             then _ else s1).
  assert (H2 : s1 <= s2) by (unfold s2; apply ite_add_mono; lra).
  set (s3 := if includes (normalize cs (orEmpty (signature e))) _
             then _ else s2).
  assert (H3 : s2 <= s3) by (unfold s3; apply ite_add_mono; lra).
  set (s4 := if includes (normalize cs (orEmpty (context e))) _
             then _ else s3).
  assert (H4 : s3 <= s4) by (unfold s4; apply ite_add_mono; lra).
  destruct (parameters e) as [ps|].
  - pose proof (fold_left_nondecreasing
                  (Legacy.paramStep cs (normalize cs k)) ps s4
                  (legacy_paramStep_mono cs (normalize cs k))) as H5.
    lra.
  - lra.
Qed.

Lemma legacy_semantic_nonneg (e : CodeElement) (query : SearchQuery) :
  0 <= Legacy.getSemanticScore e query.
Proof.
  unfold Legacy.getSemanticScore.
  assert (Hs : forall y k, y <= Legacy.semanticStep e y k).
  { intros y k. unfold Legacy.semanticStep. cbv zeta.
    repeat match goal with
           | |- context [if ?b then _ else _] => destruct b
           end; lra. }
  pose proof (fold_left_nondecreasing (Legacy.semanticStep e)
                (keywords query) 0 Hs) as Hf.
  destruct (_ && _); lra.
Qed.

Lemma legacy_score_floor (e : CodeElement) (query : SearchQuery)
    (cs : bool) :
  Qmin (Legacy.getTypeMatchScore (type e) (elementTypes query)) 1
  <= Legacy.calculateScore e query cs
  /\ 0 <= Legacy.calculateScore e query cs
  /\ Legacy.calculateScore e query cs <= 1.
Proof.
  unfold Legacy.calculateScore.
  pose proof (fold_left_nondecreasing (Legacy.scoreStep cs e)
                (keywords query) 0 (legacy_scoreStep_mono cs e)) as Hk.
  pose proof (legacy_semantic_nonneg e query) as Hs.
  assert (Ht : 0 <= Legacy.getTypeMatchScore (type e) (elementTypes query))
    by (unfold Legacy.getTypeMatchScore; destruct (type_mem _ _); lra).
  split; [|split].
  - apply Q.min_glb.
    + eapply Qle_trans; [apply Q.le_min_l|]. lra.
    + eapply Qle_trans; [apply Q.le_min_r|]. lra.
  - apply Q.min_glb; lra.
  - eapply Qle_trans; [apply Q.le_min_r|]. lra.
Qed.

End LegacyScore.

(** X25.  The score of the earlier engine lies in [0, 1], and it is at
    least 0.2 for every declaration whose kind is among the kinds the
    query requests, whether or not any keyword matches. *)
Theorem legacy_score_bounds (e : CodeElement) (query : SearchQuery)
    (cs : bool) :
  (0 <= Legacy.calculateScore e query cs)%Q
  /\ (Legacy.calculateScore e query cs <= 1)%Q
  /\ (type_mem (type e) (elementTypes query) = true ->
      (0.2 <= Legacy.calculateScore e query cs)%Q).
Proof.
  destruct (legacy_score_floor e query cs) as (Hfloor & Hlo & Hhi).
  split; [exact Hlo|]. split; [exact Hhi|].
  intros Ht. unfold Legacy.getTypeMatchScore in Hfloor. rewrite Ht in Hfloor.
  eapply Qle_trans; [|exact Hfloor]. apply Q.min_glb; lra.
Qed.

Lemma legacy_collect_all (query : SearchQuery) (th : Q) (snip cs : bool)
    (els : list CodeElement) :
  (th <= 0.2)%Q ->
  Forall (fun e => type_mem (type e) (elementTypes query) = true) els ->
  map element (Legacy.collectResults query th snip cs els) = els.
Proof.
  intros Hth Hall. induction Hall as [|e r He Hr IH]; [reflexivity|].
  cbn [Legacy.collectResults].
  destruct (legacy_score_floor e query cs) as (Hfloor & _ & _).
  unfold Legacy.getTypeMatchScore in Hfloor. rewrite He in Hfloor.
  assert (Hge : (th <= Legacy.calculateScore e query cs)%Q).
  { eapply Qle_trans; [|exact Hfloor]. apply Q.min_glb; lra. }
  apply Qle_bool_iff in Hge. rewrite Hge. cbn [map element].
  rewrite IH. reflexivity.
Qed.

Lemma slice0_length_min {A : Type} (l : list A) (end_ : Z) :
  (0 <= end_)%Z ->
  List.length (slice0 l end_) = Nat.min (Z.to_nat end_) (List.length l).
Proof.
  intros Hpos. unfold slice0.
  destruct (end_ <? 0)%Z eqn:Hneg; [apply Z.ltb_lt in Hneg; lia|].
  rewrite length_firstn. lia.
Qed.

(** X26.  In the earlier engine, when the query requests kinds and the
    threshold is at most 0.2 (the default is 0.1), the threshold removes
    nothing: [search] returns a result for every declaration that passes
    the filters, up to the maximum result count. *)
Theorem legacy_search_keeps_all (H : Host) (els : list CodeElement)
    (query : SearchQuery) (options : SearchOptions)
    (out : list SearchResult) :
  Legacy.search H els query options = Ok out ->
  elementTypes query <> [] ->
  (withDefault 0.1 (threshold options) <= 0.2)%Q ->
  (0 <= withDefault 50 (maxResults options))%Z ->
  exists cands,
    filterElements H els query (withDefault [] (languages options))
      (withDefault [] (filePatterns options)) = Ok cands
    /\ List.length out
       = Nat.min (Z.to_nat (withDefault 50%Z (maxResults options)))
           (List.length cands)
    /\ ((Z.of_nat (List.length cands)
         <= withDefault 50 (maxResults options))%Z ->
        Permutation (map element out) cands).
Proof.
  unfold Legacy.search. intros Hs Hty Hth Hmax.
  destruct (filterElements H els query _ _) as [cands|] eqn:Hf;
    [|discriminate].
  exists cands. split; [reflexivity|].
  inversion Hs as [Hout]. clear Hs.
  assert (Hall : Forall (fun e => type_mem (type e) (elementTypes query)
                                  = true) cands).
  { apply Forall_forall. intros e He.
    destruct (filterElements_In H els query _ _ cands e Hf He)
      as (_ & Ht & _). apply Ht. exact Hty. }
  set (results := Legacy.collectResults query
                    (withDefault 0.1 (threshold options))
                    (withDefault true (includeSnippets options))
                    (withDefault false (caseSensitive options)) cands) in *.
  assert (Hmap : map element results = cands)
    by (apply legacy_collect_all; assumption).
  assert (Hlen : List.length (sortBy byScoreDesc results)
                 = List.length cands).
  { rewrite (Permutation_length (sortBy_perm byScoreDesc results)).
    rewrite <- Hmap, length_map. reflexivity. }
  split.
  - rewrite slice0_length_min by exact Hmax. rewrite Hlen. reflexivity.
  - intros Hfit. unfold slice0.
    destruct (withDefault 50%Z (maxResults options) <? 0)%Z eqn:Hneg;
      [apply Z.ltb_lt in Hneg; lia|].
    rewrite firstn_all2 by (rewrite Hlen; lia).
    rewrite <- Hmap. apply Permutation_map. apply sortBy_perm.
Qed.

(* ================================================================== *)
(** * Properties of the TypeScript parser *)
(* ================================================================== *)

Section Parser.

Import TypeScriptParser.

Local Open Scope list_scope.

Lemma Node_both (P : Node -> Prop) (Q : Nodes -> Prop) :
  (forall k d children, Q children -> P (mkNode k d children)) ->
  Q NoNodes ->
  (forall first others, P first -> Q others -> Q (MoreNodes first others)) ->
  (forall node, P node) /\ (forall nodes, Q nodes).
Proof.
  intros HN H0 HM. split.
  - apply (Node_mut_ind P Q); auto.
  - apply (Nodes_mut_ind P Q); auto.
Qed.

Lemma visit_beyond_limit (o : Options) (sf : SourceFile) :
  (forall node depth c,
     (depthLimit o < depth)%Z -> visitNode o sf node depth c = c)
  /\ (forall nodes depth c,
        (depthLimit o < depth)%Z -> visitNodes o sf nodes depth c = c).
Proof.
  assert (Hn : forall node depth c,
            (depthLimit o < depth)%Z -> visitNode o sf node depth c = c).
  { intros [k d ch] depth c Hd. cbn [visitNode].
    apply Z.ltb_lt in Hd. rewrite Hd. reflexivity. }
  split; [exact Hn|].
  induction nodes as [|first others IH]; intros depth c Hd;
    cbn [visitNodes]; [reflexivity|].
  rewrite (Hn first depth c Hd). apply IH. exact Hd.
Qed.

(** From depth [depth] the walk processes the nodes down to the depth
    limit, all of them, and no node below it. *)
Lemma visit_walkAll (o : Options) (sf : SourceFile) :
  (forall node depth c,
     (depth <= depthLimit o)%Z ->
     visitNode o sf node depth c
     = walkAll o sf (truncate (Z.to_nat (depthLimit o - depth)) node) c)
  /\ (forall nodes depth c,
        (depth <= depthLimit o)%Z ->
        visitNodes o sf nodes depth c
        = walkAllNodes o sf
            (truncateNodes (Z.to_nat (depthLimit o - depth)) nodes) c).
Proof.
  apply Node_both.
  - intros k d ch IH depth c Hd. cbn [visitNode truncate walkAll].
    destruct (Z.ltb_spec (depthLimit o) depth) as [Hlt|_]; [lia|].
    destruct (Z.to_nat (depthLimit o - depth)) as [|m] eqn:Hm.
    + cbn [walkAllNodes]. apply (proj2 (visit_beyond_limit o sf)). lia.
    + rewrite (IH (depth + 1)%Z _ ltac:(lia)).
      replace (Z.to_nat (depthLimit o - (depth + 1))) with m by lia.
      reflexivity.
  - intros depth c Hd. reflexivity.
  - intros first others IHf IHo depth c Hd.
    cbn [visitNodes truncateNodes walkAllNodes].
    rewrite (IHf depth c Hd). apply IHo. exact Hd.
Qed.

(** The walk reads the depth option through [depthLimit] only. *)
Lemma visit_depthLimit_only (o o' : Options) (sf : SourceFile) :
  includeComments o' = includeComments o ->
  includePrivate o' = includePrivate o ->
  depthLimit o' = depthLimit o ->
  (forall node depth c,
     visitNode o' sf node depth c = visitNode o sf node depth c)
  /\ (forall nodes depth c,
        visitNodes o' sf nodes depth c = visitNodes o sf nodes depth c).
Proof.
  intros Hc Hp Hl.
  assert (Hproc : forall k d c, processNode o' sf k d c
                                = processNode o sf k d c).
  { intros k d c.
    assert (Hdrop : droppedAsPrivate o' d = droppedAsPrivate o d)
      by (unfold droppedAsPrivate; rewrite Hp; reflexivity).
    assert (Hdecl : forall n t sg ps r m,
              declared o' sf d n t sg ps r m = declared o sf d n t sg ps r m).
    { intros. unfold declared, getDescription. rewrite Hc. reflexivity. }
    destruct k; cbn [processNode]; try reflexivity;
      unfold processFunctionDeclaration, processClassDeclaration,
        processMethodDeclaration, processPropertyDeclaration,
        processVariableDeclaration, processNamedDeclaration;
      rewrite ?Hdrop, ?Hdecl;
      repeat match goal with
             | |- context [match ?x with _ => _ end] => destruct x
             end; rewrite ?Hdecl; reflexivity. }
  apply Node_both.
  - intros k d ch IH depth c. cbn [visitNode]. rewrite Hl, Hproc.
    destruct (depthLimit o <? depth)%Z; [reflexivity|]. apply IH.
  - intros depth c. reflexivity.
  - intros first others IHf IHo depth c. cbn [visitNodes].
    rewrite IHf. apply IHo.
Qed.

(** X27.  The walk of the parser processes every node of the tree down
    to the depth limit, a node before its children and the children in
    order, and no node below the limit: its result is that of the walk
    without a depth check over the tree cut below the limit.  A
    configured depth of 0 stands for 10, and with a negative depth
    nothing is visited at all. *)
Theorem visitNode_depth_limit (o : Options) (sf : SourceFile) (node : Node)
    (c : Collected) :
  ((0 <= depthLimit o)%Z ->
   visitNode o sf node 0 c
   = walkAll o sf (truncate (Z.to_nat (depthLimit o)) node) c)
  /\ ((maxDepth o < 0)%Z -> visitNode o sf node 0 c = c)
  /\ visitNode (withMaxDepth 0 o) sf node 0 c
     = visitNode (withMaxDepth 10 o) sf node 0 c.
Proof.
  split; [|split].
  - intros Hl.
    rewrite (proj1 (visit_walkAll o sf) node 0%Z c Hl).
    rewrite Z.sub_0_r. reflexivity.
  - intros Hneg. apply (proj1 (visit_beyond_limit o sf)).
    unfold depthLimit. destruct (maxDepth o =? 0)%Z eqn:H0; [|exact Hneg].
    apply Z.eqb_eq in H0. lia.
  - apply (proj1 (visit_depthLimit_only (withMaxDepth 10 o)
                    (withMaxDepth 0 o) sf eq_refl eq_refl eq_refl)).
Qed.

(* ------------------------------------------------------------------ *)
(** *** The private filter *)

Lemma length_append (a b : string) :
  String.length (a ++ b)%string = (String.length a + String.length b)%nat.
Proof. induction a as [|x a IH]; simpl; [reflexivity|rewrite IH; reflexivity]. Qed.

Lemma keyword_not_private (kindName : string) :
  endsWith kindName "Keyword" = true ->
  toLowerCase kindName <> "private"%string.
Proof.
  intros He. apply endsWith_spec in He. destruct He as [a Ha].
  rewrite Ha, toLowerCase_app. intros Hp.
  assert (Hlen : String.length (toLowerCase a ++ toLowerCase "Keyword")%string
                 = 7%nat) by (rewrite Hp; reflexivity).
  rewrite length_append in Hlen. cbn [toLowerCase String.length] in Hlen.
  destruct (toLowerCase a) as [|x r] eqn:Hla;
    [cbn in Hp; discriminate|].
  cbn [String.length] in Hlen. lia.
Qed.

Lemma keywordKinds_not_dropped (o : Options) (d : NodeData) :
  keywordKinds d = true -> droppedAsPrivate o d = false.
Proof.
  unfold keywordKinds, droppedAsPrivate, getModifiers. intros Hk.
  assert (Hm : str_mem "private" (map toLowerCase (nd_modifierKinds d))
               = false).
  { destruct (str_mem "private" (map toLowerCase (nd_modifierKinds d)))
      eqn:Hm; [|reflexivity].
    apply str_mem_In in Hm. apply in_map_iff in Hm.
    destruct Hm as (kn & Hlow & Hin).
    rewrite forallb_forall in Hk. specialize (Hk kn Hin).
    exfalso. apply (keyword_not_private kn Hk). exact Hlow. }
  rewrite Hm. apply andb_false_r.
Qed.

Lemma visit_private_irrelevant (o : Options) (b : bool) (sf : SourceFile) :
  (forall node depth c,
     everyNode keywordKinds node = true ->
     visitNode (withIncludePrivate b o) sf node depth c
     = visitNode o sf node depth c)
  /\ (forall nodes depth c,
        everyNodes keywordKinds nodes = true ->
        visitNodes (withIncludePrivate b o) sf nodes depth c
        = visitNodes o sf nodes depth c).
Proof.
  set (o' := withIncludePrivate b o).
  assert (Hproc : forall k d c, keywordKinds d = true ->
            processNode o' sf k d c = processNode o sf k d c).
  { intros k d c Hk.
    assert (Hdecl : forall n t sg ps r m,
              declared o' sf d n t sg ps r m = declared o sf d n t sg ps r m)
      by reflexivity.
    destruct k; cbn [processNode]; try reflexivity;
      unfold processFunctionDeclaration, processClassDeclaration,
        processMethodDeclaration, processPropertyDeclaration,
        processVariableDeclaration, processNamedDeclaration;
      rewrite ?(keywordKinds_not_dropped o' d Hk),
              ?(keywordKinds_not_dropped o d Hk);
      reflexivity. }
  apply Node_both.
  - intros k d ch IH depth c He. cbn [everyNode] in He.
    apply andb_true_iff in He. destruct He as [Hd Hch].
    cbn [visitNode]. change (depthLimit o') with (depthLimit o).
    destruct (depthLimit o <? depth)%Z; [reflexivity|].
    rewrite (Hproc k d c Hd). apply IH. exact Hch.
  - intros depth c _. reflexivity.
  - intros first others IHf IHo depth c He. cbn [everyNodes] in He.
    apply andb_true_iff in He. destruct He as [Hf Ho].
    cbn [visitNodes]. rewrite (IHf depth c Hf). apply IHo. exact Ho.
Qed.

(** X28.  The parser drops a declaration as private only when the name
    of one of its modifier kinds is, in lower case, exactly "private".
    On a tree whose modifier kinds all have names ending with "Keyword"
    the [includePrivate] option therefore changes nothing: the walk
    records the same declarations with and without it. *)
Theorem includePrivate_without_effect (o : Options) (b : bool)
    (sf : SourceFile) (node : Node) (c : Collected) :
  everyNode keywordKinds node = true ->
  visitNode (withIncludePrivate b o) sf node 0 c = visitNode o sf node 0 c.
Proof.
  intros He. apply (proj1 (visit_private_irrelevant o b sf)). exact He.
Qed.

(* ------------------------------------------------------------------ *)
(** *** What a parse returns *)

Lemma collectedFrom_refl (sf : SourceFile) (c : Collected) :
  collectedFrom sf c c.
Proof.
  split; [reflexivity|]. exists []. rewrite app_nil_r.
  split; [reflexivity|constructor].
Qed.

Lemma collectedFrom_trans (sf : SourceFile) (c1 c2 c3 : Collected) :
  collectedFrom sf c1 c2 -> collectedFrom sf c2 c3 -> collectedFrom sf c1 c3.
Proof.
  intros (He1 & a1 & Ha1 & F1) (He2 & a2 & Ha2 & F2).
  split; [rewrite He2; exact He1|]. exists (a1 ++ a2).
  rewrite Ha2, Ha1, app_assoc. split; [reflexivity|].
  apply Forall_app. split; assumption.
Qed.

Lemma collectedFrom_push (o : Options) (sf : SourceFile) (d : NodeData)
    (n : string) (t : ElementType) (sg : option string)
    (ps : option (list Param)) (r : option string)
    (m : option (list string)) (c : Collected) :
  t <> NAMESPACE ->
  collectedFrom sf c (pushElement (declared o sf d n t sg ps r m) c).
Proof.
  intros Ht. split; [reflexivity|].
  exists [declared o sf d n t sg ps r m]. split; [reflexivity|].
  constructor; [|constructor]. unfold declared.
  destruct (getPosition sf d) as [[[a b] x] y]. cbn.
  repeat split; [exact Ht|discriminate].
Qed.

Lemma processNode_collected (o : Options) (sf : SourceFile)
    (k : SyntaxKind) (d : NodeData) (c : Collected) :
  collectedFrom sf c (processNode o sf k d c).
Proof.
  destruct k; cbn [processNode];
    unfold processFunctionDeclaration, processClassDeclaration,
      processMethodDeclaration, processPropertyDeclaration,
      processVariableDeclaration, processNamedDeclaration,
      processImportDeclaration, processExportDeclaration;
    repeat match goal with
           | |- context [match ?x with _ => _ end] => destruct x
           end;
    try apply collectedFrom_refl;
    try (apply collectedFrom_push; discriminate).
  - split; [reflexivity|]. exists []. cbn. rewrite app_nil_r.
    split; [reflexivity|constructor].
  - split; [reflexivity|]. exists []. cbn. rewrite app_nil_r.
    split; [reflexivity|constructor].
Qed.

Lemma visit_collected (o : Options) (sf : SourceFile) :
  (forall node depth c, collectedFrom sf c (visitNode o sf node depth c))
  /\ (forall nodes depth c,
        collectedFrom sf c (visitNodes o sf nodes depth c)).
Proof.
  apply Node_both.
  - intros k d ch IH depth c. cbn [visitNode].
    destruct (depthLimit o <? depth)%Z; [apply collectedFrom_refl|].
    eapply collectedFrom_trans; [apply processNode_collected|apply IH].
  - intros depth c. apply collectedFrom_refl.
  - intros first others IHf IHo depth c. cbn [visitNodes].
    eapply collectedFrom_trans; [apply IHf|apply IHo].
Qed.

(** X29.  [parseFile] fails exactly when the file cannot be read.
    Otherwise it returns the path it was given, a language tag that is
    "typescript" or "javascript" (never "python"), an empty list of
    diagnostics, and declarations that all carry the file name of the
    compiler's source file, a context, and a kind other than
    namespace. *)
Theorem parseFile_result (H : Host) (o : Options)
    (createSourceFile : string -> string -> SourceFile)
    (readFile : string -> result string) (path : string) :
  match readFile path with
  | Err e =>
      TypeScriptParser.parseFile H o createSourceFile readFile path = Err e
  | Ok content =>
      exists pf,
        TypeScriptParser.parseFile H o createSourceFile readFile path
        = Ok pf
        /\ pf_filePath pf = path
        /\ (pf_language pf = "typescript"%string
            \/ pf_language pf = "javascript"%string)
        /\ pf_errors pf = []
        /\ Forall
             (fun e =>
                filePath e = sf_fileName (createSourceFile path content)
                /\ type e <> NAMESPACE /\ context e <> None)
             (pf_elements pf)
  end.
Proof.
  unfold TypeScriptParser.parseFile.
  destruct (readFile path) as [content|e]; [|reflexivity].
  eexists. split; [reflexivity|].
  cbn [pf_filePath pf_language pf_errors pf_elements].
  split; [reflexivity|]. split.
  - unfold getLanguage. destruct (_ || _); [left|right]; reflexivity.
  - destruct (proj1 (visit_collected o (createSourceFile path content))
                (sf_root (createSourceFile path content)) 0%Z
                (mkCollected [] [] [] []))
      as (Herr & added & Hadd & Hall).
    cbn [c_errors c_elements app] in Herr, Hadd.
    split; [exact Herr|]. rewrite Hadd. exact Hall.
Qed.

End Parser.

(* ------------------------------------------------------------------ *)
(** *** Cleaning a documentation comment *)

Section Comments.

Local Open Scope string_scope.

Lemma stripClosing_step (c : ascii) (s : string) :
  (2 <= String.length s)%nat ->
  stripClosing (String c s) = String c (stripClosing s).
Proof.
  intros Hlen. destruct s as [|d [|d' s']]; cbn [String.length] in Hlen;
    try lia.
  destruct c as [[] [] [] [] [] [] [] []]; try reflexivity.
  destruct d as [[] [] [] [] [] [] [] []]; reflexivity.
Qed.

Lemma stripClosing_app (x : string) : stripClosing (x ++ "*/") = x.
Proof.
  induction x as [|c r IH]; [reflexivity|].
  cbn [append]. rewrite stripClosing_step.
  - rewrite IH. reflexivity.
  - rewrite length_append. cbn. lia.
Qed.

Lemma stripStars_inline (s : string) :
  allChars (fun c => negb (isLineTerminator c)) s = true ->
  stripStars InLine s = s.
Proof.
  induction s as [|c r IH]; cbn [stripStars allChars]; [reflexivity|].
  intros Hs. apply andb_true_iff in Hs. destruct Hs as [Hc Hr].
  apply negb_true_iff in Hc. rewrite Hc, (IH Hr). reflexivity.
Qed.

Lemma stripStars_one_line (s : string) :
  allChars (fun c => negb (isLineTerminator c)) s = true ->
  starAfterSpaces s = false ->
  stripStars AtLineStart s = s.
Proof.
  destruct s as [|c r]; [reflexivity|].
  intros Hs Hstar. cbn [stripStars]. rewrite Hstar.
  cbn [allChars] in Hs. apply andb_true_iff in Hs. destruct Hs as [Hc Hr].
  apply negb_true_iff in Hc. rewrite Hc, (stripStars_inline r Hr).
  reflexivity.
Qed.

Lemma starAfterSpaces_app (t u : string) :
  starAfterSpaces t = false -> starAfterSpaces u = false ->
  starAfterSpaces (t ++ u) = false.
Proof.
  intros Ht Hu. induction t as [|c r IH]; [exact Hu|].
  cbn [append starAfterSpaces] in *.
  destruct (Ascii.eqb c "*"); [discriminate|].
  destruct (isSpace c); [apply IH; exact Ht|reflexivity].
Qed.

Lemma trimEnd_space (u : string) : trimEnd (u ++ " ") = trimEnd u.
Proof.
  induction u as [|c r IH]; [reflexivity|].
  cbn [append trimEnd]. rewrite IH. reflexivity.
Qed.

Lemma trim_padded (t : string) : trim (" " ++ t ++ " ") = trim t.
Proof.
  unfold trim. cbn [append trimStart]. change (isSpace " ") with true.
  cbn iota.
  induction t as [|c r IH]; [reflexivity|].
  cbn [append trimStart]. destruct (isSpace c); [exact IH|].
  apply (trimEnd_space (String c r)).
Qed.

End Comments.

(** X30.  The description taken from a documentation comment of one
    line, [/** text */], is the text without the white space around it,
    provided the text holds no line end and does not begin, after white
    space, with a star. *)
Theorem cleanComment_one_line (t : string) :
  allChars (fun c => negb (isLineTerminator c)) t = true ->
  starAfterSpaces t = false ->
  cleanComment ("/** " ++ t ++ " */") = trim t.
Proof.
  intros Hline Hstar. unfold cleanComment, stripDelimiters.
  change (stripOpening ("/** " ++ t ++ " */")%string)
    with (" " ++ t ++ " */")%string.
  assert (Hsplit : (" " ++ t ++ " */")%string
                   = ((" " ++ t ++ " ") ++ "*/")%string).
  { cbn [append]. f_equal. rewrite append_assoc. reflexivity. }
  rewrite Hsplit, stripClosing_app.
  rewrite stripStars_one_line.
  - apply trim_padded.
  - cbn [append allChars]. rewrite allChars_app, Hline. reflexivity.
  - cbn [append starAfterSpaces]. change (isSpace " ") with true.
    change (Ascii.eqb " " "*") with false. cbn iota.
    apply starAfterSpaces_app; [exact Hstar|reflexivity].
Qed.

(* ================================================================== *)
(** ** The further properties at the sample data *)
(* ================================================================== *)

Section Instances.

Local Open Scope string_scope.
Local Open Scope list_scope.
Local Open Scope Q_scope.

(** The first result of the sample search carries one of the sample
    declarations, of a requested kind. *)
Lemma search_results_filtered_witness :
  exists out,
    search sampleHost sampleElements (emailQuery ["email"]) noOptions
    = Ok out
    /\ exists r,
         In r out
         /\ In (element r) sampleElements
         /\ type_mem (type (element r)) [FUNCTION; METHOD] = true.
Proof.
  eexists. split; [vm_compute; reflexivity|].
  eexists. split; [left; reflexivity|].
  destruct (search_results_filtered sampleHost sampleElements
              (emailQuery ["email"]) noOptions _ _ eq_refl
              (or_introl eq_refl))
    as (Hin & Hty & _).
  split; [exact Hin|]. apply Hty. discriminate.
Defined.

(** [parseDate] does not hold "email" and scores 0; [sendEmail] holds it
    and has a positive score. *)
Lemma calculateScore_zero_iff_witness :
  cutOff parseDateFn (emailQuery ["email"]) false = true
  /\ calculateScore parseDateFn (emailQuery ["email"]) false == 0
  /\ 0 < calculateScore sendEmailFn (emailQuery ["email"]) false.
Proof.
  split; [reflexivity|]. split.
  - apply (proj2 (proj1 (calculateScore_zero_iff parseDateFn
                           (emailQuery ["email"]) false))).
    reflexivity.
  - apply (proj2 (calculateScore_zero_iff sendEmailFn
                    (emailQuery ["email"]) false)).
    reflexivity.
Defined.

(** "email" is found in the description of [notify] and is shown with
    it. *)
Lemma getMatchedKeywords_covers_scoring_witness :
  In "email" (getMatchedKeywords notifyMethod ["email"; "token"] false).
Proof.
  exact (proj2 (getMatchedKeywords_covers_scoring notifyMethod
                  ["email"; "token"] false)
           "email" (or_introl eq_refl) eq_refl).
Defined.

(** The capital of code unit 233 is folded like the capitals A-Z. *)
Lemma calculateScore_ignores_case_witness :
  calculateScore capitalEcoleFn (emailQuery [String "233"%char "cole"]) false
  = calculateScore smallEcoleFn (emailQuery [String "233"%char "cole"])
      false.
Proof.
  apply (proj2 (calculateScore_ignores_case smallEcoleFn
                  (emailQuery [String "233"%char "cole"]))).
  reflexivity.
Defined.


(** [sendEmail] has "email" in its name, [notify] in its description
    only. *)
Lemma single_keyword_field_order_witness :
  calculateScore notifyMethod (emailQuery ["email"]) false
  < calculateScore sendEmailFn (emailQuery ["email"]) false.
Proof.
  apply (single_keyword_field_order sendEmailFn notifyMethod
           (emailQuery ["email"]) false "email").
  - reflexivity.
  - vm_compute. lia.
Defined.

(** A NO-BREAK SPACE separates words as a space does. *)
Lemma tokenize_words_witness :
  tokenize (normalizeQuery (" Send" ++ noBreakSpace ++ "EMAIL ")%string)
  = ["send"; "email"]
  /\ "email" <> ""
  /\ allChars (fun c => negb (isSpace c)) "email" = true
  /\ toLowerCase "email" = "email".
Proof.
  split; [reflexivity|].
  apply (tokenize_words (" Send" ++ noBreakSpace ++ "EMAIL ")%string "email").
  right. left. reflexivity.
Defined.

(** A query for an interface has intent FIND_CLASSES. *)
Lemma determineIntent_interfaces_witness :
  determineIntent ["find"; "interface"; "user"] = FIND_CLASSES
  /\ extractElementTypes ["find"; "interface"; "user"]
       (determineIntent ["find"; "interface"; "user"]) = [CLASS].
Proof.
  apply (proj2 (determineIntent_interfaces ["find"; "interface"; "user"]));
    reflexivity.
Defined.

Lemma extractKeywords_spec_witness :
  In "email" (extractKeywords ["send"; "the"; "email"; "function"]).
Proof.
  apply (proj2 (proj2 (extractKeywords_spec
                         ["send"; "the"; "email"; "function"]))).
  split; [right; right; left; reflexivity|].
  split; reflexivity.
Defined.

Lemma getSuggestions_contract_witness :
  getSuggestions (" " ++ noBreakSpace)%string = firstn 10 allKeywords.
Proof.
  apply (proj2 (proj2 (getSuggestions_contract (" " ++ noBreakSpace)%string))).
  reflexivity.
Defined.

(** The sample file after its first [indexFile]. *)
Lemma indexFile_then_lookup_witness :
  (exists record,
     getFileIndex indexedOnce mailPath = Some record
     /\ fi_hash record = fingerprint (mkStats 5 1000) "hello")
  /\ getElementsForFile indexedOnce mailPath = [sendEmailFn]
  /\ parseCalls indexedOnce = 1%nat.
Proof.
  destruct (indexFile_then_lookup sampleConfig sampleWorld mailPath
              (newIndexer 0) (mkStats 5 1000) "hello"
              (mkParsedFile mailPath "typescript" [sendEmailFn] [] [] [])
              eq_refl ltac:(vm_compute; discriminate) eq_refl eq_refl)
    as [Hrec Hnew].
  split; [exact Hrec|].
  destruct (Hnew eq_refl) as (_ & Hels & Hcalls).
  split; [exact Hels|exact Hcalls].
Defined.

(** Removing another path leaves the record of the sample file. *)
Lemma index_ops_frame_witness :
  getFileIndex
    (snd (runOp sampleConfig (OpRemoveFile "/ws/src/other.ts") indexedOnce))
    mailPath
  = getFileIndex indexedOnce mailPath
  /\ getElementsForFile
       (snd (runOp sampleConfig (OpRemoveFile "/ws/src/other.ts")
               indexedOnce))
       mailPath
     = getElementsForFile indexedOnce mailPath.
Proof.
  apply (index_ops_frame sampleConfig (OpRemoveFile "/ws/src/other.ts")
           indexedOnce mailPath).
  vm_compute. discriminate.
Defined.

Lemma removeFile_then_lookup_witness :
  getFileIndex
    (snd (removeFile mailPath
            (runOps sampleConfig [OpIndexFile sampleWorld mailPath]
               (newIndexer 0))))
    mailPath
  = None.
Proof.
  exact (proj1 (removeFile_then_lookup sampleConfig 0
                  [OpIndexFile sampleWorld mailPath] mailPath)).
Defined.

(** The sample file grown to two million bytes keeps its record. *)
Lemma indexFile_large_file_witness :
  parseCalls (snd (indexFile sampleConfig bigFileWorld mailPath indexedOnce))
  = 1%nat
  /\ getFileIndex
       (snd (indexFile sampleConfig bigFileWorld mailPath indexedOnce))
       mailPath
     = getFileIndex indexedOnce mailPath.
Proof.
  destruct (indexFile_large_file sampleConfig bigFileWorld mailPath
              indexedOnce (mkStats 2000000 1500) eq_refl eq_refl)
    as (_ & Hcalls & Hrec).
  split; [exact Hcalls|exact Hrec].
Defined.

Lemma fingerprint_equal_iff_witness :
  fingerprint (mkStats 5 1000) "hello" = fingerprint (mkStats 7 1000) "HELLO".
Proof.
  apply (proj2 (fingerprint_equal_iff (mkStats 5 1000) (mkStats 7 1000)
                  "hello" "HELLO")).
  split; reflexivity.
Defined.

(** An edit that keeps the length and the modification time goes
    unnoticed: the index still holds [sendEmail]. *)
Lemma indexFile_change_detection_witness :
  parseCalls (snd (indexFile sampleConfig editedWorld mailPath indexedOnce))
  = parseCalls indexedOnce
  /\ index (snd (indexFile sampleConfig editedWorld mailPath indexedOnce))
     = index indexedOnce
  /\ getElementsForFile
       (snd (indexFile sampleConfig editedWorld mailPath indexedOnce))
       mailPath
     = [sendEmailFn].
Proof.
  apply (indexFile_change_detection sampleConfig sampleWorld editedWorld
           mailPath (newIndexer 0) (mkStats 5 1000) (mkStats 5 1000)
           "hello" "HELLO"
           (mkParsedFile mailPath "typescript" [sendEmailFn] [] [] [])
           eq_refl eq_refl eq_refl ltac:(vm_compute; discriminate) eq_refl
           eq_refl eq_refl ltac:(vm_compute; discriminate)).
  split; reflexivity.
Defined.

Lemma getAllElements_flattens_witness :
  exists filePath,
    In sendEmailFn
      (getElementsForFile
         (runOps sampleConfig [OpIndexFile sampleWorld mailPath]
            (newIndexer 0))
         filePath).
Proof.
  apply (proj2 (getAllElements_flattens sampleConfig 0
                  [OpIndexFile sampleWorld mailPath]) sendEmailFn).
  left. reflexivity.
Defined.

(** A directory [layout] is excluded: its path holds "out". *)
Lemma excluded_directory_not_entered_witness :
  shouldExcludeDirectory sampleHost sampleConfig "/ws/layout" = Ok true
  /\ traverseItems sampleHost sampleConfig "/ws"
       (FsCons "layout" (FsDir (FsCons "grid.ts" FsFile FsNil)) FsNil)
       (mkDiscovery [] [])
     = traverseItems sampleHost sampleConfig "/ws"
         (FsCons "layout" (FsDir FsNil) FsNil) (mkDiscovery [] []).
Proof.
  apply (excluded_directory_not_entered sampleHost sampleConfig "/ws"
           "layout" "out").
  - do 5 right. left. reflexivity.
  - reflexivity.
Defined.

Lemma indexWorkspace_invariants_witness :
  synced
    (index (snd (indexWorkspace sampleHost sampleConfig sampleWorld "/ws"
                   (newIndexer 0))))
  /\ NoDup
       (JsMap.keys
          (wi_files
             (index (snd (indexWorkspace sampleHost sampleConfig sampleWorld
                            "/ws" (newIndexer 0))))))
  /\ wi_lastUpdated
       (index (snd (indexWorkspace sampleHost sampleConfig sampleWorld "/ws"
                      (newIndexer 0))))
     = 2000%Z.
Proof.
  destruct (indexWorkspace_invariants sampleHost sampleConfig sampleWorld
              "/ws" (newIndexer 0) eq_refl (NoDup_nil string))
    as (Hs & Hn & Ht & _).
  split; [exact Hs|]. split; [exact Hn|exact Ht].
Defined.

(** In the earlier engine a function that matches no keyword still
    scores 0.2 for a query that asks for functions. *)
Lemma legacy_score_bounds_witness :
  0.2 <= Legacy.calculateScore parseDateFn (emailQuery ["zzz"]) false.
Proof.
  apply (proj2 (proj2 (legacy_score_bounds parseDateFn (emailQuery ["zzz"])
                         false))).
  reflexivity.
Defined.

(** ... and so all four sample declarations are returned for it. *)
Lemma legacy_search_keeps_all_witness :
  exists out cands,
    Legacy.search sampleHost sampleElements (emailQuery ["zzz"]) noOptions
    = Ok out
    /\ filterElements sampleHost sampleElements (emailQuery ["zzz"]) [] []
       = Ok cands
    /\ List.length cands = 4%nat
    /\ List.length out = Nat.min 50 (List.length cands).
Proof.
  eexists.
  destruct (legacy_search_keeps_all sampleHost sampleElements
              (emailQuery ["zzz"]) noOptions _ eq_refl
              ltac:(discriminate) ltac:(vm_compute; discriminate)
              ltac:(vm_compute; discriminate))
    as (cands & Hf & Hlen & _).
  exists cands. split; [reflexivity|]. split; [exact Hf|].
  split; [|exact Hlen].
  vm_compute in Hf. injection Hf as <-. reflexivity.
Defined.

(** With a depth limit of 1 the class of the sample file is recorded and
    its method, at depth 2, is not. *)
Lemma visitNode_depth_limit_witness :
  TypeScriptParser.visitNode
    (withMaxDepth 1 TypeScriptParser.defaultOptions)
    sampleSourceFile sampleTree 0 noElements
  = walkAll (withMaxDepth 1 TypeScriptParser.defaultOptions)
      sampleSourceFile (truncate 1 sampleTree) noElements
  /\ map name
       (TypeScriptParser.c_elements
          (TypeScriptParser.visitNode
             (withMaxDepth 1 TypeScriptParser.defaultOptions)
             sampleSourceFile sampleTree 0 noElements))
     = ["Mailer"]
  /\ TypeScriptParser.visitNode
       (withMaxDepth (-1) TypeScriptParser.defaultOptions)
       sampleSourceFile sampleTree 0 noElements
     = noElements.
Proof.
  split; [|split].
  - apply (proj1 (visitNode_depth_limit
                    (withMaxDepth 1 TypeScriptParser.defaultOptions)
                    sampleSourceFile sampleTree noElements)).
    vm_compute. discriminate.
  - reflexivity.
  - apply (proj1 (proj2 (visitNode_depth_limit
                           (withMaxDepth (-1)
                              TypeScriptParser.defaultOptions)
                           sampleSourceFile sampleTree noElements))).
    reflexivity.
Defined.

(** The private method of the sample class is recorded whether or not
    private declarations are asked for. *)
Lemma includePrivate_without_effect_witness :
  everyNode keywordKinds sampleTree = true
  /\ TypeScriptParser.visitNode
       (withIncludePrivate true TypeScriptParser.defaultOptions)
       sampleSourceFile sampleTree 0 noElements
     = TypeScriptParser.visitNode TypeScriptParser.defaultOptions
         sampleSourceFile sampleTree 0 noElements
  /\ map name
       (TypeScriptParser.c_elements
          (TypeScriptParser.visitNode TypeScriptParser.defaultOptions
             sampleSourceFile sampleTree 0 noElements))
     = ["Mailer"; "send"].
Proof.
  split; [reflexivity|]. split; [|reflexivity].
  apply (includePrivate_without_effect TypeScriptParser.defaultOptions true
           sampleSourceFile sampleTree noElements).
  reflexivity.
Defined.

(** White space around the text, a NO-BREAK SPACE included, is
    dropped. *)
Lemma cleanComment_one_line_witness :
  cleanComment ("/** " ++ noBreakSpace ++ " Sends it. " ++ " */")%string
  = "Sends it.".
Proof.
  apply (cleanComment_one_line (noBreakSpace ++ " Sends it. ")%string);
    reflexivity.
Defined.

End Instances.
